(** * redhat-docs-downloader: a shallow embedding of [docs-downloader.js]

    The script drives a browser over a documentation listing, resolves one
    PDF per book and downloads it.  The embedding follows the source
    function by function:

    - [withRetry]              (lines 14-33)
    - [downloadPdf]            (lines 36-72)
    - [scrapeAndDownloadDocs]  (lines 75-298), split into [launchOptions],
      [setup], the headless locator [locateHeadless], the headed locator
      [headedBranch], the loop body [processBook] with its [tryBlock],
      [catchBlock] and [finallyBlock], the loop [processBooks],
      [saveResults] and the outer [outerCatch] and [outerFinally].

    Conventions.
    - A JavaScript [Error] is a record with its [message] and optional
      [code].  An [async] function is a state-and-exception computation
      [M A]: it maps a state to a result (a thrown error or a value) and
      the state left behind, so effects of a failed call persist as they
      do in JavaScript.
    - Everything outside the script (browser, network, clock, the outcome
      of file-system calls) is the [world] component of the state, of an
      arbitrary type [W], driven by the operations of an [Env W], which
      also gives the formatting done by [console.error].  A statement
      quantified over [W] and [Env W] covers every behaviour of that
      environment.
    - The files written by the script, the text sent to
      [console.error]/[console.warn], the delays waited with [setTimeout]
      and the browsers launched are recorded in the state.  Progress lines
      printed with [console.log], the stack trace of line 286 and the tally
      of lines 266-281 are not modelled.
    - Node ends the process when a promise rejects and nothing handles the
      rejection.  The state holds the promises that the script has created
      and not awaited yet; each operation of the environment is a point
      where the script is suspended and such a rejection takes effect.  The
      state then records the end of the process with what could be observed
      at that moment, and the run has no ledger.
    - Strings are byte strings.  Where the script folds case, tests for
      white space or replaces character by character, the definitions work
      on bytes, which agrees with the UTF-16 code units of the script on
      ASCII text; the statements about those definitions assume the text is
      ASCII ([ascii_text]). *)

From Stdlib Require Import ZArith Lia Bool Ascii String DecimalString.
From Stdlib.Strings Require Import Byte.
From stdpp Require Import base list strings gmap.

Local Open Scope string_scope.
Local Open Scope nat_scope.
Local Open Scope list_scope.

(** ** JavaScript values used by the script *)

Record JsError := mkError { message : string; code : option string }.

(** [new Error(msg)] *)
Definition Error (msg : string) : JsError := {| message := msg; code := None |}.

(** Template-literal rendering of a non-negative integer and of an integer. *)
Definition show_nat (n : nat) : string := NilEmpty.string_of_uint (Nat.to_uint n).
Definition show_Z (z : Z) : string := NilEmpty.string_of_int (Z.to_int z).

(** Options handed to [chromium.launch]. *)
Record LaunchOptions := { headless : bool; slowMo : option Z }.

(** ** State and the computation type *)

(** What can be observed of the process at one moment. *)
Record Frozen (W : Type) := mkFrozen {
  at_world    : W;
  at_files    : gmap string (list byte);
  at_console  : list string;
  at_slept    : list Z;
  at_launches : list LaunchOptions
}.
Arguments mkFrozen {W}.
Arguments at_world {W}.
Arguments at_files {W}.
Arguments at_console {W}.
Arguments at_slept {W}.
Arguments at_launches {W}.

(** [pending] holds the promises that were created and that nothing awaits
    yet, each as the test telling, from the world, whether it has rejected.
    [terminated] is set when Node ends the process on an unhandled
    rejection, to what could be observed at that moment. *)
Record St (W : Type) := mkSt {
  world      : W;
  files      : gmap string (list byte);
  console    : list string;
  slept      : list Z;
  launches   : list LaunchOptions;
  pending    : list (W -> bool);
  terminated : option (Frozen W)
}.
Arguments mkSt {W}.
Arguments world {W}.
Arguments files {W}.
Arguments console {W}.
Arguments slept {W}.
Arguments launches {W}.
Arguments pending {W}.
Arguments terminated {W}.

Definition M (W A : Type) : Type := St W -> (JsError + A) * St W.

Definition ret {W A} (a : A) : M W A := fun s => (inr a, s).
Definition throw {W A} (e : JsError) : M W A := fun s => (inl e, s).
Definition bind {W A B} (m : M W A) (k : A -> M W B) : M W B :=
  fun s => match m s with
           | (inr a, s1) => k a s1
           | (inl e, s1) => (inl e, s1)
           end.

(** [try { m } catch (e) { h e }] *)
Definition try_catch {W A} (m : M W A) (h : JsError -> M W A) : M W A :=
  fun s => match m s with
           | (inr a, s1) => (inr a, s1)
           | (inl e, s1) => h e s1
           end.

(** [p.catch(h)] where the handler only has effects: the error is swallowed. *)
Definition swallow {W} (m : M W unit) (h : JsError -> St W -> St W) : St W -> St W :=
  fun s => match m s with
           | (inr _, s1) => s1
           | (inl e, s1) => h e s1
           end.

Notation "'letM' x ':=' m 'in' k" := (bind m (fun x => k))
  (at level 10, x name, m at level 100, k at level 200, only parsing).

(** An operation of the environment: it sees and changes the world only. *)
Definition op (W A : Type) : Type := W -> (JsError + A) * W.

(** A promise that nothing awaits has rejected. *)
Definition unhandled {W} (s : St W) : bool :=
  existsb (fun rejected => rejected (world s)) (pending s).

Definition freeze {W} (s : St W) : Frozen W :=
  mkFrozen (world s) (files s) (console s) (slept s) (launches s).

(** What Node does each time the script is suspended on the environment:
    a rejection that has no handler ends the process.  The script has no
    handler for [unhandledRejection], so nothing it does afterwards
    happens: the computation that the model continues from a terminated
    state is not a part of the run, whose last observable state is the one
    frozen here. *)
Definition settle {W} (s : St W) : St W :=
  match terminated s with
  | Some _ => s
  | None =>
      if unhandled s
      then mkSt (world s) (files s) (console s) (slept s) (launches s) (pending s)
             (Some (freeze s))
      else s
  end.

Definition with_world {W} (w : W) (s : St W) : St W :=
  mkSt w (files s) (console s) (slept s) (launches s) (pending s) (terminated s).

Definition call {W A} (o : op W A) : M W A :=
  fun s => let (r, w) := o (world s) in (r, settle (with_world w s)).

Definition console_error {W} (line : string) (s : St W) : St W :=
  mkSt (world s) (files s) (console s ++ [line]) (slept s) (launches s)
    (pending s) (terminated s).

(** [await new Promise(resolve => setTimeout(resolve, delay))].  The world
    changes with the operations of the environment only: what happens
    while the script waits on a timer is seen at its next operation. *)
Definition sleep {W} (delay : Z) (s : St W) : St W :=
  mkSt (world s) (files s) (console s) (slept s ++ [delay]) (launches s)
    (pending s) (terminated s).

(** ** withRetry *)

Definition MAX_RETRIES : nat := 1.

(** [Math.min(1000 * Math.pow(2, attempt), 10000)] *)
Definition backoff_delay (attempt : nat) : Z :=
  Z.min (1000 * 2 ^ Z.of_nat attempt) 10000.

(** The [for] loop of [withRetry] at iteration [attempt]; [remaining] is the
    number of iterations left, [retryCount + 1 - attempt]. *)
Fixpoint withRetry_loop {W A} (actionFn : M W A) (actionName : string)
    (retryCount remaining attempt : nat) (lastError : option JsError) : M W A :=
  match remaining with
  | 0 =>
      match lastError with
      | Some e =>
          throw (Error ("All " +:+ show_nat (retryCount + 1) +:+ " attempts failed for "
                        +:+ actionName +:+ ": " +:+ message e))
      | None =>
          throw (Error "Cannot read properties of undefined (reading 'message')")
      end
  | S remaining' =>
      fun s =>
        match actionFn s with
        | (inr v, s1) => (inr v, s1)
        | (inl error, s1) =>
            let s2 := console_error
                        ("Attempt " +:+ show_nat (attempt + 1) +:+ "/"
                         +:+ show_nat (retryCount + 1) +:+ " failed for "
                         +:+ actionName +:+ ": " +:+ message error) s1 in
            let s3 := if (attempt <? retryCount)%nat
                      then sleep (backoff_delay attempt) s2 else s2 in
            withRetry_loop actionFn actionName retryCount remaining'
                           (attempt + 1) (Some error) s3
        end
  end.

Definition withRetry {W A} (actionFn : M W A) (actionName : string)
    (retryCount : nat) : M W A :=
  withRetry_loop actionFn actionName retryCount (retryCount + 1) 0 None.

(** A scripted action: the world is its call counter and
    the [i]-th call (from 0) ends as [outcome i]. *)
Definition scripted {A} (outcome : nat -> JsError + A) : M nat A :=
  fun s => (outcome (world s), with_world (S (world s)) s).

(** The state in which the script starts. *)
Definition st0 {W} (w : W) : St W := mkSt w ∅ [] [] [] [] None.

(** ** String helpers of the JavaScript runtime *)

Definition dquote : ascii := "034"%char.

(** A text between double quotes. *)
Definition quoted (s : string) : string := String dquote s +:+ String dquote "".

(** [s.startsWith(p)] and [s.includes(p)] *)
Fixpoint startsWith (p s : string) : bool :=
  match p, s with
  | EmptyString, _ => true
  | String a p', String b s' => Ascii.eqb a b && startsWith p' s'
  | String _ _, EmptyString => false
  end.

Fixpoint includes (p s : string) : bool :=
  startsWith p s ||
  match s with
  | EmptyString => false
  | String _ s' => includes p s'
  end.

(** [s.replace(/[class]/g, f)] for a replacement computed from the matched
    character. *)
Fixpoint replace_class (class : ascii -> bool) (f : ascii -> string) (s : string) : string :=
  match s with
  | EmptyString => EmptyString
  | String c s' =>
      (if class c then f c else String c EmptyString) +:+ replace_class class f s'
  end.

Definition char_in (cs : string) (c : ascii) : bool :=
  existsb (Ascii.eqb c) (list_ascii_of_string cs).

(** Every character of a string satisfies a test. *)
Fixpoint all_chars (P : ascii -> bool) (s : string) : bool :=
  match s with
  | EmptyString => true
  | String c s' => P c && all_chars P s'
  end.

(** The character class of line 38: slash, backslash, colon, star, question
    mark, double quote, less-than, greater-than and bar. *)
Definition illegal_in_filename (c : ascii) : bool :=
  char_in ("/\:*?<>|" +:+ String dquote EmptyString) c.

(** [title.replace(/[...]/g, '_')] over that class. *)
Definition sanitizeTitle (title : string) : string :=
  replace_class illegal_in_filename (fun _ => "_") title.

(** The class [[.*+?^${}()|[\]\\]] of the headless locator. *)
Definition regex_special (c : ascii) : bool := char_in ".*+?^${}()|[]\" c.

(** [s.replace(/[.*+?^${}()|[\]\\]/g, '\\$&')] *)
Definition escapeRegExp (s : string) : string :=
  replace_class regex_special (fun c => String "\" (String c EmptyString)) s.

(** [path.join(dir, name)] for a [name] that is a single path segment other
    than [.] and [..]: nothing is left to normalise (POSIX separator). *)
Definition path_join (dir name : string) : string := dir +:+ "/" +:+ name.

(** ** Regular expressions: the fragment used by the headless locator

    A pattern source is parsed into a sequence of items, each an atom or an
    atom under [+].  Matching follows the backtracking semantics of
    ECMAScript with the [i] flag: leftmost start, greedy [+]. *)

Inductive atom :=
| Lit (c : ascii)              (* a pattern character, or an identity escape *)
| AnyChar                      (* [.] *)
| NotChars (cs : list ascii).  (* a negated class of plain characters *)

Inductive item :=
| One (a : atom)
| Plus (a : atom).

(** Canonicalisation under the [i] flag, for the characters of ASCII: a
    pattern character in ASCII matches the ASCII characters that differ
    from it by case at most, and no other.  (The flag also folds letters
    outside ASCII, which this definition leaves alone: it describes the
    script for patterns in ASCII.) *)
Definition canon (c : ascii) : ascii :=
  let n := nat_of_ascii c in
  if (97 <=? n)%nat && (n <=? 122)%nat then ascii_of_nat (n - 32) else c.

Definition atom_matches (a : atom) (x : ascii) : bool :=
  match a with
  | Lit c => Ascii.eqb (canon c) (canon x)
  | AnyChar => negb (Ascii.eqb x "010"%char || Ascii.eqb x "013"%char)
  | NotChars cs => negb (existsb (fun c => Ascii.eqb (canon c) (canon x)) cs)
  end.

(** A syntax character of the pattern grammar. *)
Definition syntax_char (c : ascii) : bool := char_in "^$\.*+?()[]{}|" c.

(** The characters of a class body up to the closing bracket, and the rest. *)
Fixpoint parse_class_body (s : string) : option (list ascii * string) :=
  match s with
  | EmptyString => None
  | String c s' =>
      if Ascii.eqb c "]"%char then Some ([], s')
      else if Ascii.eqb c "\"%char then None
      else match parse_class_body s' with
           | Some (cs, rest) => Some (c :: cs, rest)
           | None => None
           end
  end.

(** [s] without its first character when that is [c]. *)
Definition strip_char (c : ascii) (s : string) : option string :=
  match s with
  | String x s' => if Ascii.eqb x c then Some s' else None
  | EmptyString => None
  end.

(** One atom at the head of the pattern source. *)
Definition parse_atom (s : string) : option (atom * string) :=
  match s with
  | EmptyString => None
  | String c s' =>
      if Ascii.eqb c "\"%char then
        match s' with
        | String d s'' => if syntax_char d then Some (Lit d, s'') else None
        | EmptyString => None
        end
      else if Ascii.eqb c "."%char then Some (AnyChar, s')
      else if Ascii.eqb c "["%char then
        match strip_char "^"%char s' with
        | Some body =>
            match parse_class_body body with
            | Some (cs, rest) => Some (NotChars cs, rest)
            | None => None
            end
        | None => None
        end
      else if syntax_char c then None
      else Some (Lit c, s')
  end.

(** The items of a pattern source up to the closing parenthesis of the
    group; [fuel] bounds the number of items by the length of the source. *)
Fixpoint parse_items (fuel : nat) (s : string) : option (list item) :=
  match fuel with
  | 0 => None
  | S fuel' =>
      if String.eqb s ")" then Some []
      else
        match parse_atom s with
        | None => None
        | Some (a, rest) =>
            match strip_char "+"%char rest with
            | Some rest' => option_map (cons (Plus a)) (parse_items fuel' rest')
            | None => option_map (cons (One a)) (parse_items fuel' rest)
            end
        end
  end.

(** [new RegExp(source, 'i')] for a source that is one capture group. *)
Definition parse_regex (source : string) : option (list item) :=
  match strip_char "("%char source with
  | Some body => parse_items (String.length source) body
  | None => None
  end.

(** An atom under [+] followed by the continuation [k]: one character is
    taken, then as many more as possible; when the rest of the pattern fails
    after the longest run, the run is given back one character at a time. *)
Fixpoint plus_loop (a : atom) (k : string -> option string) (s : string) : option string :=
  match s with
  | String x s' =>
      if atom_matches a x then
        match plus_loop a k s' with
        | Some m => Some (String x m)
        | None => option_map (String x) (k s')
        end
      else None
  | EmptyString => None
  end.

(** A match of the items at the very start of [s]: the matched text. *)
Fixpoint match_here (its : list item) (s : string) : option string :=
  match its with
  | [] => Some EmptyString
  | One a :: rest =>
      match s with
      | String x s' =>
          if atom_matches a x then option_map (String x) (match_here rest s') else None
      | EmptyString => None
      end
  | Plus a :: rest => plus_loop a (match_here rest) s
  end.

(** [s.match(re)] for a regular expression without the [g] flag: the match
    at the leftmost position that has one. *)
Fixpoint regex_search (its : list item) (s : string) : option string :=
  match match_here its s with
  | Some m => Some m
  | None =>
      match s with
      | EmptyString => None
      | String _ s' => regex_search its s'
      end
  end.

(** The source handed to [new RegExp] at lines 152-154. *)
Definition pdfLinkSource (escapedProductName escapedProductVersion : string) : string :=
  "(https://docs\.redhat\.com/en/documentation/" +:+ escapedProductName +:+ "/"
  +:+ escapedProductVersion +:+ "/pdf/[^" +:+ String dquote "]+\.pdf)".

(** Lines 149-162, after [pageContent] has been read. *)
Definition matchPdfLink (pageContent productName productVersion title : string)
    : JsError + string :=
  let escapedProductName := escapeRegExp productName in
  let escapedProductVersion := escapeRegExp productVersion in
  match parse_regex (pdfLinkSource escapedProductName escapedProductVersion) with
  | None => inl (Error "Invalid regular expression")
  | Some pdfLinkRegex =>
      match regex_search pdfLinkRegex pageContent with
      | Some (String c u) => inr (String c u)
      | _ => inl (Error ("Regex failed to find specific PDF link for " +:+ title +:+ "."))
      end
  end.

(** ** The environment *)

Definition Browser := nat.
Definition Context := nat.
Definition Page := nat.

(** A book tile of the listing page. *)
Record Book := { title : string; url : string }.

(** How an [https.get] ends: the call itself throws (the URL is invalid or
    its protocol is not [https:]), an [error] event on the request, or a
    response with its status code, the chunks delivered by [data] events and
    the event that closes the body. *)
Inductive HttpBody :=
| BodyEnd
| BodyError (err : JsError).

Inductive HttpOutcome :=
| GetThrows (err : JsError)
| RequestError (err : JsError)
| Response (statusCode : Z) (chunks : list (list byte)) (fin : HttpBody).

(** A promise returned by [context.waitForEvent]. *)
Definition Promise := nat.

(** [https.get] parses its argument as a URL and throws unless the protocol
    is [https:].  The parser drops leading white space and control
    characters, and tabs and line breaks everywhere, and reads the scheme
    up to the case of letters; a URL whose characters above the space do
    not start with [https:] therefore makes the call throw. *)
Definition is_graphic (c : ascii) : bool := (32 <? nat_of_ascii c)%nat.

Fixpoint graphic (s : string) : string :=
  match s with
  | EmptyString => EmptyString
  | String c s' => if is_graphic c then String c (graphic s') else graphic s'
  end.

Definition may_be_https (url : string) : bool :=
  match graphic url with
  | String c1 (String c2 (String c3 (String c4 (String c5 (String c6 _))))) =>
      char_in "hH" c1 && char_in "tT" c2 && char_in "tT" c3 && char_in "pP" c4
      && char_in "sS" c5 && Ascii.eqb c6 ":"%char
  | _ => false
  end.

(** The format of [console.error(format, argument)] has no [%]. *)
Definition plain_format (fmt : string) : bool :=
  all_chars (fun c => negb (Ascii.eqb c "%"%char)) fmt.

Record Env (W : Type) := {
  chromium_launch : LaunchOptions -> op W Browser;
  browser_newContext : Browser -> op W Context;
  browser_close : Browser -> op W unit;
  context_addCookies : Context -> op W unit;
  context_newPage : Context -> op W Page;
  context_waitForEvent_page : Context -> W -> Promise * W;
  promise_rejected : Promise -> W -> bool;
  promise_await : Promise -> op W Page;
  context_close : Context -> op W unit;
  page_goto : Page -> string -> op W unit;
  page_waitForSelector : Page -> string -> op W unit;
  page_evaluate_tiles : Page -> op W (list Book);
  page_content : Page -> op W string;
  page_selectOption : Page -> string -> string -> op W unit;
  page_waitForURL_pdf : Page -> op W unit;
  page_waitForLoadState : Page -> op W unit;
  page_url : Page -> W -> string;
  page_isClosed : Page -> W -> bool;
  page_close : Page -> op W unit;
  https_get : string -> W -> HttpOutcome * W;
  fs_mkdir : string -> op W unit;
  fs_writeFile : string -> list byte -> op W unit;
  util_format : string -> string -> string;
  https_get_protocol :
    ∀ url w, may_be_https url = false → ∃ err, fst (https_get url w) = GetThrows err;
  util_format_plain :
    ∀ fmt arg, plain_format fmt = true → util_format fmt arg = fmt +:+ " " +:+ arg
}.
Arguments chromium_launch {W}.
Arguments browser_newContext {W}.
Arguments browser_close {W}.
Arguments context_addCookies {W}.
Arguments context_newPage {W}.
Arguments context_waitForEvent_page {W}.
Arguments promise_rejected {W}.
Arguments promise_await {W}.
Arguments context_close {W}.
Arguments page_goto {W}.
Arguments page_waitForSelector {W}.
Arguments page_evaluate_tiles {W}.
Arguments page_content {W}.
Arguments page_selectOption {W}.
Arguments page_waitForURL_pdf {W}.
Arguments page_waitForLoadState {W}.
Arguments page_url {W}.
Arguments page_isClosed {W}.
Arguments page_close {W}.
Arguments https_get {W}.
Arguments fs_mkdir {W}.
Arguments fs_writeFile {W}.
Arguments util_format {W}.
Arguments https_get_protocol {W}.
Arguments util_format_plain {W}.

(** One entry of [downloadResults].  The success record has no [error] and
    no [criticalError] property. *)
Record BookResult := {
  entry : Book;
  pdfUrl : option string;
  downloadPath : option string;
  success : bool;
  error : option string;
  criticalError : option bool
}.

(** The variables [browser] and [context] of [scrapeAndDownloadDocs]. *)
Record Session := { browser : option Browser; context : option Context }.

(** The variables [bookPage] and [newPageForPdf] of one loop iteration. *)
Record Locals := { bookPage : option Page; newPageForPdf : option Page }.

Section Script.
Context {W : Type} (env : Env W).

(** [await fs.writeFile(path, data)]: the file appears when the call
    succeeds. *)
Definition writeFile (path : string) (data : list byte) : M W unit :=
  fun s =>
    match fs_writeFile env path data (world s) with
    | (inr _, w) =>
        (inr tt, settle (mkSt w (<[path := data]> (files s)) (console s) (slept s)
                           (launches s) (pending s) (terminated s)))
    | (inl e, w) => (inl e, settle (with_world w s))
    end.

(** ** downloadPdf

    The promise of lines 41-71 settles once; the computation returns how.
    When [https.get] itself throws, inside the executor of the promise, the
    promise rejects with what was thrown, as it is.  The emptiness test
    rejects and returns, so it is outside the reach of the [catch] of line
    65, which wraps what [mkdir] and [writeFile] throw. *)
Definition downloadPdf (url title : string) : M W string :=
  let sanitizedTitle := sanitizeTitle title in
  let filePath := path_join "downloads" (sanitizedTitle +:+ ".pdf") in
  fun s =>
    let (res, w) := https_get env url (world s) in
    let s1 := settle (with_world w s) in
    match res with
    | GetThrows err => (inl err, s1)
    | RequestError err =>
        (inl (Error ("HTTPS error for PDF " +:+ title +:+ ": " +:+ message err)), s1)
    | Response statusCode chunks fin =>
        if negb (statusCode =? 200)%Z then
          (inl (Error ("Failed to download PDF. Status code: " +:+ show_Z statusCode
                       +:+ " for " +:+ url)), s1)
        else
          match fin with
          | BodyError err =>
              (inl (Error ("HTTPS request error for PDF " +:+ title +:+ ": "
                           +:+ message err)), s1)
          | BodyEnd =>
              let buffer := concat chunks in
              if (length buffer =? 0)%nat then
                (inl (Error ("Downloaded PDF for " +:+ title +:+ " is empty.")), s1)
              else
                try_catch
                  (letM _ := try_catch (call (fs_mkdir env "downloads"))
                               (fun err => if decide (code err = Some "EEXIST")
                                           then ret tt else throw err) in
                   letM _ := writeFile filePath buffer in
                   ret filePath)
                  (fun error =>
                     throw (Error ("Error writing PDF file for " +:+ title +:+ ": "
                                   +:+ message error)))
                  s1
          end
    end.

(** ** scrapeAndDownloadDocs *)

(** Lines 84-88. *)
Definition launchOptions (runHeadless : bool) : LaunchOptions :=
  {| headless := runHeadless;
     slowMo := if negb runHeadless then Some 1000%Z else None |}.

(** Lines 146-162. *)
Definition locateHeadless (page : Page) (productName productVersion : string)
    (book : Book) : M W string :=
  letM pageContent := call (page_content env page) in
  match matchPdfLink pageContent productName productVersion (title book) with
  | inr pdfUrl => ret pdfUrl
  | inl e =>
      fun s => (inl e, console_error ("Could not find PDF link via regex for "
                                      +:+ title book +:+ ".") s)
  end.

(** A computation inside the [try] block of one iteration: besides the
    state it leaves the locals as last assigned, which the [catch] and
    [finally] blocks read, and either the error thrown or a value. *)
Definition Try (A : Type) : Type := St W -> (Locals * (JsError + A)) * St W.

(** Run [m] while the locals are [l], then continue. *)
Definition step {A B} (l : Locals) (m : M W A) (k : A -> Try B) : Try B :=
  fun s => match m s with
           | (inr a, s1) => k a s1
           | (inl e, s1) => ((l, inl e), s1)
           end.

Definition seqTry {A B} (t : Try A) (k : Locals -> A -> Try B) : Try B :=
  fun s => match t s with
           | ((l, inr a), s1) => k l a s1
           | ((l, inl e), s1) => ((l, inl e), s1)
           end.

Definition finish {A} (l : Locals) (a : A) : Try A := fun s => ((l, inr a), s).

(** [context.newPage()] on a variable that may hold [null]. *)
Definition newPage_on (context : option Context) : M W Page :=
  match context with
  | Some c => call (context_newPage env c)
  | None => throw (Error "Cannot read properties of null (reading 'newPage')")
  end.

(** Line 174, [context.waitForEvent('page', ...)] on a variable that may
    hold [null]: the promise is created and nothing awaits it yet. *)
Definition waitForEvent_on (context : option Context) : M W Promise :=
  match context with
  | Some c =>
      fun s =>
        let (newPagePromise, w) := context_waitForEvent_page env c (world s) in
        (inr newPagePromise,
         mkSt w (files s) (console s) (slept s) (launches s)
           (promise_rejected env newPagePromise :: pending s) (terminated s))
  | None => throw (Error "Cannot read properties of null (reading 'waitForEvent')")
  end.

(** Line 183, [await newPagePromise]: from here on the promise of line 174,
    the latest one created, has a handler. *)
Definition awaitPage (newPagePromise : Promise) : M W Page :=
  fun s =>
    call (promise_await env newPagePromise)
      (mkSt (world s) (files s) (console s) (slept s) (launches s)
         (tail (pending s)) (terminated s)).

(** Lines 146-162: the headless branch. *)
Definition headlessBranch (productName productVersion : string) (book : Book)
    (page : Page) : Try string :=
  let l1 := {| bookPage := Some page; newPageForPdf := None |} in
  step l1 (locateHeadless page productName productVersion book) (finish l1).

(** The inner [try]/[catch] of lines 172-210: the error is logged and
    thrown again. *)
Definition logRethrow {A} (book : Book) (t : Try A) : Try A :=
  fun s => match t s with
           | ((l, inl uiPdfError), s1) =>
               ((l, inl uiPdfError),
                console_error ("Error during UI PDF interaction for "
                               +:+ title book +:+ ": " +:+ message uiPdfError) s1)
           | ((l, inr v), s1) => ((l, inr v), s1)
           end.

(** Lines 164-211: the headed branch.  When selecting the format throws,
    the promise of line 174 is left without a handler for good. *)
Definition headedBranch (sess : Session) (book : Book) (page : Page) : Try string :=
  let l1 := {| bookPage := Some page; newPageForPdf := None |} in
  step l1 (withRetry (call (page_waitForSelector env page "#page-format"))
             ("waiting for format dropdown on " +:+ title book +:+ " page")
             MAX_RETRIES) (fun _ =>
  logRethrow book
    (step l1 (waitForEvent_on (context sess)) (fun newPagePromise =>
     step l1 (withRetry (call (page_selectOption env page "#page-format" "pdf"))
                ("selecting PDF format for " +:+ title book) MAX_RETRIES) (fun _ =>
     step l1 (awaitPage newPagePromise) (fun pdfPage =>
     let l2 := {| bookPage := Some page; newPageForPdf := Some pdfPage |} in
     step l2 (withRetry (call (page_waitForURL_pdf env pdfPage))
                ("waiting for new page to reach PDF URL for " +:+ title book)
                MAX_RETRIES) (fun _ s =>
     let pdfUrl := page_url env pdfPage (world s) in
     step l2 (withRetry (call (page_waitForLoadState env pdfPage))
                ("waiting for PDF content 'load' state for " +:+ title book)
                MAX_RETRIES) (fun _ => finish l2 pdfUrl) s)))))).

(** Lines 213-223: the common download; it yields [pdfUrl] and
    [downloadPath]. *)
Definition commonDownload (productName productVersion : string) (book : Book)
    (l : Locals) (pdfUrl : string) : Try (string * string) :=
  match pdfUrl with
  | EmptyString =>
      fun s => ((l, inl (Error ("No PDF URL could be determined for "
                                +:+ title book +:+ "."))), s)
  | _ =>
      let downloadTitle := productName +:+ "-" +:+ productVersion +:+ "-" +:+ title book in
      step l (withRetry (downloadPdf pdfUrl downloadTitle)
                ("downloading PDF for " +:+ title book) MAX_RETRIES)
        (fun downloadPath => finish l (pdfUrl, downloadPath))
  end.

(** The [try] block of one iteration, lines 138-224, up to the push. *)
Definition tryBlock (runHeadless : bool) (productName productVersion : string)
    (sess : Session) (book : Book) : Try (string * string) :=
  let l0 := {| bookPage := None; newPageForPdf := None |} in
  step l0 (newPage_on (context sess)) (fun page =>
  let l1 := {| bookPage := Some page; newPageForPdf := None |} in
  step l1 (withRetry (call (page_goto env page (url book)))
             ("navigation to " +:+ title book +:+ " HTML page") MAX_RETRIES) (fun _ =>
  seqTry (if runHeadless
          then headlessBranch productName productVersion book page
          else headedBranch sess book page)
    (commonDownload productName productVersion book))).

Definition criticalErrorPatterns : list string :=
  ["Object with guid"; "not bound in the connection"; "has been closed";
   "Target closed"; "Navigation failed"; "context has been destroyed"].

Definition isCritical (msg : string) : bool :=
  existsb (fun pattern => includes pattern msg) criticalErrorPatterns.

(** [if (p && !p.isClosed()) await p.close().catch(e => console.warn(w, e.message))] *)
Definition closePage (p : option Page) (warning : string) (s : St W) : St W :=
  match p with
  | Some pg =>
      if negb (page_isClosed env pg (world s))
      then swallow (call (page_close env pg))
             (fun e => console_error (warning +:+ " " +:+ message e)) s
      else s
  | None => s
  end.

(** The [catch] block of one iteration, lines 226-242.  Line 227 hands the
    title to [console.error] inside the format and the message as the
    argument to format. *)
Definition catchBlock (sess : Session) (l : Locals) (book : Book) (err : JsError)
    (s : St W) : (Session * BookResult) * St W :=
  let s1 := console_error
              (util_format env ("Error processing " +:+ title book +:+ ":") (message err))
              s in
  let isCriticalError := isCritical (message err) in
  let failure :=
    {| entry := book; pdfUrl := None; downloadPath := None; success := false;
       error := Some (message err); criticalError := Some isCriticalError |} in
  match isCriticalError, browser sess with
  | true, Some b =>
      let s2 := console_error
                  "CRITICAL ERROR DETECTED. Scheduling browser restart for next iteration..."
                  s1 in
      let s3 := closePage (bookPage l)
                  "Failed to close bookPage during critical error handling:" s2 in
      let s4 := closePage (newPageForPdf l)
                  "Failed to close newPageForPdf during critical error handling:" s3 in
      let s5 := match context sess with
                | Some c =>
                    swallow (call (context_close env c))
                      (fun e => console_error
                         ("Failed to close context during critical error handling: "
                          +:+ message e)) s4
                | None => s4
                end in
      let s6 := swallow (call (browser_close env b))
                  (fun e => console_error
                     ("Failed to close browser during critical error handling: "
                      +:+ message e)) s5 in
      (({| browser := None; context := None |}, failure), s6)
  | _, _ => ((sess, failure), s1)
  end.

(** The [finally] block of one iteration, lines 243-250. *)
Definition finallyBlock (l : Locals) (book : Book) (s : St W) : St W :=
  let s1 := closePage (bookPage l)
              ("Could not close bookPage for " +:+ title book +:+ " in finally:") s in
  closePage (newPageForPdf l)
    ("Could not close newPageForPdf for " +:+ title book +:+ " in finally:") s1.

(** One iteration of the loop, lines 129-254: the session variables as the
    iteration leaves them and the record it pushes. *)
Definition processBook (runHeadless : bool) (productName productVersion : string)
    (sess : Session) (book : Book) (s : St W) : (Session * BookResult) * St W :=
  let '((l, r), s1) := tryBlock runHeadless productName productVersion sess book s in
  let '((sess', result), s2) :=
    match r with
    | inr (pdfUrl, downloadPath) =>
        ((sess, {| entry := book; pdfUrl := Some pdfUrl;
                   downloadPath := Some downloadPath; success := true;
                   error := None; criticalError := None |}), s1)
    | inl err => catchBlock sess l book err s1
    end in
  let s3 := finallyBlock l book s2 in
  let s4 := if negb runHeadless then sleep 1000 s3 else s3 in
  ((sess', result), s4).

(** The loop of lines 128-255 from index [i], with [remaining] iterations
    left ([books.length - i]); reading [books[i]] out of range gives
    [undefined], whose [title] cannot be read.  The result carries the
    session variables as the loop leaves them, also when it throws. *)
Fixpoint processBooks_from (runHeadless : bool) (productName productVersion : string)
    (books : list Book) (remaining i : nat) (sess : Session)
    (downloadResults : list BookResult) (s : St W)
    : (Session * (JsError + list BookResult)) * St W :=
  match remaining with
  | 0 => ((sess, inr downloadResults), s)
  | S remaining' =>
      match books !! i with
      | None =>
          ((sess, inl (Error "Cannot read properties of undefined (reading 'title')")), s)
      | Some book =>
          let '((sess', result), s1) :=
            processBook runHeadless productName productVersion sess book s in
          processBooks_from runHeadless productName productVersion books
            remaining' (i + 1) sess' (downloadResults ++ [result]) s1
      end
  end.

Definition processBooks (runHeadless : bool) (productName productVersion : string)
    (books : list Book) (sess : Session) (s : St W)
    : (Session * (JsError + list BookResult)) * St W :=
  processBooks_from runHeadless productName productVersion books (length books) 0 sess [] s.

(** [await chromium.launch(launchOptions)] *)
Definition launch (opts : LaunchOptions) : M W Browser :=
  fun s =>
    let (r, w) := chromium_launch env opts (world s) in
    (r, settle (mkSt w (files s) (console s) (slept s) (launches s ++ [opts])
                  (pending s) (terminated s))).

Definition stepS {A B} (sess : Session) (m : M W A)
    (k : A -> St W -> (Session * (JsError + B)) * St W)
    : St W -> (Session * (JsError + B)) * St W :=
  fun s => match m s with
           | (inr a, s1) => k a s1
           | (inl e, s1) => ((sess, inl e), s1)
           end.

(** Lines 93-125: launch, context, cookies and the scan of the listing. *)
Definition setup (targetUrl productName productVersion : string) (runHeadless : bool)
    : St W -> (Session * (JsError + list Book)) * St W :=
  let sess0 := {| browser := None; context := None |} in
  stepS sess0 (launch (launchOptions runHeadless)) (fun b =>
  let sess1 := {| browser := Some b; context := None |} in
  stepS sess1 (call (browser_newContext env b)) (fun c =>
  let sess2 := {| browser := Some b; context := Some c |} in
  stepS sess2 (call (context_addCookies env c)) (fun _ =>
  stepS sess2 (call (context_newPage env c)) (fun mainProductPage =>
  stepS sess2 (withRetry (call (page_goto env mainProductPage targetUrl))
                 ("navigation to main documentation page for " +:+ productName
                  +:+ " " +:+ productVersion) MAX_RETRIES) (fun _ =>
  stepS sess2 (withRetry (call (page_waitForSelector env mainProductPage "rh-tile"))
                 "waiting for documentation tiles to load" MAX_RETRIES) (fun _ =>
  stepS sess2 (call (page_evaluate_tiles env mainProductPage)) (fun books =>
  stepS sess2 (call (page_close env mainProductPage)) (fun _ s =>
  ((sess2, inr books), s))))))))).

Definition is_alnum (c : ascii) : bool :=
  let n := nat_of_ascii c in
  ((48 <=? n) && (n <=? 57) || (65 <=? n) && (n <=? 90) || (97 <=? n) && (n <=? 122))%nat.

(** Line 258, for a product name and version in ASCII: one underscore for
    each character that is replaced. *)
Definition resultsFilename (productName productVersion : string) : string :=
  replace_class (fun c => negb (is_alnum c)) (fun _ => "_") productName +:+ "-"
  +:+ replace_class (fun c => negb (is_alnum c || Ascii.eqb c "."%char)) (fun _ => "_")
        productVersion
  +:+ "-download-results.json".

(** [JSON.stringify(downloadResults, null, 2)], as bytes. *)
Variable JSON_stringify : list BookResult -> list byte.

(** Lines 258-264; the tally of lines 266-281 only prints. *)
Definition saveResults (productName productVersion : string)
    (downloadResults : list BookResult) (s : St W) : St W :=
  swallow (writeFile (resultsFilename productName productVersion)
             (JSON_stringify downloadResults))
    (fun fileError => console_error ("Error saving results file: " +:+ message fileError)) s.

(** The outer [finally], lines 287-297. *)
Definition outerFinally (sess : Session) (s : St W) : St W :=
  match browser sess with
  | Some b =>
      swallow (call (browser_close env b))
        (fun closeError =>
           console_error ("Error closing browser in outer finally: "
                          +:+ message closeError)) s
  | None => s
  end.

(** The outer [catch], lines 284-286. *)
Definition outerCatch (outerError : JsError) (s : St W) : St W :=
  console_error ("A critical error occurred (e.g., browser launch failed): "
                 +:+ message outerError) s.

(** The whole of [scrapeAndDownloadDocs].  The function returns nothing; the
    model returns the ledger [downloadResults] when the process has reached
    the end of the loop, line 255. *)
Definition scrapeAndDownloadDocs (targetUrl productName productVersion : string)
    (runHeadless : bool) (s : St W) : option (list BookResult) * St W :=
  let '((sess, ledger), s2) :=
    match setup targetUrl productName productVersion runHeadless s with
    | ((sess, inl outerError), s1) => ((sess, None), outerCatch outerError s1)
    | ((sess, inr books), s1) =>
        match processBooks runHeadless productName productVersion books sess s1 with
        | ((sess', inl outerError), s2) => ((sess', None), outerCatch outerError s2)
        | ((sess', inr downloadResults), s2) =>
            ((sess', match terminated s2 with
                     | Some _ => None
                     | None => Some downloadResults
                     end),
             saveResults productName productVersion downloadResults s2)
        end
    end in
  (ledger, outerFinally sess s2).

End Script.
Arguments Try : clear implicits.

(** ** A small concrete environment

    The world is a counter of calls made so far.  The listing has the given
    books and every book page the given markup ([markup0] in [env0]); pages
    are numbered; navigation to a URL that contains [closed] fails with a
    message of the browser driver; every PDF is the three bytes [abc],
    except under a URL that contains [missing], which answers 404, or
    [empty], which answers 200 with no byte, and [https.get] throws on a URL
    that does not start with [https:] (the error of the protocol for
    [http:], that of an invalid URL otherwise).  In [env_gen], selecting
    the format throws [selectError] when one is given, and a promise of
    [context.waitForEvent] rejects once [patience] further calls have been
    made, when a patience is given; in [env_with] selecting succeeds and no
    promise rejects. *)

Definition tick {A} (r : JsError + A) : op nat A := fun w => (r, S w).

Definition books0 : list Book :=
  [ {| title := "Install: Guide"; url := "https://docs.redhat.com/b/closed" |};
    {| title := "Admin"; url := "https://docs.redhat.com/b/admin" |} ].

Definition markup0 : string :=
  "<a href=" +:+ String dquote
    "https://docs.redhat.com/en/documentation/prod/1.0/pdf/admin/prod-1.0-admin.pdf"
  +:+ String dquote ">PDF</a>".

(** What [https.get] throws for the protocol [http:], and for a text that
    is not a URL. *)
Definition invalid_protocol : JsError :=
  {| message := "Protocol " +:+ quoted "http:" +:+ " not supported. Expected "
                +:+ quoted "https:";
     code := Some "ERR_INVALID_PROTOCOL" |}.

Definition invalid_url : JsError :=
  {| message := "Invalid URL"; code := Some "ERR_INVALID_URL" |}.

(** [util.format(fmt, arg)] for a string argument, with the specifiers [%s]
    (the argument) and [%c] (nothing), which use the argument, and the
    escape [%%]; the specifiers that convert the argument to a number or
    render it as an object are not implemented here and are left as
    written.  An argument that no specifier has used is appended after a
    space. *)
Fixpoint format_from (fmt arg : string) (used : bool) : string :=
  match fmt with
  | String c rest =>
      if Ascii.eqb c "%"%char then
        match rest with
        | String d rest' =>
            if Ascii.eqb d "s"%char && negb used then arg +:+ format_from rest' arg true
            else if Ascii.eqb d "c"%char && negb used then format_from rest' arg true
            else if Ascii.eqb d "%"%char then String "%" (format_from rest' arg used)
            else String c (format_from rest arg used)
        | EmptyString => String c (format_from rest arg used)
        end
      else String c (format_from rest arg used)
  | EmptyString => if used then EmptyString else " " +:+ arg
  end.

Definition env_gen (markup : string) (books : list Book)
    (selectError : option string) (patience : option nat) : Env nat := {|
  chromium_launch := fun _ => tick (inr 1);
  browser_newContext := fun _ => tick (inr 1);
  browser_close := fun _ => tick (inr tt);
  context_addCookies := fun _ => tick (inr tt);
  context_newPage := fun _ w => (inr w, S w);
  context_waitForEvent_page := fun _ w => (w, w);
  promise_rejected := fun newPagePromise w =>
    match patience with
    | Some n => newPagePromise + n <=? w
    | None => false
    end;
  promise_await := fun _ w => (inr w, S w);
  context_close := fun _ => tick (inr tt);
  page_goto := fun _ u =>
    tick (if includes "closed" u
          then inl (Error "page.goto: Target closed")
          else inr tt);
  page_waitForSelector := fun _ _ => tick (inr tt);
  page_evaluate_tiles := fun _ => tick (inr books);
  page_content := fun _ => tick (inr markup);
  page_selectOption := fun _ _ _ =>
    tick (match selectError with
          | Some msg => inl (Error msg)
          | None => inr tt
          end);
  page_waitForURL_pdf := fun _ => tick (inr tt);
  page_waitForLoadState := fun _ => tick (inr tt);
  page_url := fun _ _ =>
    "https://docs.redhat.com/en/documentation/prod/1.0/pdf/admin/prod-1.0-admin.pdf";
  page_isClosed := fun _ _ => false;
  page_close := fun _ => tick (inr tt);
  https_get := fun u w =>
    (if negb (may_be_https u)
     then GetThrows (if startsWith "http:" u then invalid_protocol else invalid_url)
     else if includes "missing" u then Response 404 [] BodyEnd
     else if includes "empty" u then Response 200 [[]; []] BodyEnd
     else Response 200 [[x61; x62]; [x63]] BodyEnd, S w);
  fs_mkdir := fun _ => tick (inr tt);
  fs_writeFile := fun _ _ => tick (inr tt);
  util_format := fun fmt arg => format_from fmt arg false;
  https_get_protocol := ltac:(intros u w H; cbn; rewrite H; eauto);
  util_format_plain := ltac:(
    intros fmt arg; cbn; induction fmt as [|c fmt IH]; cbn; intros H;
    [ reflexivity
    | destruct (Ascii.eqb c "%"%char); [discriminate | rewrite (IH H); reflexivity] ])
|}.

Definition env_with (markup : string) (books : list Book) : Env nat :=
  env_gen markup books None None.

Definition env0 (books : list Book) : Env nat := env_with markup0 books.

(** ** Statements about runs *)

(** A file that exists with at least one byte. *)
Definition nonempty_at (fs : gmap string (list byte)) (path : string) : Prop :=
  ∃ data, fs !! path = Some data ∧ data ≠ [].

(** What every step of the book loop guarantees about the state it leaves:
    no browser was launched and no non-empty file was emptied or removed. *)
Definition ext {W} (s s' : St W) : Prop :=
  launches s' = launches s ∧ ∀ path, nonempty_at (files s) path → nonempty_at (files s') path.

Definition Pres {W X} (f : St W -> X * St W) : Prop := ∀ s, ext s (snd (f s)).
Definition PresS {W} (g : St W -> St W) : Prop := ∀ s, ext s (g s).

(** The book loop as a recursion over the list of books still to process. *)
Fixpoint run_books {W} (env : Env W) (runHeadless : bool)
    (productName productVersion : string) (books : list Book) (sess : Session)
    (s : St W) : (Session * list BookResult) * St W :=
  match books with
  | [] => ((sess, []), s)
  | book :: rest =>
      let '((sess1, result), s1) :=
        processBook env runHeadless productName productVersion sess book s in
      let '((sess2, results), s2) :=
        run_books env runHeadless productName productVersion rest sess1 s1 in
      ((sess2, result :: results), s2)
  end.

(** The backoff delays waited before attempts [1..m]. *)
Definition backoff_schedule (m : nat) : list Z := map backoff_delay (seq 0 m).

Definition sumZ (l : list Z) : Z := fold_right Z.add 0%Z l.

(** Where the PDF of a book is written (lines 38-39 applied to the title of
    line 219). *)
Definition download_path (productName productVersion : string) (book : Book) : string :=
  path_join "downloads"
    (sanitizeTitle (productName +:+ "-" +:+ productVersion +:+ "-" +:+ title book)
     +:+ ".pdf").

(** The message of reading [newPage] from [null] (line 139). *)
Definition null_newPage : string := "Cannot read properties of null (reading 'newPage')".

Definition not_slash (c : ascii) : bool := negb (Ascii.eqb c "/"%char).

(** The two shapes of a ledger record, relative to the files present. *)
Definition result_wf (productName productVersion : string)
    (fs : gmap string (list byte)) (r : BookResult) : Prop :=
  (success r = true ∧ (∃ u, pdfUrl r = Some u)
   ∧ downloadPath r = Some (download_path productName productVersion (entry r))
   ∧ nonempty_at fs (download_path productName productVersion (entry r)))
  ∨ (success r = false ∧ pdfUrl r = None ∧ downloadPath r = None).

(** The characters replaced in a file name. *)
Definition forbidden : list ascii :=
  ["/"; "\"; ":"; "*"; "?"; dquote; "<"; ">"; "|"]%char.

(** The record of a book processed after the session variables were set to
    [null]. *)
Definition null_failure (book : Book) : BookResult :=
  {| entry := book; pdfUrl := None; downloadPath := None; success := false;
     error := Some null_newPage; criticalError := Some false |}.

Definition dead : Session := {| browser := None; context := None |}.

(** *** The pattern of the headless locator, declaratively *)

(** The items that match the characters of [s] one by one. *)
Fixpoint lits (s : string) : list item :=
  match s with
  | EmptyString => []
  | String c s' => One (Lit c) :: lits s'
  end.

Definition pdfLinkPrefix (productName productVersion : string) : string :=
  "https://docs.redhat.com/en/documentation/" +:+ productName +:+ "/"
  +:+ productVersion +:+ "/pdf/".

Definition pdfLinkItems (productName productVersion : string) : list item :=
  lits (pdfLinkPrefix productName productVersion)
  ++ Plus (NotChars [dquote]) :: lits ".pdf".

(** Equality of two strings up to the case of ASCII letters. *)
Fixpoint ci_eqb (a b : string) : bool :=
  match a, b with
  | EmptyString, EmptyString => true
  | String x a', String y b' => Ascii.eqb (canon x) (canon y) && ci_eqb a' b'
  | _, _ => false
  end.

Fixpoint ci_startsWith (p s : string) : bool :=
  match p, s with
  | EmptyString, _ => true
  | String a p', String b s' => Ascii.eqb (canon a) (canon b) && ci_startsWith p' s'
  | String _ _, EmptyString => false
  end.

(** The prefix [p] starts, up to case, at none of the places of [pre] in
    the text [pre +:+ rest]. *)
Fixpoint no_link_before (p pre rest : string) : bool :=
  match pre with
  | EmptyString => true
  | String _ pre' => negb (ci_startsWith p (pre +:+ rest)) && no_link_before p pre' rest
  end.

Definition not_dquote (c : ascii) : bool := negb (Ascii.eqb c dquote).

(** The shape of a PDF link: the prefix up to the case of letters, then at
    least one character, none a double quote, then [.pdf] up to case. *)
Definition pdf_link_shape (productName productVersion u : string) : Prop :=
  ∃ h mid t,
    u = h +:+ mid +:+ t
    ∧ ci_eqb (pdfLinkPrefix productName productVersion) h = true
    ∧ mid ≠ EmptyString
    ∧ all_chars not_dquote mid = true
    ∧ ci_eqb ".pdf" t = true.

Definition contains_pdf_link (productName productVersion markup : string) : Prop :=
  ∃ a u b, markup = a +:+ u +:+ b ∧ pdf_link_shape productName productVersion u.

(** The texts a sequence of items matches as a whole. *)
Fixpoint matches (its : list item) (m : string) : Prop :=
  match its with
  | [] => m = EmptyString
  | One a :: rest =>
      ∃ x m', m = String x m' ∧ atom_matches a x = true ∧ matches rest m'
  | Plus a :: rest =>
      ∃ xs m', m = xs +:+ m' ∧ xs ≠ EmptyString
               ∧ all_chars (atom_matches a) xs = true ∧ matches rest m'
  end.

(** What [escapeRegExp] writes for one character. *)
Definition escaped_char (c : ascii) : string :=
  if regex_special c then String "\" (String c EmptyString) else String c EmptyString.

(** A pattern character that no double quote matches. *)
Definition never_dquote (c : ascii) : bool := negb (Ascii.eqb (canon c) (canon dquote)).

(** The link of the claim, on the host the script is written for, and on the
    host of the claim. *)
Definition guide_url : string :=
  "https://docs.redhat.com/en/documentation/prod/1.0/pdf/guide.pdf".

Definition example_url : string :=
  "https://docs.example.com/en/documentation/prod/1.0/pdf/guide.pdf".

(** A book page that links the PDF from an attribute. *)
Definition link_markup (u : string) : string := "<a href=" +:+ quoted u +:+ ">PDF</a>".

(** A book page that links the PDF from an attribute in single quotes. *)
Definition single_quoted_markup (u : string) : string :=
  "<a href='" +:+ u +:+ "' class=" +:+ quoted "pdf" +:+ ">PDF</a>".

Definition book_guide : Book :=
  {| title := "Guide"; url := "https://docs.redhat.com/b/guide" |}.

(** The record of the book [Admin] of [books0] when its download succeeds. *)
Definition admin_success : BookResult :=
  {| entry := {| title := "Admin"; url := "https://docs.redhat.com/b/admin" |};
     pdfUrl := Some "https://docs.redhat.com/en/documentation/prod/1.0/pdf/admin/prod-1.0-admin.pdf";
     downloadPath := Some "downloads/prod-1.0-Admin.pdf";
     success := true; error := None; criticalError := None |}.

(** The book of the file-name example, and a live session. *)
Definition book_ABCD : Book :=
  {| title := "A/B:C*D"; url := "https://docs.redhat.com/b/abcd" |}.

Definition live : Session := {| browser := Some 1; context := Some 1 |}.

(** The session is headed when the browser is not run headless. *)
Definition headed (runHeadless : bool) : bool := negb runHeadless.

(** ** The tally of lines 266-281

    The counters that the [forEach] over [downloadResults] updates; the
    lines it prints are not modelled. *)

Record Tally := { successCount : nat; failCount : nat; criticalErrorCount : nat }.

Definition tally_step (t : Tally) (book : BookResult) : Tally :=
  if success book then
    {| successCount := successCount t + 1; failCount := failCount t;
       criticalErrorCount := criticalErrorCount t |}
  else
    {| successCount := successCount t; failCount := failCount t + 1;
       criticalErrorCount :=
         match criticalError book with
         | Some true => criticalErrorCount t + 1
         | _ => criticalErrorCount t
         end |}.

Definition tally (downloadResults : list BookResult) : Tally :=
  fold_left tally_step downloadResults
    {| successCount := 0; failCount := 0; criticalErrorCount := 0 |}.

(** ** The main block, lines 301-341

    The options are taken as parsed by [yargs]; [baseUrl] and [headless]
    have the defaults of lines 319 and 325. *)

Record Argv := {
  arg_productName : string;
  arg_productVersion : string;
  arg_baseUrl : string;
  arg_headless : bool
}.

Definition default_baseUrl : string := "https://docs.redhat.com/en/documentation/".

(** [s.toLowerCase()], for ASCII text: the letters [A] to [Z] change,
    every other character of ASCII stays. *)
Definition lower (c : ascii) : ascii :=
  let n := nat_of_ascii c in
  if (65 <=? n) && (n <=? 90) then ascii_of_nat (n + 32) else c.

Fixpoint toLowerCase (s : string) : string :=
  match s with
  | EmptyString => EmptyString
  | String c s' => String (lower c) (toLowerCase s')
  end.

(** The class [\s], for ASCII text: tab, line feed, vertical tab, form
    feed, carriage return and space.  (The class has further members
    outside ASCII.) *)
Definition is_space (c : ascii) : bool :=
  let n := nat_of_ascii c in
  (9 <=? n) && (n <=? 13) || (n =? 32).

(** [s.replace(/\s+/g, '_')]: every maximal run of white space becomes one
    underscore; [in_run] tells that the previous character was white space. *)
Fixpoint collapse_spaces (in_run : bool) (s : string) : string :=
  match s with
  | EmptyString => EmptyString
  | String c s' =>
      if is_space c then
        if in_run then collapse_spaces true s'
        else String "_" (collapse_spaces true s')
      else String c (collapse_spaces false s')
  end.

(** The class [[a-z0-9_]]. *)
Definition url_char (c : ascii) : bool :=
  let n := nat_of_ascii c in
  (97 <=? n) && (n <=? 122) || (48 <=? n) && (n <=? 57) || (n =? 95).

(** Line 336, for a product name in ASCII. *)
Definition urlProductName (productName : string) : string :=
  replace_class (fun c => negb (url_char c)) (fun _ => EmptyString)
    (collapse_spaces false (toLowerCase productName)).

(** [s.endsWith(p)]: [p] is one of the suffixes of [s]. *)
Fixpoint endsWith (p s : string) : bool :=
  String.eqb s p ||
  match s with
  | EmptyString => false
  | String _ s' => endsWith p s'
  end.

(** Lines 337-339, for a product name in ASCII. *)
Definition targetUrl (baseUrl productName productVersion : string) : string :=
  (if endsWith "/" baseUrl then baseUrl else baseUrl +:+ "/")
  +:+ urlProductName productName +:+ "/" +:+ productVersion.

(** Lines 331-340: the call of [scrapeAndDownloadDocs]. *)
Definition main {W} (env : Env W) (JSON_stringify : list BookResult -> list byte)
    (argv : Argv) : St W -> option (list BookResult) * St W :=
  scrapeAndDownloadDocs env JSON_stringify
    (targetUrl (arg_baseUrl argv) (arg_productName argv) (arg_productVersion argv))
    (arg_productName argv) (arg_productVersion argv) (arg_headless argv).

(** An error that some call of the action has thrown. *)
Definition thrown_by {W A} (act : M W A) (err : JsError) : Prop :=
  ∃ s0 s1, act s0 = (inl err, s1).

(** A character that may stay in a file name. *)
Definition legal_in_filename (c : ascii) : bool := negb (illegal_in_filename c).

(** A record that the tally counts as a critical error. *)
Definition flagged_critical (r : BookResult) : bool :=
  negb (success r) && match criticalError r with Some true => true | _ => false end.

(** A computation that writes no file. *)
Definition KeepsFiles {W X} (f : St W -> X * St W) : Prop :=
  ∀ s, files (snd (f s)) = files s.

(** The characters of a results file name. *)
Definition results_char (c : ascii) : bool := is_alnum c || char_in "_.-" c.

(** ** Text and the process

    The script folds case, tests for white space and counts characters by
    UTF-16 code unit; the definitions above do so by byte, which is the same
    on text that is ASCII throughout. *)
Definition ascii_text (s : string) : bool :=
  all_chars (fun c => nat_of_ascii c <? 128) s.

(** No promise waits for a handler and the process runs. *)
Definition quiet {W} (s : St W) : Prop := pending s = [] ∧ terminated s = None.

Definition Quiet {W X} (f : St W -> X * St W) : Prop := ∀ s, quiet s → quiet (snd (f s)).
Definition QuietS {W} (g : St W -> St W) : Prop := ∀ s, quiet s → quiet (g s).

(** A process that has been terminated stays so, as it was. *)
Definition Stays {W} (g : St W -> St W) : Prop :=
  ∀ s at_end, terminated s = Some at_end → terminated (g s) = Some at_end.

(** A listing of two books that can be opened. *)
Definition books1 : list Book :=
  [ {| title := "Guide"; url := "https://docs.redhat.com/b/guide" |};
    {| title := "Admin"; url := "https://docs.redhat.com/b/admin" |} ].

(** The listing URL of the product [prod], version [1.0]. *)
Definition target0 : string := "https://docs.redhat.com/en/documentation/prod/1.0".

(** The ledger of the listing [books0] when the first navigation fails
    with [Target closed]. *)
Definition ledger0 : list BookResult :=
  [ {| entry := {| title := "Install: Guide"; url := "https://docs.redhat.com/b/closed" |};
       pdfUrl := None; downloadPath := None; success := false;
       error := Some "All 2 attempts failed for navigation to Install: Guide HTML page: page.goto: Target closed";
       criticalError := Some true |};
    null_failure {| title := "Admin"; url := "https://docs.redhat.com/b/admin" |} ].

(** A headed session in which selecting the format throws [msg] and the
    promise of line 174 rejects once [patience] further calls were made. *)
Definition env_headed (msg : string) (patience : nat) : Env nat :=
  env_gen markup0 books1 (Some msg) (Some patience).


(** * Theorems *)

(** ** The end of the process changes nothing else *)

Lemma settle_world {W} (s : St W) : world (settle s) = world s.
Proof. unfold settle. destruct (terminated s); [done|]. by destruct (unhandled s). Qed.

Lemma settle_files {W} (s : St W) : files (settle s) = files s.
Proof. unfold settle. destruct (terminated s); [done|]. by destruct (unhandled s). Qed.

Lemma settle_console {W} (s : St W) : console (settle s) = console s.
Proof. unfold settle. destruct (terminated s); [done|]. by destruct (unhandled s). Qed.

Lemma settle_slept {W} (s : St W) : slept (settle s) = slept s.
Proof. unfold settle. destruct (terminated s); [done|]. by destruct (unhandled s). Qed.

Lemma settle_launches {W} (s : St W) : launches (settle s) = launches s.
Proof. unfold settle. destruct (terminated s); [done|]. by destruct (unhandled s). Qed.

Lemma settle_pending {W} (s : St W) : pending (settle s) = pending s.
Proof. unfold settle. destruct (terminated s); [done|]. by destruct (unhandled s). Qed.

Ltac st_simpl :=
  repeat progress
    (rewrite ?settle_world, ?settle_files, ?settle_console, ?settle_slept,
       ?settle_launches, ?settle_pending;
     cbn [world files console slept launches pending terminated with_world fst snd]).

(** ** withRetry *)

Lemma withRetry_loop_scripted_success {A} (outcome : nat -> JsError + A)
    (label : string) (m : nat) (v : A) :
  ∀ k remaining attempt lastError (s : St nat),
    (∀ i, i < k → ∃ e, outcome (world s + i) = inl e) →
    outcome (world s + k) = inr v →
    k < remaining →
    let r := withRetry_loop (scripted outcome) label m remaining attempt lastError s in
    fst r = inr v ∧ world (snd r) = world s + k + 1.
Proof.
  induction k as [|k IH]; intros remaining attempt lastError s Hfail Hok Hlt.
  - destruct remaining as [|remaining]; [lia|].
    cbn. rewrite Nat.add_0_r in Hok. rewrite Hok. cbn. split; [done | lia].
  - destruct remaining as [|remaining]; [lia|].
    destruct (Hfail 0) as [e He]; [lia|]. rewrite Nat.add_0_r in He.
    cbn -[show_nat backoff_delay]. rewrite He.
    match goal with
    | |- context [withRetry_loop _ _ _ _ _ _ ?s'] => specialize (IH remaining (attempt + 1) (Some e) s')
    end.
    assert (Hw : ∀ b (s1 : St nat),
               world (if b : bool then sleep (backoff_delay attempt) s1 else s1) = world s1)
      by (intros [] ?; reflexivity).
    rewrite Hw in IH. cbn [world console_error with_world] in IH.
    destruct IH as [IH1 IH2].
    + intros i Hi. replace (S (world s) + i) with (world s + S i) by lia.
      apply Hfail. lia.
    + replace (S (world s) + k) with (world s + S k) by lia. exact Hok.
    + lia.
    + split; [exact IH1 | rewrite IH2; lia].
Qed.

(** C4. An action that fails exactly [k] times and then succeeds with [v],
    retried with [maxAttempts >= k]: [withRetry] returns [v] and the action
    has been invoked exactly [k + 1] times. *)
Theorem withRetry_returns_first_success {A} (outcome : nat -> JsError + A)
    (label : string) (k maxAttempts : nat) (v : A) (s : St nat) :
  world s = 0 →
  (∀ i, i < k → ∃ e, outcome i = inl e) →
  outcome k = inr v →
  k ≤ maxAttempts →
  fst (withRetry (scripted outcome) label maxAttempts s) = inr v
  ∧ world (snd (withRetry (scripted outcome) label maxAttempts s)) = k + 1.
Proof.
  intros Hw Hfail Hok Hle. unfold withRetry.
  pose proof (withRetry_loop_scripted_success outcome label maxAttempts v k
                (maxAttempts + 1) 0 None s) as H.
  rewrite Hw in H. cbn [Nat.add] in H. apply H; [exact Hfail | exact Hok | lia].
Qed.

Lemma withRetry_returns_first_success_witness :
  fst (withRetry (scripted (fun i => if (i <? 2)%nat then inl (Error "boom") else inr 42))
         "fetch" 3 (st0 0)) = inr 42
  ∧ world (snd (withRetry (scripted (fun i => if (i <? 2)%nat then inl (Error "boom") else inr 42))
                  "fetch" 3 (st0 0))) = 2 + 1.
Proof.
  apply (withRetry_returns_first_success
           (fun i => if (i <? 2)%nat then inl (Error "boom") else inr 42) "fetch" 2 3 42 (st0 0)).
  - reflexivity.
  - intros i Hi. exists (Error "boom").
    destruct i as [|[|i]]; [reflexivity | reflexivity | lia].
  - reflexivity.
  - lia.
Defined.

Lemma sumZ_app (l1 l2 : list Z) : sumZ (l1 ++ l2) = (sumZ l1 + sumZ l2)%Z.
Proof. unfold sumZ. induction l1 as [|x l1 IH]; cbn; [reflexivity | rewrite IH; lia]. Qed.

Lemma withRetry_loop_scripted_failure {A} (errs : nat -> JsError) (label : string) (m : nat) :
  ∀ r attempt lastError (s : St nat),
    attempt + r = m →
    let res := withRetry_loop (scripted (fun i => inl (errs i) : JsError + A))
                 label m (S r) attempt lastError s in
    fst res = inl (Error ("All " +:+ show_nat (m + 1) +:+ " attempts failed for "
                          +:+ label +:+ ": " +:+ message (errs (world s + r))))
    ∧ world (snd res) = world s + r + 1
    ∧ slept (snd res) = slept s ++ map backoff_delay (seq attempt r).
Proof.
  induction r as [|r IH]; intros attempt lastError s Hm.
  - assert (attempt = m) as -> by lia.
    cbn -[show_nat backoff_delay Nat.ltb]. rewrite Nat.ltb_irrefl. cbn -[show_nat].
    rewrite Nat.add_0_r, app_nil_r. repeat split; lia.
  - assert (Hlt : (attempt <? m) = true) by (apply Nat.ltb_lt; lia).
    cbn -[show_nat backoff_delay withRetry_loop Nat.ltb].
    change (withRetry_loop ?a ?l ?n (S (S r)) attempt lastError s)
      with (withRetry_loop a l n (S r) (attempt + 1) (Some (errs (world s)))
              (if attempt <? m
               then sleep (backoff_delay attempt)
                      (console_error
                         ("Attempt " +:+ show_nat (attempt + 1) +:+ "/"
                          +:+ show_nat (m + 1) +:+ " failed for "
                          +:+ label +:+ ": " +:+ message (errs (world s)))
                         (with_world (S (world s)) s))
               else console_error
                      ("Attempt " +:+ show_nat (attempt + 1) +:+ "/"
                       +:+ show_nat (m + 1) +:+ " failed for "
                       +:+ label +:+ ": " +:+ message (errs (world s)))
                      (with_world (S (world s)) s))).
    rewrite Hlt.
    match goal with
    | |- context [withRetry_loop _ _ _ _ _ _ ?s'] =>
        destruct (IH (attempt + 1) (Some (errs (world s))) s') as (H1 & H2 & H3); [lia|]
    end.
    cbn [world slept sleep console_error with_world] in H1, H2, H3.
    rewrite H1, H2, H3. rewrite <- app_assoc. cbn [app map].
    replace (attempt + 1) with (S attempt) by lia.
    replace (S (world s) + r) with (world s + S r) by lia.
    repeat split; lia.
Qed.

(** C5. An action that always fails, retried with [maxAttempts = m]: the
    action is invoked exactly [m + 1] times; after each failed attempt but
    the last the delay [min(1000 * 2^attempt, 10000)] is waited, so the
    waiting adds up to the backoff delays of attempts [0..m-1]; the call then
    fails with ["All <m+1> attempts failed for <label>: <message of the last
    error>"]. *)
Theorem withRetry_exhausts_attempts {A} (errs : nat -> JsError) (label : string)
    (m : nat) (s : St nat) :
  let r := withRetry (scripted (fun i => inl (errs i) : JsError + A)) label m s in
  fst r = inl (Error ("All " +:+ show_nat (m + 1) +:+ " attempts failed for "
                      +:+ label +:+ ": " +:+ message (errs (world s + m))))
  ∧ world (snd r) = world s + (m + 1)
  ∧ slept (snd r)
    = slept s ++ map (fun attempt => Z.min (1000 * 2 ^ Z.of_nat attempt) 10000) (seq 0 m)
  ∧ sumZ (slept (snd r)) = (sumZ (slept s) + sumZ (backoff_schedule m))%Z.
Proof.
  assert (Heq : withRetry (scripted (fun i => inl (errs i) : JsError + A)) label m s
                = withRetry_loop (scripted (fun i => inl (errs i) : JsError + A))
                    label m (S m) 0 None s)
    by (unfold withRetry; rewrite Nat.add_1_r; reflexivity).
  destruct (withRetry_loop_scripted_failure (A:=A) errs label m m 0 None s)
    as (H1 & H2 & H3); [lia|].
  cbv zeta. rewrite Heq, H1, H2, H3. repeat split.
  - lia.
  - apply sumZ_app.
Qed.

(** ** downloadPdf *)

Lemma downloadPdf_inl {W} (env : Env W) (url title : string) (s : St W) (e : JsError) :
  fst (downloadPdf env url title s) = inl e →
  files (snd (downloadPdf env url title s)) = files s
  ∧ launches (snd (downloadPdf env url title s)) = launches s.
Proof.
  unfold downloadPdf.
  destruct (https_get env url (world s)) as [[err|err|statusCode chunks fin] w];
    [by st_simpl | by st_simpl |].
  destruct (negb (statusCode =? 200)%Z); [by st_simpl|].
  destruct fin as [|err]; [|by st_simpl].
  destruct (length (concat chunks) =? 0); [by st_simpl|].
  unfold try_catch, bind, call, writeFile, ret, throw. st_simpl.
  destruct (fs_mkdir env "downloads" w) as [[err|[]] w1].
  - destruct (decide (code err = Some "EEXIST")); [|by st_simpl].
    st_simpl.
    destruct (fs_writeFile env _ _ w1) as [[err2|u] w2]; [by st_simpl|].
    cbn. discriminate.
  - st_simpl.
    destruct (fs_writeFile env _ _ w1) as [[err2|u] w2]; [by st_simpl|].
    cbn. discriminate.
Qed.

Lemma downloadPdf_inr {W} (env : Env W) (url title : string) (s : St W) (p : string) :
  fst (downloadPdf env url title s) = inr p →
  p = path_join "downloads" (sanitizeTitle title +:+ ".pdf")
  ∧ launches (snd (downloadPdf env url title s)) = launches s
  ∧ ∃ chunks w,
      https_get env url (world s) = (Response 200 chunks BodyEnd, w)
      ∧ concat chunks ≠ []
      ∧ files (snd (downloadPdf env url title s)) = <[p := concat chunks]> (files s).
Proof.
  unfold downloadPdf.
  destruct (https_get env url (world s)) as [[err|err|statusCode chunks fin] w];
    [done | done |].
  destruct (statusCode =? 200)%Z eqn:Hst; [|done].
  apply Z.eqb_eq in Hst. subst statusCode. cbn [negb].
  destruct fin as [|err]; [|done].
  destruct (length (concat chunks) =? 0) eqn:Hlen; [done|].
  assert (Hne : concat chunks ≠ []).
  { intros Heq. rewrite Heq in Hlen. discriminate. }
  unfold try_catch, bind, call, writeFile, ret, throw. st_simpl.
  destruct (fs_mkdir env "downloads" w) as [[err|[]] w1].
  - destruct (decide (code err = Some "EEXIST")); [|done].
    st_simpl.
    destruct (fs_writeFile env _ _ w1) as [[err2|u] w2]; [done|].
    cbn [fst snd]. intros [= <-]. st_simpl. split; [done|]. split; [done|]. by exists chunks, w.
  - st_simpl.
    destruct (fs_writeFile env _ _ w1) as [[err2|u] w2]; [done|].
    cbn [fst snd]. intros [= <-]. st_simpl. split; [done|]. split; [done|]. by exists chunks, w.
Qed.

(** C6. [downloadPdf] on a response whose status is not 200 fails with the
    status error and writes no file; on a 200 response with an empty body it
    fails with the empty-content error and writes no file; whenever it fails
    the files are as before, so a file is written on the success path only,
    where the whole body is stored at the returned path. *)
Theorem downloadPdf_writes_only_on_success {W} (env : Env W) (url title : string) (s : St W) :
  let r := downloadPdf env url title s in
  (∀ status chunks fin w,
     https_get env url (world s) = (Response status chunks fin, w) →
     status ≠ 200%Z →
     fst r = inl (Error ("Failed to download PDF. Status code: " +:+ show_Z status
                         +:+ " for " +:+ url))
     ∧ files (snd r) = files s)
  ∧ (∀ chunks w,
       https_get env url (world s) = (Response 200 chunks BodyEnd, w) →
       length (concat chunks) = 0 →
       fst r = inl (Error ("Downloaded PDF for " +:+ title +:+ " is empty."))
       ∧ files (snd r) = files s)
  ∧ (∀ e, fst r = inl e → files (snd r) = files s)
  ∧ (∀ p, fst r = inr p →
       ∃ chunks w,
         https_get env url (world s) = (Response 200 chunks BodyEnd, w)
         ∧ concat chunks ≠ []
         ∧ files (snd r) = <[p := concat chunks]> (files s)).
Proof.
  cbv zeta. split; [|split; [|split]].
  - intros status chunks fin w Hget Hstatus. unfold downloadPdf. rewrite Hget.
    destruct (status =? 200)%Z eqn:Hst; [apply Z.eqb_eq in Hst; contradiction|].
    cbn [negb]. split; [reflexivity | by st_simpl].
  - intros chunks w Hget Hlen. unfold downloadPdf. rewrite Hget.
    cbn [negb Z.eqb Pos.eqb]. rewrite Hlen. cbn [Nat.eqb].
    split; [reflexivity | by st_simpl].
  - intros e He. apply (downloadPdf_inl env url title s e He).
  - intros p Hp. apply (downloadPdf_inr env url title s p Hp).
Qed.

(** ** What the steps of the book loop preserve *)

Section Preservation.
Context {W : Type} (env : Env W).

Lemma ext_refl (s : St W) : ext s s.
Proof. split; [reflexivity | auto]. Qed.

Lemma ext_trans (s1 s2 s3 : St W) : ext s1 s2 → ext s2 s3 → ext s1 s3.
Proof. intros [H1 H2] [H3 H4]. split; [congruence | auto]. Qed.

Lemma ext_same (s s' : St W) :
  files s' = files s → launches s' = launches s → ext s s'.
Proof. intros Hf Hl. split; [exact Hl | intros p; rewrite Hf; auto]. Qed.

Lemma ext_insert (s s' : St W) (p : string) (data : list byte) :
  data ≠ [] → files s' = <[p := data]> (files s) → launches s' = launches s → ext s s'.
Proof.
  intros Hne Hf Hl. split; [exact Hl|]. intros q [d [Hq Hd]]. rewrite Hf.
  destruct (decide (p = q)) as [->|Hpq].
  - exists data. by rewrite lookup_insert_eq.
  - exists d. by rewrite lookup_insert_ne.
Qed.

Lemma Pres_ret {A} (a : A) : Pres (ret (W:=W) a).
Proof. intros s. apply ext_refl. Qed.

Lemma Pres_throw {A} (e : JsError) : Pres (throw (W:=W) (A:=A) e).
Proof. intros s. apply ext_refl. Qed.

Lemma Pres_call {A} (o : op W A) : Pres (call o).
Proof. intros s. unfold call. destruct (o (world s)). apply ext_same; by st_simpl. Qed.

Lemma PresS_console_error (line : string) : PresS (console_error (W:=W) line).
Proof. intros s. by apply ext_same. Qed.

Lemma PresS_sleep (d : Z) : PresS (sleep (W:=W) d).
Proof. intros s. by apply ext_same. Qed.

Lemma Pres_bind {A B} (m : M W A) (k : A -> M W B) :
  Pres m → (∀ a, Pres (k a)) → Pres (bind m k).
Proof.
  intros Hm Hk s. unfold bind. specialize (Hm s).
  destruct (m s) as [[e|a] s1]; [exact Hm|].
  eapply ext_trans; [exact Hm | apply Hk].
Qed.

Lemma Pres_try_catch {A} (m : M W A) (h : JsError -> M W A) :
  Pres m → (∀ e, Pres (h e)) → Pres (try_catch m h).
Proof.
  intros Hm Hh s. unfold try_catch. specialize (Hm s).
  destruct (m s) as [[e|a] s1]; [|exact Hm].
  eapply ext_trans; [exact Hm | apply Hh].
Qed.

Lemma PresS_swallow (m : M W unit) (h : JsError -> St W -> St W) :
  Pres m → (∀ e, PresS (h e)) → PresS (swallow m h).
Proof.
  intros Hm Hh s. unfold swallow. specialize (Hm s).
  destruct (m s) as [[e|a] s1]; [|exact Hm].
  eapply ext_trans; [exact Hm | apply Hh].
Qed.

Lemma Pres_withRetry_loop {A} (act : M W A) (label : string) (m : nat) :
  Pres act → ∀ remaining attempt lastError,
    Pres (withRetry_loop act label m remaining attempt lastError).
Proof.
  intros Hact. induction remaining as [|remaining IH]; intros attempt lastError s.
  - cbn. destruct lastError; apply ext_refl.
  - cbn -[show_nat backoff_delay Nat.ltb]. specialize (Hact s).
    destruct (act s) as [[e|v] s1]; [|exact Hact].
    eapply ext_trans; [exact Hact|].
    eapply ext_trans; [|apply IH].
    destruct (attempt <? m).
    + eapply ext_trans; [apply PresS_console_error | apply PresS_sleep].
    + apply PresS_console_error.
Qed.

Lemma Pres_withRetry {A} (act : M W A) (label : string) (m : nat) :
  Pres act → Pres (withRetry act label m).
Proof. intros H. apply Pres_withRetry_loop, H. Qed.

Lemma Pres_downloadPdf (url title : string) : Pres (downloadPdf env url title).
Proof.
  intros s. destruct (fst (downloadPdf env url title s)) as [e|p] eqn:Hr.
  - destruct (downloadPdf_inl env url title s e Hr) as [Hf Hl]. by apply ext_same.
  - destruct (downloadPdf_inr env url title s p Hr) as (_ & Hl & chunks & w & _ & Hne & Hf).
    by eapply ext_insert.
Qed.

Lemma Pres_step {A B} (l : Locals) (m : M W A) (k : A -> Try W B) :
  Pres m → (∀ a, Pres (k a)) → Pres (step l m k).
Proof.
  intros Hm Hk s. unfold step. specialize (Hm s).
  destruct (m s) as [[e|a] s1]; [exact Hm|].
  eapply ext_trans; [exact Hm | apply Hk].
Qed.

Lemma Pres_seqTry {A B} (t : Try W A) (k : Locals -> A -> Try W B) :
  Pres t → (∀ l a, Pres (k l a)) → Pres (seqTry t k).
Proof.
  intros Ht Hk s. unfold seqTry. specialize (Ht s).
  destruct (t s) as [[l [e|a]] s1]; [exact Ht|].
  eapply ext_trans; [exact Ht | apply Hk].
Qed.

Lemma Pres_finish {A} (l : Locals) (a : A) : Pres (finish (W:=W) l a).
Proof. intros s. apply ext_refl. Qed.

Lemma Pres_logRethrow {A} (book : Book) (t : Try W A) : Pres t → Pres (logRethrow book t).
Proof.
  intros Ht s. unfold logRethrow. specialize (Ht s).
  destruct (t s) as [[l [e|a]] s1]; [|exact Ht].
  eapply ext_trans; [exact Ht | apply PresS_console_error].
Qed.

Lemma Pres_locateHeadless (page : Page) (pn pv : string) (book : Book) :
  Pres (locateHeadless env page pn pv book).
Proof.
  unfold locateHeadless. apply Pres_bind; [apply Pres_call|].
  intros content. destruct (matchPdfLink content pn pv (title book)).
  - intros s. apply PresS_console_error.
  - apply Pres_ret.
Qed.

Lemma Pres_newPage_on (c : option Context) : Pres (newPage_on env c).
Proof. destruct c; [apply Pres_call | apply Pres_throw]. Qed.

Lemma Pres_waitForEvent_on (c : option Context) : Pres (waitForEvent_on env c).
Proof.
  destruct c as [c|]; [|apply Pres_throw].
  intros s. unfold waitForEvent_on. destruct (context_waitForEvent_page env c (world s)).
  by apply ext_same.
Qed.

Lemma Pres_awaitPage (p : Promise) : Pres (awaitPage env p).
Proof.
  intros s. unfold awaitPage.
  eapply ext_trans; [|apply Pres_call]. by apply ext_same.
Qed.

Lemma Pres_commonDownload (pn pv : string) (book : Book) (l : Locals) (u : string) :
  Pres (commonDownload env pn pv book l u).
Proof.
  destruct u as [|c u]; [intros s; apply ext_refl|].
  apply Pres_step.
  - apply Pres_withRetry, Pres_downloadPdf.
  - intros p. apply Pres_finish.
Qed.

Lemma Pres_headedBranch (sess : Session) (book : Book) (page : Page) :
  Pres (headedBranch env sess book page).
Proof.
  unfold headedBranch.
  apply Pres_step; [apply Pres_withRetry, Pres_call | intros _].
  apply Pres_logRethrow.
  apply Pres_step; [apply Pres_waitForEvent_on | intros newPagePromise].
  apply Pres_step; [apply Pres_withRetry, Pres_call | intros _].
  apply Pres_step; [apply Pres_awaitPage | intros pdfPage].
  apply Pres_step; [apply Pres_withRetry, Pres_call | intros _].
  intros s.
  apply (Pres_step _ _ _ (Pres_withRetry _ _ _ (Pres_call _))).
  intros _. apply Pres_finish.
Qed.

Lemma Pres_tryBlock (rh : bool) (pn pv : string) (sess : Session) (book : Book) :
  Pres (tryBlock env rh pn pv sess book).
Proof.
  unfold tryBlock.
  apply Pres_step; [apply Pres_newPage_on | intros page].
  apply Pres_step; [apply Pres_withRetry, Pres_call | intros _].
  apply Pres_seqTry.
  - destruct rh.
    + unfold headlessBranch.
      apply Pres_step; [apply Pres_locateHeadless | intros u; apply Pres_finish].
    + apply Pres_headedBranch.
  - intros l u. apply Pres_commonDownload.
Qed.

Lemma PresS_closePage (p : option Page) (warning : string) : PresS (closePage env p warning).
Proof.
  intros s. unfold closePage. destruct p as [pg|]; [|apply ext_refl].
  destruct (negb (page_isClosed env pg (world s))); [|apply ext_refl].
  apply PresS_swallow; [apply Pres_call | intros e; apply PresS_console_error].
Qed.

Lemma Pres_catchBlock (sess : Session) (l : Locals) (book : Book) (err : JsError) :
  Pres (catchBlock env sess l book err).
Proof.
  intros s. unfold catchBlock.
  destruct (isCritical (message err)), (browser sess) as [b|]; cbn [snd];
    try apply PresS_console_error.
  eapply ext_trans;
    [|apply PresS_swallow; [apply Pres_call | intros e; apply PresS_console_error]].
  assert (Hclosed : ∀ s0 : St W, ext s s0 →
            ext s match context sess with
                  | Some c =>
                      swallow (call (context_close env c))
                        (fun e => console_error
                           ("Failed to close context during critical error handling: "
                            +:+ message e)) s0
                  | None => s0
                  end).
  { intros s0 H0. destruct (context sess) as [c|]; [|exact H0].
    eapply ext_trans; [exact H0|].
    apply PresS_swallow; [apply Pres_call | intros e; apply PresS_console_error]. }
  apply Hclosed.
  eapply ext_trans; [|apply PresS_closePage].
  eapply ext_trans; [|apply PresS_closePage].
  eapply ext_trans; [|apply PresS_console_error].
  apply PresS_console_error.
Qed.

Lemma PresS_finallyBlock (l : Locals) (book : Book) : PresS (finallyBlock env l book).
Proof.
  intros s. unfold finallyBlock.
  eapply ext_trans; [|apply PresS_closePage]. apply PresS_closePage.
Qed.

End Preservation.

(** ** One iteration of the book loop *)

Section Iteration.
Context {W : Type} (env : Env W).

Lemma step_inr {A B} (l : Locals) (m : M W A) (k : A -> Try W B) (s s' : St W)
    (l' : Locals) (v : B) :
  step l m k s = ((l', inr v), s') →
  ∃ a s1, m s = (inr a, s1) ∧ k a s1 = ((l', inr v), s').
Proof.
  unfold step. destruct (m s) as [[e|a] s1]; [discriminate|].
  intros H. by exists a, s1.
Qed.

Lemma seqTry_inr {A B} (t : Try W A) (k : Locals -> A -> Try W B) (s s' : St W)
    (l' : Locals) (v : B) :
  seqTry t k s = ((l', inr v), s') →
  ∃ l a s1, t s = ((l, inr a), s1) ∧ k l a s1 = ((l', inr v), s').
Proof.
  unfold seqTry. destruct (t s) as [[l [e|a]] s1]; [discriminate|].
  intros H. by exists l, a, s1.
Qed.

Lemma withRetry_loop_inr {A} (act : M W A) (label : string) (m : nat) (v : A) (s' : St W) :
  ∀ remaining attempt lastError s,
    withRetry_loop act label m remaining attempt lastError s = (inr v, s') →
    ∃ s0, act s0 = (inr v, s').
Proof.
  induction remaining as [|remaining IH]; intros attempt lastError s.
  - cbn. destruct lastError; discriminate.
  - cbn -[show_nat backoff_delay Nat.ltb].
    destruct (act s) as [[e|a] s1] eqn:Hact.
    + apply IH.
    + intros [= -> ->]. by exists s.
Qed.

Lemma commonDownload_inr (pn pv : string) (book : Book) (l l' : Locals)
    (u u' p : string) (s s' : St W) :
  commonDownload env pn pv book l u s = ((l', inr (u', p)), s') →
  u' = u ∧ u ≠ EmptyString ∧ p = download_path pn pv book ∧ nonempty_at (files s') p.
Proof.
  destruct u as [|c u]; [discriminate|].
  cbn [commonDownload]. intros H.
  apply step_inr in H as (a & s1 & Hretry & Hfin).
  cbv [finish] in Hfin. injection Hfin as _ Hu' Ha Hs'. subst u' a s1.
  apply withRetry_loop_inr in Hretry as [s0 Hdl].
  assert (Hfst : fst (downloadPdf env (String c u)
                        (pn +:+ "-" +:+ pv +:+ "-" +:+ title book) s0) = inr p)
    by (rewrite Hdl; reflexivity).
  destruct (downloadPdf_inr env _ _ s0 p Hfst) as (Hp & _ & chunks & w & _ & Hne & Hfiles).
  rewrite Hdl in Hfiles. cbn [snd] in Hfiles.
  repeat split; [discriminate | exact Hp |].
  exists (concat chunks). rewrite Hfiles. by rewrite lookup_insert_eq.
Qed.

Lemma tryBlock_inr (rh : bool) (pn pv : string) (sess : Session) (book : Book)
    (l : Locals) (u p : string) (s s' : St W) :
  tryBlock env rh pn pv sess book s = ((l, inr (u, p)), s') →
  u ≠ EmptyString ∧ p = download_path pn pv book ∧ nonempty_at (files s') p.
Proof.
  unfold tryBlock. intros H.
  apply step_inr in H as (page & s1 & _ & H).
  apply step_inr in H as (? & s2 & _ & H).
  apply seqTry_inr in H as (l1 & u1 & s3 & _ & H).
  apply commonDownload_inr in H as (-> & Hu & Hp & Hfile). done.
Qed.

Lemma tryBlock_null_context (rh : bool) (pn pv : string) (sess : Session) (book : Book)
    (s : St W) :
  context sess = None →
  tryBlock env rh pn pv sess book s
  = (({| bookPage := None; newPageForPdf := None |}, inl (Error null_newPage)), s).
Proof. intros Hc. unfold tryBlock, step, newPage_on. rewrite Hc. reflexivity. Qed.

(** The record pushed for a book and the session afterwards, by outcome. *)
Lemma processBook_spec (rh : bool) (pn pv : string) (sess sess' : Session) (book : Book)
    (r : BookResult) (s s' : St W) :
  processBook env rh pn pv sess book s = ((sess', r), s') →
  entry r = book
  ∧ ((success r = true ∧ sess' = sess ∧ error r = None ∧ criticalError r = None
      ∧ ∃ u, u ≠ EmptyString ∧ pdfUrl r = Some u
             ∧ downloadPath r = Some (download_path pn pv book)
             ∧ nonempty_at (files s') (download_path pn pv book))
     ∨ (success r = false ∧ pdfUrl r = None ∧ downloadPath r = None
        ∧ ∃ msg, error r = Some msg ∧ criticalError r = Some (isCritical msg)
                 ∧ sess' = match isCritical msg, browser sess with
                           | true, Some _ => {| browser := None; context := None |}
                           | _, _ => sess
                           end)).
Proof.
  unfold processBook.
  destruct (tryBlock env rh pn pv sess book s) as [[l [err|[u p]]] s1] eqn:Htry.
  - destruct (catchBlock env sess l book err s1) as [[sess1 r1] s2] eqn:Hcatch.
    intros [= <- <- <-]. unfold catchBlock in Hcatch.
    destruct (isCritical (message err)) eqn:Hcrit, (browser sess) as [b|] eqn:Hb;
      injection Hcatch as <- <- _; (split; [reflexivity|]); right;
      (repeat split; exists (message err)); rewrite Hcrit; done.
  - intros [= <- <- <-]. split; [reflexivity|]. left.
    apply tryBlock_inr in Htry as (Hu & -> & Hfile).
    repeat split. exists u. repeat split; [exact Hu|].
    assert (Hext : ext s1 (if negb rh
                           then sleep 1000 (finallyBlock env l book s1)
                           else finallyBlock env l book s1)).
    { destruct (negb rh).
      - eapply ext_trans; [apply PresS_finallyBlock | apply PresS_sleep].
      - apply PresS_finallyBlock. }
    destruct Hext as [_ Hfiles]. by apply Hfiles.
Qed.

Lemma Pres_processBook (rh : bool) (pn pv : string) (sess : Session) (book : Book) :
  Pres (processBook env rh pn pv sess book).
Proof.
  intros s. unfold processBook.
  pose proof (Pres_tryBlock env rh pn pv sess book s) as Htry.
  destruct (tryBlock env rh pn pv sess book s) as [[l [err|[u p]]] s1]; cbn [snd] in Htry.
  - pose proof (Pres_catchBlock env sess l book err s1) as Hcatch.
    destruct (catchBlock env sess l book err s1) as [[sess1 r1] s2]. cbn [snd] in *.
    eapply ext_trans; [exact Htry|]. eapply ext_trans; [exact Hcatch|].
    destruct (negb rh).
    + eapply ext_trans; [apply PresS_finallyBlock | apply PresS_sleep].
    + apply PresS_finallyBlock.
  - cbn [snd]. eapply ext_trans; [exact Htry|].
    destruct (negb rh).
    + eapply ext_trans; [apply PresS_finallyBlock | apply PresS_sleep].
    + apply PresS_finallyBlock.
Qed.

End Iteration.

(** ** The book loop *)

Section Loop.
Context {W : Type} (env : Env W).

Lemma processBooks_from_run_books (rh : bool) (pn pv : string) (books : list Book) :
  ∀ remaining i sess acc (s : St W),
    i + remaining = length books →
    processBooks_from env rh pn pv books remaining i sess acc s
    = let '((sess', rs), s') := run_books env rh pn pv (drop i books) sess s in
      ((sess', inr (acc ++ rs)), s').
Proof.
  induction remaining as [|remaining IH]; intros i sess acc s Hlen.
  - rewrite drop_ge by lia. cbn. by rewrite app_nil_r.
  - destruct (lookup_lt_is_Some_2 books i) as [book Hbook]; [lia|].
    rewrite (drop_S _ _ _ Hbook). cbn [processBooks_from run_books]. rewrite Hbook.
    destruct (processBook env rh pn pv sess book s) as [[sess1 r] s1].
    rewrite IH by lia. replace (i + 1) with (S i) by lia.
    destruct (run_books env rh pn pv (drop (S i) books) sess1 s1) as [[sess2 rs] s2].
    by rewrite <- app_assoc.
Qed.

Lemma processBooks_run_books (rh : bool) (pn pv : string) (books : list Book)
    (sess : Session) (s : St W) :
  processBooks env rh pn pv books sess s
  = let '((sess', rs), s') := run_books env rh pn pv books sess s in
    ((sess', inr rs), s').
Proof.
  unfold processBooks. rewrite processBooks_from_run_books by lia.
  rewrite drop_0. reflexivity.
Qed.

Lemma run_books_entries (rh : bool) (pn pv : string) :
  ∀ books sess (s : St W) sess' rs s',
    run_books env rh pn pv books sess s = ((sess', rs), s') →
    map entry rs = books.
Proof.
  induction books as [|book books IH]; intros sess s sess' rs s'.
  - cbn. by intros [= <- <- <-].
  - cbn [run_books].
    destruct (processBook env rh pn pv sess book s) as [[sess1 r] s1] eqn:Hone.
    destruct (run_books env rh pn pv books sess1 s1) as [[sess2 rs2] s2] eqn:Hrest.
    intros [= <- <- <-]. cbn [map]. f_equal.
    + by destruct (processBook_spec env _ _ _ _ _ _ _ _ _ Hone) as [He _].
    + by eapply IH.
Qed.

Lemma Pres_run_books (rh : bool) (pn pv : string) :
  ∀ books sess, Pres (run_books env rh pn pv books sess).
Proof.
  induction books as [|book books IH]; intros sess s.
  - apply ext_refl.
  - cbn [run_books].
    pose proof (Pres_processBook env rh pn pv sess book s) as Hone.
    destruct (processBook env rh pn pv sess book s) as [[sess1 r] s1].
    pose proof (IH sess1 s1) as Hrest.
    destruct (run_books env rh pn pv books sess1 s1) as [[sess2 rs2] s2].
    eapply ext_trans; [exact Hone | exact Hrest].
Qed.

Lemma result_wf_ext (pn pv : string) (s s' : St W) (r : BookResult) :
  ext s s' → result_wf pn pv (files s) r → result_wf pn pv (files s') r.
Proof.
  intros [_ Hfiles] [(Hs & Hu & Hp & Hne)|H]; [left|by right].
  split; [exact Hs|]. split; [exact Hu|]. split; [exact Hp | by apply Hfiles].
Qed.

Lemma run_books_wf (rh : bool) (pn pv : string) :
  ∀ books sess (s : St W) sess' rs s',
    run_books env rh pn pv books sess s = ((sess', rs), s') →
    Forall (result_wf pn pv (files s')) rs.
Proof.
  induction books as [|book books IH]; intros sess s sess' rs s'.
  - cbn. intros [= <- <- <-]. constructor.
  - cbn [run_books].
    destruct (processBook env rh pn pv sess book s) as [[sess1 r] s1] eqn:Hone.
    pose proof (Pres_run_books rh pn pv books sess1 s1) as Hext.
    destruct (run_books env rh pn pv books sess1 s1) as [[sess2 rs2] s2] eqn:Hrest.
    intros [= <- <- <-]. cbn [snd] in Hext. constructor; [|by eapply IH].
    apply (result_wf_ext pn pv s1 s2 r Hext).
    destruct (processBook_spec env _ _ _ _ _ _ _ _ _ Hone)
      as [He [(Hs & _ & _ & _ & u & _ & Hu & Hp & Hne)|(Hs & Hu & Hp & _)]].
    + left. rewrite He. split; [exact Hs|]. split; [by exists u|]. done.
    + by right.
Qed.

Lemma isCritical_null_newPage : isCritical null_newPage = false.
Proof. vm_compute. reflexivity. Qed.

Lemma processBook_dead (rh : bool) (pn pv : string) (book : Book) (s : St W) :
  fst (processBook env rh pn pv dead book s) = (dead, null_failure book).
Proof.
  unfold processBook. rewrite tryBlock_null_context by reflexivity.
  unfold catchBlock. cbn [message Error]. rewrite isCritical_null_newPage.
  reflexivity.
Qed.

Lemma run_books_dead (rh : bool) (pn pv : string) :
  ∀ books (s : St W),
    fst (run_books env rh pn pv books dead s) = (dead, map null_failure books).
Proof.
  induction books as [|book books IH]; intros s; [reflexivity|].
  cbn [run_books].
  pose proof (processBook_dead rh pn pv book s) as Hone.
  destruct (processBook env rh pn pv dead book s) as [[sess1 r] s1].
  cbn [fst] in Hone. injection Hone as -> ->.
  specialize (IH s1).
  destruct (run_books env rh pn pv books dead s1) as [[sess2 rs2] s2].
  cbn [fst] in IH. injection IH as -> ->. reflexivity.
Qed.

(** While the browser variable holds a browser, a record flagged critical
    is followed by records of the null session only. *)
Lemma run_books_after_critical (rh : bool) (pn pv : string) :
  ∀ books sess (s : St W) sess' rs s' b,
    browser sess = Some b →
    run_books env rh pn pv books sess s = ((sess', rs), s') →
    ∀ i r, rs !! i = Some r → criticalError r = Some true →
      sess' = dead
      ∧ ∀ j, i < j → rs !! j = null_failure <$> (books !! j).
Proof.
  induction books as [|book books IH]; intros sess s sess' rs s' b Hb.
  - cbn. intros [= <- <- <-] i r Hi. by rewrite lookup_nil in Hi.
  - cbn [run_books].
    destruct (processBook env rh pn pv sess book s) as [[sess1 r1] s1] eqn:Hone.
    destruct (run_books env rh pn pv books sess1 s1) as [[sess2 rs2] s2] eqn:Hrest.
    intros [= <- <- <-] i r Hi Hcrit.
    destruct (processBook_spec env _ _ _ _ _ _ _ _ _ Hone)
      as [_ [(_ & Hsess & _ & Hc1 & _)|(_ & _ & _ & msg & _ & Hc1 & Hsess)]].
    + (* the first record is a success: the critical one is later *)
      destruct i as [|i]; [cbn in Hi; injection Hi as <-; congruence|].
      cbn in Hi. subst sess1.
      destruct (IH sess s1 sess2 rs2 s2 b Hb Hrest i r Hi Hcrit) as [Hd Hafter].
      split; [exact Hd|]. intros [|j] Hj; [lia|]. cbn. apply Hafter. lia.
    + rewrite Hb in Hsess. destruct (isCritical msg) eqn:Hmsg.
      * (* the first record is critical: the session is torn down *)
        subst sess1.
        pose proof (run_books_dead rh pn pv books s1) as Hdead.
        unfold dead in Hdead at 1. rewrite Hrest in Hdead. cbn [fst] in Hdead. injection Hdead as -> ->.
        split; [reflexivity|]. intros [|j] Hj; [lia|]. cbn.
        apply (list_lookup_fmap null_failure books j).
      * destruct i as [|i]; [cbn in Hi; injection Hi as <-; congruence|].
        cbn in Hi. subst sess1.
        destruct (IH sess s1 sess2 rs2 s2 b Hb Hrest i r Hi Hcrit) as [Hd Hafter].
        split; [exact Hd|]. intros [|j] Hj; [lia|]. cbn. apply Hafter. lia.
Qed.

End Loop.

(** ** The whole run *)

Section Run.
Context {W : Type} (env : Env W) (JSON_stringify : list BookResult -> list byte).

Lemma stepS_inr {A B} (sess : Session) (m : M W A)
    (k : A -> St W -> (Session * (JsError + B)) * St W) (s s' : St W)
    (sess' : Session) (v : B) :
  stepS sess m k s = ((sess', inr v), s') →
  ∃ a s1, m s = (inr a, s1) ∧ k a s1 = ((sess', inr v), s').
Proof.
  unfold stepS. destruct (m s) as [[e|a] s1]; [discriminate|].
  intros H. by exists a, s1.
Qed.

Lemma launches_of {A} (m : M W A) (s s1 : St W) (r : JsError + A) :
  Pres m → m s = (r, s1) → launches s1 = launches s.
Proof. intros Hm Heq. destruct (Hm s) as [Hl _]. by rewrite Heq in Hl. Qed.

(** When the setup succeeds both session variables are set, and the browser
    was launched once, with [launchOptions]. *)
Lemma setup_inr (t pn pv : string) (rh : bool) (s s1 : St W) (sess : Session)
    (books : list Book) :
  setup env t pn pv rh s = ((sess, inr books), s1) →
  (∃ b c, sess = {| browser := Some b; context := Some c |})
  ∧ launches s1 = launches s ++ [launchOptions rh].
Proof.
  unfold setup. intros H.
  apply stepS_inr in H as (b & sa & Hlaunch & H).
  apply stepS_inr in H as (c & sb & H1 & H).
  apply stepS_inr in H as (? & sc & H2 & H).
  apply stepS_inr in H as (pg & sd & H3 & H).
  apply stepS_inr in H as (? & se & H4 & H).
  apply stepS_inr in H as (? & sf & H5 & H).
  apply stepS_inr in H as (bs & sg & H6 & H).
  apply stepS_inr in H as (? & sh & H7 & H).
  injection H as <- <- <-. split; [by exists b, c|].
  rewrite (launches_of _ _ _ _ (Pres_call _) H7).
  rewrite (launches_of _ _ _ _ (Pres_call _) H6).
  rewrite (launches_of _ _ _ _ (Pres_withRetry _ _ _ (Pres_call _)) H5).
  rewrite (launches_of _ _ _ _ (Pres_withRetry _ _ _ (Pres_call _)) H4).
  rewrite (launches_of _ _ _ _ (Pres_call _) H3).
  rewrite (launches_of _ _ _ _ (Pres_call _) H2).
  rewrite (launches_of _ _ _ _ (Pres_call _) H1).
  unfold launch in Hlaunch. destruct (chromium_launch env _ (world s)) as [r w].
  injection Hlaunch as _ <-. by st_simpl.
Qed.

Lemma all_chars_app (P : ascii -> bool) (a b : string) :
  all_chars P (a +:+ b) = all_chars P a && all_chars P b.
Proof.
  induction a as [|c a IH]; [reflexivity|].
  change (String c a +:+ b) with (String c (a +:+ b)).
  cbn [all_chars]. by rewrite IH, andb_assoc.
Qed.

Lemma all_chars_replace_class (P class : ascii -> bool) (f : ascii -> string) (s : string) :
  (∀ c, class c = false → P c = true) →
  (∀ c, all_chars P (f c) = true) →
  all_chars P (replace_class class f s) = true.
Proof.
  intros Hkeep Hrep. induction s as [|c s IH]; [reflexivity|].
  cbn [replace_class]. rewrite all_chars_app, IH, andb_true_r.
  destruct (class c) eqn:Hc; [apply Hrep|].
  cbn. by rewrite (Hkeep c Hc).
Qed.

Lemma resultsFilename_no_slash (pn pv : string) :
  all_chars not_slash (resultsFilename pn pv) = true.
Proof.
  unfold resultsFilename. rewrite !all_chars_app.
  rewrite !all_chars_replace_class; [reflexivity | | done | | done].
  - intros c Hc. unfold not_slash. destruct (Ascii.eqb_spec c "/"%char) as [->|]; [|done].
    vm_compute in Hc. discriminate.
  - intros c Hc. unfold not_slash. destruct (Ascii.eqb_spec c "/"%char) as [->|]; [|done].
    vm_compute in Hc. discriminate.
Qed.

Lemma download_path_slash (pn pv : string) (book : Book) :
  all_chars not_slash (download_path pn pv book) = false.
Proof. reflexivity. Qed.

Lemma saveResults_ext (pn pv : string) (rs : list BookResult) (s : St W) :
  launches (saveResults env JSON_stringify pn pv rs s) = launches s
  ∧ ∀ p, p ≠ resultsFilename pn pv →
         nonempty_at (files s) p →
         nonempty_at (files (saveResults env JSON_stringify pn pv rs s)) p.
Proof.
  unfold saveResults, swallow, writeFile.
  destruct (fs_writeFile env _ _ (world s)) as [[e|u] w]; unfold console_error; st_simpl;
    (split; [reflexivity|]);
    intros p Hp [d [Hd Hne]]; exists d; [done|].
  by rewrite lookup_insert_ne.
Qed.

Lemma PresS_outerFinally (sess : Session) : PresS (outerFinally env sess).
Proof.
  intros s. unfold outerFinally. destruct (browser sess) as [b|]; [|apply ext_refl].
  apply PresS_swallow; [apply Pres_call | intros e; apply PresS_console_error].
Qed.

(** The run when the setup has succeeded. *)
Lemma scrape_after_setup (t pn pv : string) (rh : bool) (s s1 s2 : St W)
    (sess sess' : Session) (books : list Book) (rs : list BookResult) :
  setup env t pn pv rh s = ((sess, inr books), s1) →
  run_books env rh pn pv books sess s1 = ((sess', rs), s2) →
  scrapeAndDownloadDocs env JSON_stringify t pn pv rh s
  = (match terminated s2 with Some _ => None | None => Some rs end,
     outerFinally env sess' (saveResults env JSON_stringify pn pv rs s2)).
Proof.
  intros Hsetup Hrun. unfold scrapeAndDownloadDocs.
  rewrite Hsetup, processBooks_run_books, Hrun. reflexivity.
Qed.

(** A ledger is produced only when the setup has succeeded. *)
Lemma scrape_Some (t pn pv : string) (rh : bool) (s : St W) (rs : list BookResult) :
  fst (scrapeAndDownloadDocs env JSON_stringify t pn pv rh s) = Some rs →
  ∃ sess books s1 sess' s2,
    setup env t pn pv rh s = ((sess, inr books), s1)
    ∧ run_books env rh pn pv books sess s1 = ((sess', rs), s2)
    ∧ terminated s2 = None.
Proof.
  unfold scrapeAndDownloadDocs.
  destruct (setup env t pn pv rh s) as [[sess [e|books]] s1] eqn:Hsetup; [discriminate|].
  rewrite processBooks_run_books.
  destruct (run_books env rh pn pv books sess s1) as [[sess' rs'] s2] eqn:Hrun.
  cbn [fst]. destruct (terminated s2) eqn:Hterm; [discriminate|].
  intros [= <-]. by exists sess, books, s1, sess', s2.
Qed.

End Run.

(** ** Runs in which no promise is left without a handler

    In headless mode the script creates no promise that it does not await
    at once, so the process is never terminated on an unhandled
    rejection. *)

Section Headless.
Context {W : Type} (env : Env W) (JSON_stringify : list BookResult -> list byte).

Lemma settle_quiet (s : St W) : quiet s → settle s = s.
Proof. intros [Hp Ht]. unfold settle, unhandled. by rewrite Ht, Hp. Qed.

Lemma quiet_same (s s' : St W) :
  pending s' = pending s → terminated s' = terminated s → quiet s → quiet s'.
Proof. intros Hp Ht [H1 H2]. split; congruence. Qed.

Lemma quiet_settle (s s' : St W) :
  pending s' = pending s → terminated s' = terminated s → quiet s → quiet (settle s').
Proof.
  intros Hp Ht Hq. pose proof (quiet_same s s' Hp Ht Hq) as Hq'.
  by rewrite (settle_quiet s' Hq').
Qed.

Lemma Quiet_ret {A} (a : A) : Quiet (ret (W:=W) a).
Proof. by intros s. Qed.

Lemma Quiet_throw {A} (e : JsError) : Quiet (throw (W:=W) (A:=A) e).
Proof. by intros s. Qed.

Lemma Quiet_call {A} (o : op W A) : Quiet (call o).
Proof. intros s Hq. unfold call. destruct (o (world s)). by apply (quiet_settle s). Qed.

Lemma QuietS_console_error (line : string) : QuietS (console_error (W:=W) line).
Proof. intros s. by apply quiet_same. Qed.

Lemma QuietS_sleep (d : Z) : QuietS (sleep (W:=W) d).
Proof. intros s. by apply quiet_same. Qed.

Lemma Quiet_bind {A B} (m : M W A) (k : A -> M W B) :
  Quiet m → (∀ a, Quiet (k a)) → Quiet (bind m k).
Proof.
  intros Hm Hk s Hq. unfold bind. specialize (Hm s Hq).
  destruct (m s) as [[e|a] s1]; [exact Hm|]. by apply Hk.
Qed.

Lemma Quiet_try_catch {A} (m : M W A) (h : JsError -> M W A) :
  Quiet m → (∀ e, Quiet (h e)) → Quiet (try_catch m h).
Proof.
  intros Hm Hh s Hq. unfold try_catch. specialize (Hm s Hq).
  destruct (m s) as [[e|a] s1]; [|exact Hm]. by apply Hh.
Qed.

Lemma QuietS_swallow (m : M W unit) (h : JsError -> St W -> St W) :
  Quiet m → (∀ e, QuietS (h e)) → QuietS (swallow m h).
Proof.
  intros Hm Hh s Hq. unfold swallow. specialize (Hm s Hq).
  destruct (m s) as [[e|a] s1]; [|exact Hm]. by apply Hh.
Qed.

Lemma Quiet_withRetry_loop {A} (act : M W A) (label : string) (m : nat) :
  Quiet act → ∀ remaining attempt lastError,
    Quiet (withRetry_loop act label m remaining attempt lastError).
Proof.
  intros Hact. induction remaining as [|remaining IH]; intros attempt lastError s Hq.
  - cbn. by destruct lastError.
  - cbn -[show_nat backoff_delay Nat.ltb]. specialize (Hact s Hq).
    destruct (act s) as [[e|v] s1]; [|exact Hact].
    apply IH. destruct (attempt <? m).
    + by apply QuietS_sleep, QuietS_console_error.
    + by apply QuietS_console_error.
Qed.

Lemma Quiet_withRetry {A} (act : M W A) (label : string) (m : nat) :
  Quiet act → Quiet (withRetry act label m).
Proof. intros H. by apply Quiet_withRetry_loop. Qed.

Lemma Quiet_writeFile (path : string) (data : list byte) : Quiet (writeFile env path data).
Proof.
  intros s Hq. unfold writeFile.
  destruct (fs_writeFile env path data (world s)) as [[e|u] w]; by apply (quiet_settle s).
Qed.

Lemma Quiet_downloadPdf (url title : string) : Quiet (downloadPdf env url title).
Proof.
  intros s Hq. unfold downloadPdf.
  assert (Hq1 : ∀ w, quiet (settle (with_world w s)))
    by (intros w; by apply (quiet_settle s)).
  destruct (https_get env url (world s)) as [[err|err|statusCode chunks fin] w];
    [apply Hq1 | apply Hq1 |].
  destruct (negb (statusCode =? 200)%Z); [apply Hq1|].
  destruct fin as [|err]; [|apply Hq1].
  destruct (length (concat chunks) =? 0); [apply Hq1|].
  apply Quiet_try_catch; [| intros e; apply Quiet_throw | apply Hq1].
  apply Quiet_bind.
  - apply Quiet_try_catch; [apply Quiet_call|].
    intros e. destruct (decide (code e = Some "EEXIST")); [apply Quiet_ret | apply Quiet_throw].
  - intros _. apply Quiet_bind; [apply Quiet_writeFile | intros _; apply Quiet_ret].
Qed.

Lemma Quiet_step {A B} (l : Locals) (m : M W A) (k : A -> Try W B) :
  Quiet m → (∀ a, Quiet (k a)) → Quiet (step l m k).
Proof.
  intros Hm Hk s Hq. unfold step. specialize (Hm s Hq).
  destruct (m s) as [[e|a] s1]; [exact Hm|]. by apply Hk.
Qed.

Lemma Quiet_seqTry {A B} (t : Try W A) (k : Locals -> A -> Try W B) :
  Quiet t → (∀ l a, Quiet (k l a)) → Quiet (seqTry t k).
Proof.
  intros Ht Hk s Hq. unfold seqTry. specialize (Ht s Hq).
  destruct (t s) as [[l [e|a]] s1]; [exact Ht|]. by apply Hk.
Qed.

Lemma Quiet_locateHeadless (page : Page) (pn pv : string) (book : Book) :
  Quiet (locateHeadless env page pn pv book).
Proof.
  unfold locateHeadless. apply Quiet_bind; [apply Quiet_call|].
  intros content. destruct (matchPdfLink content pn pv (title book)).
  - intros s. apply QuietS_console_error.
  - apply Quiet_ret.
Qed.

Lemma Quiet_commonDownload (pn pv : string) (book : Book) (l : Locals) (u : string) :
  Quiet (commonDownload env pn pv book l u).
Proof.
  destruct u as [|c u]; [by intros s|].
  apply Quiet_step; [apply Quiet_withRetry, Quiet_downloadPdf | by intros p s].
Qed.

Lemma Quiet_tryBlock_headless (pn pv : string) (sess : Session) (book : Book) :
  Quiet (tryBlock env true pn pv sess book).
Proof.
  unfold tryBlock. apply Quiet_step.
  { destruct (context sess); [apply Quiet_call | apply Quiet_throw]. }
  intros page. apply Quiet_step; [apply Quiet_withRetry, Quiet_call | intros _].
  apply Quiet_seqTry; [|intros l u; apply Quiet_commonDownload].
  unfold headlessBranch. apply Quiet_step; [apply Quiet_locateHeadless | by intros u s].
Qed.

Lemma QuietS_closePage (p : option Page) (warning : string) : QuietS (closePage env p warning).
Proof.
  intros s Hq. unfold closePage. destruct p as [pg|]; [|exact Hq].
  destruct (negb (page_isClosed env pg (world s))); [|exact Hq].
  apply QuietS_swallow; [apply Quiet_call | intros e; apply QuietS_console_error | exact Hq].
Qed.

Lemma Quiet_catchBlock (sess : Session) (l : Locals) (book : Book) (err : JsError) :
  Quiet (catchBlock env sess l book err).
Proof.
  intros s Hq. unfold catchBlock.
  destruct (isCritical (message err)), (browser sess) as [b|]; cbn [snd];
    try by apply QuietS_console_error.
  apply QuietS_swallow; [apply Quiet_call | intros e; apply QuietS_console_error |].
  assert (Hpages : quiet
            (closePage env (newPageForPdf l)
               "Failed to close newPageForPdf during critical error handling:"
               (closePage env (bookPage l)
                  "Failed to close bookPage during critical error handling:"
                  (console_error
                     "CRITICAL ERROR DETECTED. Scheduling browser restart for next iteration..."
                     (console_error
                        (util_format env ("Error processing " +:+ title book +:+ ":")
                           (message err)) s)))))
    by (by do 2 apply QuietS_closePage; do 2 apply QuietS_console_error).
  destruct (context sess) as [c|]; [|exact Hpages].
  by apply QuietS_swallow; [apply Quiet_call | intros e; apply QuietS_console_error |].
Qed.

Lemma QuietS_finallyBlock (l : Locals) (book : Book) : QuietS (finallyBlock env l book).
Proof. intros s Hq. unfold finallyBlock. by do 2 apply QuietS_closePage. Qed.

Lemma Quiet_processBook_headless (pn pv : string) (sess : Session) (book : Book) :
  Quiet (processBook env true pn pv sess book).
Proof.
  intros s Hq. unfold processBook.
  pose proof (Quiet_tryBlock_headless pn pv sess book s Hq) as Htry.
  destruct (tryBlock env true pn pv sess book s) as [[l [err|[u p]]] s1]; cbn [snd] in Htry.
  - pose proof (Quiet_catchBlock sess l book err s1 Htry) as Hcatch.
    destruct (catchBlock env sess l book err s1) as [[sess1 r1] s2]. cbn [snd negb] in *.
    by apply QuietS_finallyBlock.
  - cbn [snd negb]. by apply QuietS_finallyBlock.
Qed.

Lemma Quiet_run_books_headless (pn pv : string) :
  ∀ books sess, Quiet (run_books env true pn pv books sess).
Proof.
  induction books as [|book books IH]; intros sess s Hq; [exact Hq|].
  cbn [run_books].
  pose proof (Quiet_processBook_headless pn pv sess book s Hq) as Hone.
  destruct (processBook env true pn pv sess book s) as [[sess1 r] s1].
  pose proof (IH sess1 s1 Hone) as Hrest.
  by destruct (run_books env true pn pv books sess1 s1) as [[sess2 rs2] s2].
Qed.

Lemma Quiet_stepS {A B} (sess : Session) (m : M W A)
    (k : A -> St W -> (Session * (JsError + B)) * St W) :
  Quiet m → (∀ a, Quiet (k a)) → Quiet (stepS sess m k).
Proof.
  intros Hm Hk s Hq. unfold stepS. specialize (Hm s Hq).
  destruct (m s) as [[e|a] s1]; [exact Hm|]. by apply Hk.
Qed.

Lemma Quiet_setup (t pn pv : string) (rh : bool) : Quiet (setup env t pn pv rh).
Proof.
  unfold setup. apply Quiet_stepS.
  { intros s Hq. unfold launch. destruct (chromium_launch env _ (world s)).
    by apply (quiet_settle s). }
  intros b.
  repeat (apply Quiet_stepS;
          [first [apply Quiet_call | apply Quiet_withRetry, Quiet_call] | intros ?]).
  by intros s.
Qed.

(** A headless run that reaches the book loop completes it. *)
Lemma scrape_headless_completes (t pn pv : string) (s s1 : St W) (sess : Session)
    (books : list Book) :
  quiet s →
  setup env t pn pv true s = ((sess, inr books), s1) →
  ∃ results, fst (scrapeAndDownloadDocs env JSON_stringify t pn pv true s) = Some results.
Proof.
  intros Hq Hsetup.
  pose proof (Quiet_setup t pn pv true s Hq) as Hq1. rewrite Hsetup in Hq1. cbn [snd] in Hq1.
  pose proof (Quiet_run_books_headless pn pv books sess s1 Hq1) as Hq2.
  destruct (run_books env true pn pv books sess s1) as [[sess' rs] s2] eqn:Hrun.
  rewrite (scrape_after_setup env JSON_stringify _ _ _ _ _ _ _ _ _ _ _ Hsetup Hrun).
  destruct Hq2 as [_ Hterm]. cbn [snd] in Hterm. rewrite Hterm. by exists rs.
Qed.

End Headless.

(** ** The ledger *)


(** C2. For every record [r] of the ledger, with the files as the run
    leaves them: [r.success] is true exactly when [r.pdfUrl] is not null,
    [r.downloadPath] is not null and the file at [r.downloadPath] is not
    empty; and when [r.success] is false, [r.downloadPath] is null. *)
Theorem ledger_success_iff_downloaded {W} (env : Env W)
    (JSON_stringify : list BookResult -> list byte) (t pn pv : string) (rh : bool)
    (s : St W) (results : list BookResult) :
  fst (scrapeAndDownloadDocs env JSON_stringify t pn pv rh s) = Some results →
  ∀ r, r ∈ results →
    (success r = true
     ↔ pdfUrl r ≠ None
       ∧ ∃ p, downloadPath r = Some p
              ∧ nonempty_at
                  (files (snd (scrapeAndDownloadDocs env JSON_stringify t pn pv rh s))) p)
    ∧ (success r = false → downloadPath r = None).
Proof.
  intros Hsome r Hr.
  destruct (scrape_Some env JSON_stringify _ _ _ _ _ _ Hsome)
    as (sess & books & s1 & sess' & s2 & Hsetup & Hrun & _).
  rewrite (scrape_after_setup env JSON_stringify _ _ _ _ _ _ _ _ _ _ _ Hsetup Hrun).
  cbn [snd].
  pose proof (run_books_wf env rh pn pv books sess s1 sess' results s2 Hrun) as Hwf.
  rewrite Forall_forall in Hwf. specialize (Hwf r Hr).
  destruct Hwf as [(Hs & [u Hu] & Hp & Hne)|(Hs & Hu & Hp)].
  - split; [|congruence]. split; [intros _|done].
    split; [congruence|]. exists (download_path pn pv (entry r)). split; [exact Hp|].
    destruct (PresS_outerFinally env sess' (saveResults env JSON_stringify pn pv results s2))
      as [_ Hfin].
    apply Hfin. apply saveResults_ext; [|exact Hne].
    intros Heq. pose proof (download_path_slash pn pv (entry r)) as Hslash.
    rewrite Heq, resultsFilename_no_slash in Hslash. discriminate.
  - split; [|done]. split; [congruence|]. intros [Hnot _]. congruence.
Qed.

Lemma ledger_success_iff_downloaded_witness :
  (success admin_success = true
   ↔ pdfUrl admin_success ≠ None
     ∧ ∃ p, downloadPath admin_success = Some p
            ∧ nonempty_at
                (files (snd (scrapeAndDownloadDocs (env0 (tail books0)) (fun _ => [])
                               "https://docs.redhat.com/en/documentation/prod/1.0"
                               "prod" "1.0" true (st0 0)))) p)
  ∧ (success admin_success = false → downloadPath admin_success = None).
Proof.
  apply (ledger_success_iff_downloaded (env0 (tail books0)) (fun _ => [])
           "https://docs.redhat.com/en/documentation/prod/1.0" "prod" "1.0" true (st0 0)
           [admin_success]).
  - vm_compute. reflexivity.
  - apply list_elem_of_singleton. reflexivity.
Defined.

(** C10, on the code.  In headed mode, when selecting the format fails with
    a message that holds [Target closed], the failure is classified
    critical and line 235 closes the context; that rejects the promise of
    line 174, which nothing awaits, and the process ends inside the [catch]
    block: the record of the failed book is not pushed, the second book of
    [books1] is never processed and gets no record, and nothing is written.
    No browser is launched again. *)
Theorem critical_failure_in_headed_mode_ends_the_run :
  let env := env_headed "page.selectOption: Target closed" 4 in
  let run := scrapeAndDownloadDocs env (fun _ => []) target0 "prod" "1.0" false (st0 0) in
  (∃ sess s1, setup env target0 "prod" "1.0" false (st0 0) = ((sess, inr books1), s1))
  ∧ fst run = None
  ∧ (∃ at_end,
       terminated (snd run) = Some at_end
       ∧ at_console at_end
         = [ "Attempt 1/2 failed for selecting PDF format for Guide: page.selectOption: Target closed";
             "Attempt 2/2 failed for selecting PDF format for Guide: page.selectOption: Target closed";
             "Error during UI PDF interaction for Guide: All 2 attempts failed for selecting PDF format for Guide: page.selectOption: Target closed";
             "Error processing Guide: All 2 attempts failed for selecting PDF format for Guide: page.selectOption: Target closed";
             "CRITICAL ERROR DETECTED. Scheduling browser restart for next iteration..." ]
       ∧ at_files at_end = ∅
       ∧ at_launches at_end = [launchOptions false]).
Proof.
  cbv zeta. split; [|split].
  - eexists _, _. vm_compute. reflexivity.
  - vm_compute. reflexivity.
  - eexists. vm_compute. repeat split.
Qed.

(** ** Critical failures *)

Lemma includes_isCritical (msg : string) :
  includes "Target closed" msg = true → isCritical msg = true.
Proof.
  intros H. unfold isCritical, criticalErrorPatterns. cbn [existsb].
  rewrite H. by rewrite !orb_true_r.
Qed.

(** The flag of the record follows the message: a failure whose message
    contains [Target closed] is recorded as critical, and with a live browser
    the session variables are set to [null]. *)
Lemma critical_message_is_flagged {W} (env : Env W) (rh : bool) (pn pv : string)
    (sess sess' : Session) (book : Book) (r : BookResult) (s s' : St W) (msg : string)
    (b : Browser) :
  processBook env rh pn pv sess book s = ((sess', r), s') →
  error r = Some msg →
  includes "Target closed" msg = true →
  browser sess = Some b →
  success r = false ∧ criticalError r = Some true ∧ sess' = dead.
Proof.
  intros Hrun Herr Hmsg Hb.
  destruct (processBook_spec env _ _ _ _ _ _ _ _ _ Hrun)
    as [_ [(_ & _ & Hnone & _)|(Hs & _ & _ & msg' & Hmsg' & Hcrit & Hsess)]];
    [congruence|].
  assert (msg' = msg) as -> by congruence.
  rewrite (includes_isCritical msg Hmsg) in Hcrit, Hsess. rewrite Hb in Hsess.
  by repeat split.
Qed.

(** C3, on the code.  The listing [books0] has two books; navigation to the
    first fails with a message that contains [Target closed].  Its record is
    flagged critical and the console announces a browser restart for the
    next iteration, but the run launches one browser only: the second book,
    which downloads when it is processed with a live session, fails because
    [context] is [null]. *)
Theorem critical_failure_is_not_followed_by_restart :
  let run books :=
    scrapeAndDownloadDocs (env0 books) (fun _ => [])
      "https://docs.redhat.com/en/documentation/prod/1.0" "prod" "1.0" true (st0 0) in
  (∃ r1 r2,
     fst (run books0) = Some [r1; r2]
     ∧ includes "Target closed" (default "" (error r1)) = true
     ∧ criticalError r1 = Some true
     ∧ r2 = null_failure {| title := "Admin"; url := "https://docs.redhat.com/b/admin" |})
  ∧ "CRITICAL ERROR DETECTED. Scheduling browser restart for next iteration..."
      ∈ console (snd (run books0))
  ∧ launches (snd (run books0)) = [launchOptions true]
  ∧ (∃ r2, fst (run (tail books0)) = Some [r2] ∧ success r2 = true).
Proof.
  cbv zeta. split; [|split; [|split]].
  - eexists _, _. vm_compute. repeat split.
  - vm_compute. set_solver.
  - vm_compute. reflexivity.
  - eexists. vm_compute. repeat split.
Qed.

(** ** Launch options *)

(** C9, as the claim states it, fails: a session that is not headed (run
    headless) gets no slow-motion delay, and a headed one gets it. *)
Lemma launch_not_headed_is_not_slowed :
  (headed true = false ∧ slowMo (launchOptions true) = None)
  ∧ (headed false = true ∧ slowMo (launchOptions false) = Some 1000%Z).
Proof. repeat split. Qed.

(** C9, amended.  The slow-motion delay of 1000 ms is set exactly when the
    session is headed; a session that is not headed runs without it.  These
    are the options the browser is launched with. *)
Theorem launch_slows_headed_sessions_only {W} (env : Env W) (t pn pv : string)
    (runHeadless : bool) (s : St W) :
  slowMo (launchOptions runHeadless) = (if headed runHeadless then Some 1000%Z else None)
  ∧ headless (launchOptions runHeadless) = runHeadless
  ∧ launches (snd (setup env t pn pv runHeadless s))
    = launches s ++ [launchOptions runHeadless].
Proof.
  split; [by destruct runHeadless|]. split; [reflexivity|].
  unfold setup, stepS at 1, launch.
  destruct (chromium_launch env (launchOptions runHeadless) (world s)) as [[e|b] w];
    [by st_simpl|].
  match goal with
  | |- launches (snd (?f ?s0)) = _ =>
      assert (H : Pres f); [|destruct (H s0) as [-> _]; by st_simpl]
  end.
  assert (HstepS : ∀ A B sess (m : M W A)
            (k : A -> St W -> (Session * (JsError + B)) * St W),
            Pres m → (∀ a, Pres (k a)) → Pres (stepS sess m k)).
  { intros A B sess m k Hm Hk s0. unfold stepS. specialize (Hm s0).
    destruct (m s0) as [[e|a] s1]; [exact Hm|].
    eapply ext_trans; [exact Hm | apply Hk]. }
  repeat (apply HstepS;
          [first [apply Pres_call | apply Pres_withRetry, Pres_call] | intros ?]).
  intros s0. apply ext_refl.
Qed.

(** ** File names *)

Lemma illegal_in_filename_forbidden (c : ascii) :
  illegal_in_filename c = true ↔ In c forbidden.
Proof.
  unfold illegal_in_filename, char_in. rewrite existsb_exists. split.
  - intros [x [Hin Heq]]. apply Ascii.eqb_eq in Heq. subst x.
    cbv in Hin |- *. intuition.
  - intros Hin. exists c. split; [|apply Ascii.eqb_refl].
    cbv in Hin |- *. intuition.
Qed.

Lemma sanitizeTitle_cons (c : ascii) (t : string) :
  sanitizeTitle (String c t)
  = String (if illegal_in_filename c then "_"%char else c) (sanitizeTitle t).
Proof. unfold sanitizeTitle. cbn [replace_class]. by destruct (illegal_in_filename c). Qed.

Lemma sanitizeTitle_chars (t : string) :
  String.length (sanitizeTitle t) = String.length t
  ∧ ∀ i, String.get i (sanitizeTitle t)
         = option_map (fun c => if illegal_in_filename c then "_"%char else c)
             (String.get i t).
Proof.
  induction t as [|c t [IHlen IHget]]; [split; [reflexivity | intros i; reflexivity]|].
  rewrite sanitizeTitle_cons. split.
  - cbn. by rewrite IHlen.
  - intros [|i]; [reflexivity | apply IHget].
Qed.

(** C7. The record of a successful download names the file
    [downloads/<name>.pdf], which exists, where [<name>] is
    [productName-productVersion-title] with every character among slash,
    backslash, colon, star, question mark, double quote, less-than,
    greater-than and bar replaced by an underscore and every other character
    kept; for [p], [v] and the title [A/B:C*D] the file name is
    [p-v-A_B_C_D.pdf]. *)
Theorem download_file_name {W} (env : Env W) (rh : bool) (pn pv : string)
    (sess sess' : Session) (book : Book) (r : BookResult) (s s' : St W) :
  processBook env rh pn pv sess book s = ((sess', r), s') →
  success r = true →
  let name := sanitizeTitle (pn +:+ "-" +:+ pv +:+ "-" +:+ title book) +:+ ".pdf" in
  downloadPath r = Some ("downloads/" +:+ name)
  ∧ nonempty_at (files s') ("downloads/" +:+ name)
  ∧ (∀ c, illegal_in_filename c = true ↔ In c forbidden)
  ∧ (∀ t, String.length (sanitizeTitle t) = String.length t
          ∧ ∀ i, String.get i (sanitizeTitle t)
                 = option_map (fun c => if illegal_in_filename c then "_"%char else c)
                     (String.get i t))
  ∧ (pn = "p" → pv = "v" → title book = "A/B:C*D" → name = "p-v-A_B_C_D.pdf").
Proof.
  intros Hrun Hsuccess name.
  destruct (processBook_spec env _ _ _ _ _ _ _ _ _ Hrun)
    as [_ [(_ & _ & _ & _ & u & _ & _ & Hpath & Hfile)|(Hfalse & _)]]; [|congruence].
  split; [exact Hpath|]. split; [exact Hfile|].
  split; [exact illegal_in_filename_forbidden|]. split; [exact sanitizeTitle_chars|].
  intros -> -> Htitle. subst name. rewrite Htitle. reflexivity.
Qed.

Lemma download_file_name_witness :
  let out := processBook (env0 []) false "p" "v" live book_ABCD (st0 0) in
  success (snd (fst out)) = true
  ∧ downloadPath (snd (fst out)) = Some "downloads/p-v-A_B_C_D.pdf"
  ∧ nonempty_at (files (snd out)) "downloads/p-v-A_B_C_D.pdf".
Proof.
  cbv zeta.
  destruct (processBook (env0 []) false "p" "v" live book_ABCD (st0 0))
    as [[sess' r] s'] eqn:Hrun.
  assert (Hsuccess : success r = true).
  { vm_compute in Hrun. by injection Hrun as _ <- _. }
  destruct (download_file_name (env0 []) false "p" "v" live sess' book_ABCD r (st0 0) s'
              Hrun Hsuccess) as (Hpath & Hfile & _ & _ & Hname).
  split; [exact Hsuccess|].
  rewrite (Hname eq_refl eq_refl eq_refl) in Hpath, Hfile. by split.
Defined.

(** ** The headless locator *)

Lemma sapp_assoc (a b c : string) : (a +:+ b) +:+ c = a +:+ (b +:+ c).
Proof.
  induction a as [|x a IH]; [reflexivity|].
  change (String x ((a +:+ b) +:+ c) = String x (a +:+ (b +:+ c))). by rewrite IH.
Qed.

Lemma sapp_nil_r (a : string) : a +:+ "" = a.
Proof.
  induction a as [|x a IH]; [reflexivity|].
  change (String x (a +:+ "") = String x a). by rewrite IH.
Qed.

Lemma slength_app (a b : string) :
  String.length (a +:+ b) = String.length a + String.length b.
Proof.
  induction a as [|x a IH]; [reflexivity|].
  change (S (String.length (a +:+ b)) = S (String.length a + String.length b)).
  by rewrite IH.
Qed.

Lemma replace_class_app (class : ascii -> bool) (f : ascii -> string) (a b : string) :
  replace_class class f (a +:+ b) = replace_class class f a +:+ replace_class class f b.
Proof.
  induction a as [|x a IH]; [reflexivity|].
  change (String x a +:+ b) with (String x (a +:+ b)).
  cbn [replace_class]. by rewrite IH, sapp_assoc.
Qed.

Lemma replace_class_length (class : ascii -> bool) (f : ascii -> string) (a : string) :
  (∀ c, 1 ≤ String.length (f c)) →
  String.length a ≤ String.length (replace_class class f a).
Proof.
  intros Hf. induction a as [|x a IH]; [reflexivity|].
  cbn [replace_class]. rewrite slength_app. cbn [String.length].
  destruct (class x); [specialize (Hf x)|cbn]; lia.
Qed.

Lemma escapeRegExp_cons (c : ascii) (s rest : string) :
  escapeRegExp (String c s) +:+ rest = escaped_char c +:+ (escapeRegExp s +:+ rest).
Proof. unfold escapeRegExp. cbn [replace_class]. by rewrite sapp_assoc. Qed.

Lemma parse_atom_escaped_char (c : ascii) (rest : string) :
  parse_atom (escaped_char c +:+ rest) = Some (Lit c, rest).
Proof. destruct c as [[] [] [] [] [] [] [] []]; reflexivity. Qed.

Lemma escaped_char_not_close (c : ascii) (rest : string) :
  String.eqb (escaped_char c +:+ rest) ")" = false.
Proof. destruct c as [[] [] [] [] [] [] [] []]; reflexivity. Qed.

Lemma escaped_char_not_plus (c : ascii) (rest : string) :
  strip_char "+" (escaped_char c +:+ rest) = None.
Proof. destruct c as [[] [] [] [] [] [] [] []]; reflexivity. Qed.

Lemma escapeRegExp_not_plus (s rest : string) :
  strip_char "+" rest = None → strip_char "+" (escapeRegExp s +:+ rest) = None.
Proof.
  intros Hrest. destruct s as [|c s]; [exact Hrest|].
  rewrite escapeRegExp_cons. apply escaped_char_not_plus.
Qed.

(** The escaped form of a string parses as the string itself, character by
    character. *)
Lemma parse_items_escaped (s : string) :
  ∀ fuel rest,
    strip_char "+" rest = None →
    parse_items (String.length s + fuel) (escapeRegExp s +:+ rest)
    = option_map (app (lits s)) (parse_items fuel rest).
Proof.
  induction s as [|c s IH]; intros fuel rest Hrest.
  - change (parse_items fuel rest = option_map (app []) (parse_items fuel rest)).
    by destruct (parse_items fuel rest).
  - rewrite escapeRegExp_cons. cbn [String.length Nat.add parse_items].
    rewrite escaped_char_not_close, parse_atom_escaped_char.
    rewrite (escapeRegExp_not_plus s rest Hrest), (IH fuel rest Hrest).
    by destruct (parse_items fuel rest).
Qed.

Lemma parse_items_more_fuel :
  ∀ fuel s its fuel',
    parse_items fuel s = Some its → fuel ≤ fuel' → parse_items fuel' s = Some its.
Proof.
  induction fuel as [|fuel IH]; intros s its fuel' Hparse Hle; [discriminate|].
  destruct fuel' as [|fuel']; [lia|].
  cbn [parse_items] in *.
  destruct (String.eqb s ")"); [exact Hparse|].
  destruct (parse_atom s) as [[a rest]|]; [|discriminate].
  destruct (strip_char "+" rest) as [rest'|].
  - destruct (parse_items fuel rest') as [its'|] eqn:Hrec; [|discriminate].
    by rewrite (IH rest' its' fuel' Hrec ltac:(lia)).
  - destruct (parse_items fuel rest) as [its'|] eqn:Hrec; [|discriminate].
    by rewrite (IH rest its' fuel' Hrec ltac:(lia)).
Qed.

Lemma pdfLinkSource_escaped (pn pv : string) :
  pdfLinkSource (escapeRegExp pn) (escapeRegExp pv)
  = String "(" (escapeRegExp (pdfLinkPrefix pn pv)
                +:+ ("[^" +:+ String dquote "]+" +:+ (escapeRegExp ".pdf" +:+ ")"))).
Proof.
  unfold pdfLinkSource, pdfLinkPrefix, escapeRegExp.
  rewrite !replace_class_app, !sapp_assoc. reflexivity.
Qed.

(** The product name and version are taken literally: whatever they
    contain, the expression built at lines 150-154 is the prefix with the
    name and the version in it, one or more characters other than a double
    quote, and [.pdf]. *)
Lemma parse_regex_pdfLinkSource (pn pv : string) :
  parse_regex (pdfLinkSource (escapeRegExp pn) (escapeRegExp pv))
  = Some (pdfLinkItems pn pv).
Proof.
  rewrite pdfLinkSource_escaped. unfold parse_regex. cbn [strip_char].
  rewrite Ascii.eqb_refl.
  apply (parse_items_more_fuel (String.length (pdfLinkPrefix pn pv) + 6)).
  - rewrite parse_items_escaped by reflexivity. reflexivity.
  - cbn [String.length]. rewrite slength_app.
    pose proof (replace_class_length regex_special
                  (fun c => String "\" (String c EmptyString)) (pdfLinkPrefix pn pv)
                  ltac:(intros c; cbn; lia)) as Hlen.
    fold (escapeRegExp (pdfLinkPrefix pn pv)) in Hlen.
    change (String.length ("[^" +:+ String dquote "]+" +:+ (escapeRegExp ".pdf" +:+ ")")))
      with 11.
    lia.
Qed.

Lemma plus_loop_sound (a : atom) (k : string -> option string) (its : list item) :
  (∀ s m, k s = Some m → (∃ r, s = m +:+ r) ∧ matches its m) →
  ∀ s m, plus_loop a k s = Some m → (∃ r, s = m +:+ r) ∧ matches (Plus a :: its) m.
Proof.
  intros Hk. induction s as [|x s IH]; intros m; cbn [plus_loop]; [discriminate|].
  destruct (atom_matches a x) eqn:Hx; [|discriminate].
  destruct (plus_loop a k s) as [m1|] eqn:Hloop.
  - intros [= <-].
    destruct (IH m1 eq_refl) as [[r ->] (xs & m' & -> & Hne & Hall & Hm')].
    split; [by exists r|].
    exists (String x xs), m'. split; [reflexivity|]. split; [discriminate|].
    split; [cbn; by rewrite Hx, Hall | exact Hm'].
  - destruct (k s) as [m1|] eqn:Hks; [|discriminate]. cbn. intros [= <-].
    destruct (Hk s m1 Hks) as [[r ->] Hm1]. split; [by exists r|].
    exists (String x ""), m1. split; [reflexivity|]. split; [discriminate|].
    split; [cbn; by rewrite Hx | exact Hm1].
Qed.

(** What [match_here] returns is a prefix of the text and is matched by the
    items. *)
Lemma match_here_sound :
  ∀ its s m, match_here its s = Some m → (∃ r, s = m +:+ r) ∧ matches its m.
Proof.
  induction its as [|[a|a] its IH]; intros s m; cbn [match_here].
  - intros [= <-]. split; [by exists s | reflexivity].
  - destruct s as [|x s]; [discriminate|].
    destruct (atom_matches a x) eqn:Hx; [|discriminate].
    destruct (match_here its s) as [m1|] eqn:Hrec; [|discriminate].
    cbn. intros [= <-]. destruct (IH s m1 Hrec) as [[r ->] Hm].
    split; [by exists r | by exists x, m1].
  - apply plus_loop_sound. exact IH.
Qed.

Lemma regex_search_sound (its : list item) :
  ∀ s m, regex_search its s = Some m → ∃ a b, s = a +:+ m +:+ b ∧ matches its m.
Proof.
  induction s as [|x s IH]; intros m; cbn [regex_search].
  - destruct (match_here its "") as [m1|] eqn:H; [|discriminate].
    intros [= <-]. apply match_here_sound in H as [[r Hr] Hm]. by exists "", r.
  - destruct (match_here its (String x s)) as [m1|] eqn:H.
    + intros [= <-]. apply match_here_sound in H as [[r Hr] Hm]. by exists "", r.
    + intros Hs. destruct (IH m Hs) as (a & b & -> & Hm). by exists (String x a), b.
Qed.

Lemma matches_lits (p : string) (its : list item) :
  ∀ m, matches (lits p ++ its) m →
       ∃ h m', m = h +:+ m' ∧ ci_eqb p h = true ∧ matches its m'.
Proof.
  induction p as [|c p IH]; intros m.
  - cbn [lits app]. intros Hm. by exists "", m.
  - cbn [lits app matches atom_matches]. intros (x & m1 & -> & Hx & Hm1).
    destruct (IH m1 Hm1) as (h & m' & -> & Hh & Hm').
    exists (String x h), m'. split; [reflexivity|]. split; [|exact Hm'].
    cbn [ci_eqb]. by rewrite Hx, Hh.
Qed.

Lemma atom_matches_not_dquote (x : ascii) :
  atom_matches (NotChars [dquote]) x = not_dquote x.
Proof. destruct x as [[] [] [] [] [] [] [] []]; reflexivity. Qed.

Lemma all_chars_ext (P Q : ascii -> bool) (s : string) :
  (∀ c, P c = Q c) → all_chars P s = all_chars Q s.
Proof. intros H. induction s as [|c s IH]; [reflexivity|]. cbn. by rewrite H, IH. Qed.

Lemma matches_pdfLinkItems (pn pv m : string) :
  matches (pdfLinkItems pn pv) m → pdf_link_shape pn pv m.
Proof.
  unfold pdfLinkItems. intros Hm.
  apply matches_lits in Hm as (h & m1 & -> & Hh & Hm1).
  cbn [matches] in Hm1. destruct Hm1 as (mid & t & -> & Hne & Hall & Ht).
  assert (Htail : ci_eqb ".pdf" t = true).
  { change (lits ".pdf") with (lits ".pdf" ++ []) in Ht.
    apply matches_lits in Ht as (t1 & t2 & -> & Ht1 & Ht2).
    cbn in Ht2. subst t2. by rewrite sapp_nil_r. }
  exists h, mid, t. split; [reflexivity|]. split; [exact Hh|]. split; [exact Hne|].
  split; [|exact Htail].
  rewrite <- Hall. apply all_chars_ext. intros c. by rewrite atom_matches_not_dquote.
Qed.

Lemma locateHeadless_matchPdfLink {W} (env : Env W) (page : Page) (pn pv : string)
    (book : Book) (s : St W) (markup : string) (w : W) :
  page_content env page (world s) = (inr markup, w) →
  fst (locateHeadless env page pn pv book s) = matchPdfLink markup pn pv (title book).
Proof.
  intros Hcontent. unfold locateHeadless, bind, call. rewrite Hcontent.
  by destruct (matchPdfLink markup pn pv (title book)).
Qed.

(** C8, as the claim states it, fails: for the product [prod], version
    [1.0] and a page whose markup links
    [https://docs.example.com/en/documentation/prod/1.0/pdf/guide.pdf], the
    headless locator does not return that link; it throws. *)
Lemma locate_misses_link_on_other_host :
  fst (locateHeadless (env_with (link_markup example_url) []) 1 "prod" "1.0" book_guide
         (st0 0))
  = inl (Error "Regex failed to find specific PDF link for Guide.").
Proof. vm_compute. reflexivity. Qed.

(** On the host of the script the match is greedy: it runs to the last
    [.pdf] before the next double quote, so a link that no double quote
    closes is returned with what follows it. *)
Lemma locate_is_greedy :
  matchPdfLink (guide_url +:+ " or x.pdf" +:+ String dquote "") "prod" "1.0" "Guide"
  = inr (guide_url +:+ " or x.pdf").
Proof. vm_compute. reflexivity. Qed.

Lemma downloadPdf_writes_only_on_success_witness :
  (fst (downloadPdf (env0 []) "https://docs.redhat.com/missing.pdf" "t" (st0 0))
   = inl (Error "Failed to download PDF. Status code: 404 for https://docs.redhat.com/missing.pdf")
   ∧ files (snd (downloadPdf (env0 []) "https://docs.redhat.com/missing.pdf" "t" (st0 0)))
     = ∅)
  ∧ (fst (downloadPdf (env0 []) "https://docs.redhat.com/empty.pdf" "t" (st0 0))
     = inl (Error "Downloaded PDF for t is empty.")
     ∧ files (snd (downloadPdf (env0 []) "https://docs.redhat.com/empty.pdf" "t" (st0 0)))
       = ∅).
Proof.
  split.
  - destruct (downloadPdf_writes_only_on_success (env0 [])
                "https://docs.redhat.com/missing.pdf" "t" (st0 0)) as [Hstatus _].
    apply (Hstatus 404%Z [] BodyEnd 1); [reflexivity | lia].
  - destruct (downloadPdf_writes_only_on_success (env0 [])
                "https://docs.redhat.com/empty.pdf" "t" (st0 0)) as (_ & Hempty & _).
    apply (Hempty [[]; []] 1); reflexivity.
Defined.

(** * Further properties of the script *)

(** ** withRetry, for every action *)

Section RetryAnyAction.
Context {W A : Type} (act : M W A) (label : string) (m : nat).

Lemma withRetry_loop_inl (e : JsError) :
  ∀ remaining attempt lastError (s : St W),
    (∀ err, lastError = Some err → thrown_by act err) →
    (remaining = 0 → lastError ≠ None) →
    fst (withRetry_loop act label m remaining attempt lastError s) = inl e →
    ∃ err, thrown_by act err
           ∧ e = Error ("All " +:+ show_nat (m + 1) +:+ " attempts failed for "
                        +:+ label +:+ ": " +:+ message err).
Proof.
  induction remaining as [|remaining IH]; intros attempt lastError s Hlast Hsome.
  - destruct lastError as [err|]; [|by destruct (Hsome eq_refl)].
    cbn -[show_nat]. intros [= <-]. exists err. split; [by apply Hlast | reflexivity].
  - cbn -[show_nat backoff_delay Nat.ltb].
    destruct (act s) as [[err|v] s1] eqn:Hact; [|discriminate].
    apply IH.
    + intros err' [= <-]. by exists s, s1.
    + discriminate.
Qed.

Lemma withRetry_loop_slept :
  (∀ s0, slept (snd (act s0)) = slept s0) →
  ∀ remaining attempt lastError (s : St W),
    attempt + remaining = m + 1 →
    ∃ j, j ≤ pred remaining
         ∧ slept (snd (withRetry_loop act label m remaining attempt lastError s))
           = slept s ++ map backoff_delay (seq attempt j)
         ∧ (∀ e, fst (withRetry_loop act label m remaining attempt lastError s) = inl e →
                 j = pred remaining).
Proof.
  intros Hact. induction remaining as [|remaining IH]; intros attempt lastError s Hsum.
  - exists 0. cbn. destruct lastError; cbn; by rewrite app_nil_r.
  - cbn -[show_nat backoff_delay Nat.ltb]. specialize (Hact s).
    destruct (act s) as [[err|v] s1]; cbn [snd] in Hact.
    + destruct remaining as [|remaining].
      * assert (Hlt : (attempt <? m) = false) by (apply Nat.ltb_ge; lia).
        rewrite Hlt. exists 0. cbn -[show_nat]. rewrite app_nil_r. by rewrite Hact.
      * assert (Hlt : (attempt <? m) = true) by (apply Nat.ltb_lt; lia).
        rewrite Hlt.
        match goal with
        | |- context [withRetry_loop _ _ _ _ _ ?l ?s'] =>
            destruct (IH (attempt + 1) l s' ltac:(lia)) as (j & Hj & Hslept & Hfail)
        end.
        exists (S j). split; [cbn in *; lia|]. split.
        -- rewrite Hslept. cbn [slept sleep console_error with_world]. rewrite Hact, <- app_assoc.
           cbn [seq map app]. by replace (attempt + 1) with (S attempt) by lia.
        -- intros e He. cbn [pred] in *. by rewrite (Hfail e He).
    + exists 0. cbn [fst snd seq map]. rewrite app_nil_r. split; [lia|]. by split.
Qed.

End RetryAnyAction.

(** X1. Whatever the action, when [withRetry] fails its error is
    ["All <retryCount+1> attempts failed for <label>: <message>"] where the
    message is that of an error the action has thrown; the error of reading
    [message] from an unset [lastError] is never thrown. *)
Theorem withRetry_failure_reports_action_error {W A} (act : M W A) (label : string)
    (m : nat) (s : St W) (e : JsError) :
  fst (withRetry act label m s) = inl e →
  ∃ err s0 s1,
    act s0 = (inl err, s1)
    ∧ e = Error ("All " +:+ show_nat (m + 1) +:+ " attempts failed for "
                 +:+ label +:+ ": " +:+ message err).
Proof.
  unfold withRetry. intros He.
  apply withRetry_loop_inl in He as (err & (s0 & s1 & Hact) & ->).
  - by exists err, s0, s1.
  - discriminate.
  - lia.
Qed.

Lemma withRetry_failure_reports_action_error_witness :
  ∃ err s0 s1,
    scripted (fun _ => inl (Error "boom") : JsError + nat) s0 = (inl err, s1)
    ∧ Error "All 3 attempts failed for fetch: boom"
      = Error ("All " +:+ show_nat (2 + 1) +:+ " attempts failed for "
               +:+ "fetch" +:+ ": " +:+ message err).
Proof.
  apply (withRetry_failure_reports_action_error
           (scripted (fun _ => inl (Error "boom") : JsError + nat)) "fetch" 2 (st0 0)).
  reflexivity.
Defined.

(** X2. [withRetry] returns a value only when a call of the action returned
    it, and then leaves the state as that call left it: nothing is logged or
    waited after the success.  When the first call succeeds, [withRetry] is
    that call. *)
Theorem withRetry_success_is_a_call {W A} (act : M W A) (label : string) (m : nat)
    (s : St W) :
  (∀ v s', withRetry act label m s = (inr v, s') → ∃ s0, act s0 = (inr v, s'))
  ∧ (∀ v s', act s = (inr v, s') → withRetry act label m s = (inr v, s')).
Proof.
  split.
  - intros v s' H. by apply withRetry_loop_inr in H.
  - intros v s' H. unfold withRetry. rewrite Nat.add_1_r.
    cbn -[show_nat backoff_delay Nat.ltb]. by rewrite H.
Qed.

(** X3. The backoff delay is between 1000 and 10000 ms, never decreases
    with the attempt, doubles from 1000 up to attempt 3 and is 10000 from
    attempt 4 on. *)
Theorem backoff_delay_bounds (a b : nat) :
  (1000 ≤ backoff_delay a ≤ 10000)%Z
  ∧ (a ≤ b → (backoff_delay a ≤ backoff_delay b)%Z)
  ∧ (a ≤ 3 → backoff_delay a = (1000 * 2 ^ Z.of_nat a)%Z)
  ∧ (4 ≤ a → backoff_delay a = 10000%Z).
Proof.
  unfold backoff_delay.
  assert (Hpow : ∀ n : nat, (1 ≤ 2 ^ Z.of_nat n)%Z).
  { intros n. apply (Z.pow_le_mono_r 2 0 (Z.of_nat n)); lia. }
  assert (Hmono : ∀ x y : nat, x ≤ y → (2 ^ Z.of_nat x ≤ 2 ^ Z.of_nat y)%Z).
  { intros x y Hxy. apply Z.pow_le_mono_r; lia. }
  split; [|split; [|split]].
  - specialize (Hpow a). lia.
  - intros Hab. specialize (Hmono a b Hab). lia.
  - intros Ha. specialize (Hmono a 3 Ha). change (2 ^ Z.of_nat 3)%Z with 8%Z in Hmono. lia.
  - intros Ha. specialize (Hmono 4 a Ha). change (2 ^ Z.of_nat 4)%Z with 16%Z in Hmono. lia.
Qed.

(** X4. For an action that does not wait itself, the delays [withRetry]
    waits are the backoff schedule from attempt 0, cut after some [j] of at
    most [retryCount] steps: each at most 10 s, never one after the last
    attempt; when [withRetry] fails, all [retryCount] delays were waited. *)
Theorem withRetry_waits_along_schedule {W A} (act : M W A) (label : string) (m : nat)
    (s : St W) :
  (∀ s0, slept (snd (act s0)) = slept s0) →
  ∃ j, j ≤ m
       ∧ slept (snd (withRetry act label m s)) = slept s ++ backoff_schedule j
       ∧ (∀ e, fst (withRetry act label m s) = inl e → j = m).
Proof.
  intros Hact. unfold withRetry, backoff_schedule.
  destruct (withRetry_loop_slept act label m Hact (m + 1) 0 None s eq_refl)
    as (j & Hj & Hslept & Hfail).
  rewrite Nat.add_1_r in *. cbn [pred] in *. by exists j.
Qed.

Lemma withRetry_waits_along_schedule_witness :
  ∃ j, j ≤ 3
       ∧ slept (snd (withRetry (scripted (fun i => if (i <? 2)%nat
                                                    then inl (Error "boom") else inr 42))
                       "fetch" 3 (st0 0)))
         = slept (st0 0) ++ backoff_schedule j
       ∧ (∀ e, fst (withRetry (scripted (fun i => if (i <? 2)%nat
                                                   then inl (Error "boom") else inr 42))
                      "fetch" 3 (st0 0)) = inl e → j = 3).
Proof.
  apply (withRetry_waits_along_schedule
           (scripted (fun i => if (i <? 2)%nat then inl (Error "boom") else inr 42))
           "fetch" 3 (st0 0)).
  intros s0. reflexivity.
Defined.

(** ** downloadPdf: names and errors *)

Lemma sanitizeTitle_legal (t : string) : all_chars legal_in_filename (sanitizeTitle t) = true.
Proof.
  unfold sanitizeTitle. apply all_chars_replace_class.
  - intros c Hc. unfold legal_in_filename. by rewrite Hc.
  - intros c. reflexivity.
Qed.

Lemma sanitizeTitle_fixed (t : string) :
  all_chars legal_in_filename t = true → sanitizeTitle t = t.
Proof.
  induction t as [|c t IH]; [reflexivity|].
  cbn [all_chars]. intros H. apply andb_true_iff in H as [Hc Ht].
  rewrite sanitizeTitle_cons, (IH Ht).
  unfold legal_in_filename in Hc. apply negb_true_iff in Hc. by rewrite Hc.
Qed.

Lemma all_chars_impl (P Q : ascii -> bool) (s : string) :
  (∀ c, P c = true → Q c = true) → all_chars P s = true → all_chars Q s = true.
Proof.
  intros HPQ. induction s as [|c s IH]; [reflexivity|].
  cbn [all_chars]. intros H. apply andb_true_iff in H as [Hc Hs].
  by rewrite (HPQ c Hc), (IH Hs).
Qed.

Lemma legal_not_slash (c : ascii) : legal_in_filename c = true → not_slash c = true.
Proof.
  unfold not_slash. destruct (Ascii.eqb_spec c "/"%char) as [->|Hc]; [|reflexivity].
  vm_compute. discriminate.
Qed.

Lemma endsWith_app (p t : string) : endsWith p (t +:+ p) = true.
Proof.
  induction t as [|c t IH].
  - change ("" +:+ p) with p. destruct p; cbn [endsWith]; by rewrite String.eqb_refl.
  - change (String c t +:+ p) with (String c (t +:+ p)).
    cbn [endsWith]. rewrite IH. apply orb_true_r.
Qed.

(** X5. Whatever the title, the path [downloadPdf] returns is
    [downloads/<name>] where [<name>] ends in [.pdf] and holds no slash, no
    backslash and none of the other replaced characters: the file is always
    a direct child of [downloads], never elsewhere. *)
Theorem downloadPdf_stays_in_downloads {W} (env : Env W) (url title : string) (s : St W)
    (p : string) :
  fst (downloadPdf env url title s) = inr p →
  ∃ name,
    p = "downloads/" +:+ name
    ∧ endsWith ".pdf" name = true
    ∧ all_chars legal_in_filename name = true
    ∧ all_chars not_slash name = true.
Proof.
  intros Hp. destruct (downloadPdf_inr env url title s p Hp) as [-> _].
  exists (sanitizeTitle title +:+ ".pdf"). split; [reflexivity|].
  assert (Hlegal : all_chars legal_in_filename (sanitizeTitle title +:+ ".pdf") = true)
    by (rewrite all_chars_app, sanitizeTitle_legal; reflexivity).
  split; [apply endsWith_app|]. split; [exact Hlegal|].
  exact (all_chars_impl _ _ _ legal_not_slash Hlegal).
Qed.

Lemma downloadPdf_stays_in_downloads_witness :
  ∃ name,
    "downloads/.._.._etc_passwd.pdf" = "downloads/" +:+ name
    ∧ endsWith ".pdf" name = true
    ∧ all_chars legal_in_filename name = true
    ∧ all_chars not_slash name = true.
Proof.
  apply (downloadPdf_stays_in_downloads (env0 []) "https://docs.redhat.com/x.pdf"
           "../../etc/passwd" (st0 0)).
  reflexivity.
Defined.

(** X6. Sanitising a title twice is sanitising it once; a title is left as
    it is exactly when it has none of the replaced characters, and the result
    never has one. *)
Theorem sanitizeTitle_idempotent (t : string) :
  sanitizeTitle (sanitizeTitle t) = sanitizeTitle t
  ∧ all_chars legal_in_filename (sanitizeTitle t) = true
  ∧ (sanitizeTitle t = t ↔ all_chars legal_in_filename t = true).
Proof.
  split; [apply sanitizeTitle_fixed, sanitizeTitle_legal|].
  split; [apply sanitizeTitle_legal|]. split.
  - intros <-. apply sanitizeTitle_legal.
  - apply sanitizeTitle_fixed.
Qed.

(** X7. Every error of [downloadPdf] is either what [https.get] threw when
    it was called (an invalid URL, a protocol other than [https:]), passed on
    as it came, or one of the five the function builds: the request error,
    the status error, the body error, the empty-body error or the write
    error (what [mkdir], unless it reports [EEXIST], or [writeFile] threw);
    those five have no [code]. *)
Theorem downloadPdf_error_forms {W} (env : Env W) (url title : string) (s : St W)
    (e : JsError) :
  fst (downloadPdf env url title s) = inl e →
  (∃ w, https_get env url (world s) = (GetThrows e, w))
  ∨ (code e = None
     ∧ ((∃ msg, message e = "HTTPS error for PDF " +:+ title +:+ ": " +:+ msg)
        ∨ (∃ status, status ≠ 200%Z
                     ∧ message e = "Failed to download PDF. Status code: " +:+ show_Z status
                                   +:+ " for " +:+ url)
        ∨ (∃ msg, message e = "HTTPS request error for PDF " +:+ title +:+ ": " +:+ msg)
        ∨ message e = "Downloaded PDF for " +:+ title +:+ " is empty."
        ∨ (∃ msg, message e = "Error writing PDF file for " +:+ title +:+ ": " +:+ msg))).
Proof.
  unfold downloadPdf.
  destruct (https_get env url (world s)) as [[err|err|statusCode chunks fin] w].
  { intros [= <-]. left. by exists w. }
  { intros [= <-]. right. split; [reflexivity|]. left. by exists (message err). }
  destruct (statusCode =? 200)%Z eqn:Hst; cbn [negb].
  2:{ intros [= <-]. right. split; [reflexivity|]. right; left. exists statusCode.
      split; [by apply Z.eqb_neq | reflexivity]. }
  destruct fin as [|err].
  2:{ intros [= <-]. right. split; [reflexivity|]. do 2 right; left.
      by exists (message err). }
  destruct (length (concat chunks) =? 0).
  { intros [= <-]. right. split; [reflexivity|]. do 3 right; left. reflexivity. }
  unfold try_catch, bind, call, writeFile, ret, throw. st_simpl.
  destruct (fs_mkdir env "downloads" w) as [[err|[]] w1].
  - destruct (decide (code err = Some "EEXIST")).
    + st_simpl.
      destruct (fs_writeFile env _ _ w1) as [[err2|u] w2]; [|discriminate].
      intros [= <-]. right. split; [reflexivity|]. do 4 right. by exists (message err2).
    + intros [= <-]. right. split; [reflexivity|]. do 4 right. by exists (message err).
  - st_simpl.
    destruct (fs_writeFile env _ _ w1) as [[err2|u] w2]; [|discriminate].
    intros [= <-]. right. split; [reflexivity|]. do 4 right. by exists (message err2).
Qed.

Lemma downloadPdf_error_forms_witness :
  (∃ w, https_get (env0 []) "http://docs.redhat.com/guide.pdf" (world (st0 0))
        = (GetThrows invalid_protocol, w))
  ∨ (code invalid_protocol = None
     ∧ ((∃ msg, message invalid_protocol = "HTTPS error for PDF " +:+ "t" +:+ ": " +:+ msg)
        ∨ (∃ status, status ≠ 200%Z
                     ∧ message invalid_protocol
                       = "Failed to download PDF. Status code: " +:+ show_Z status
                         +:+ " for " +:+ "http://docs.redhat.com/guide.pdf")
        ∨ (∃ msg, message invalid_protocol
                  = "HTTPS request error for PDF " +:+ "t" +:+ ": " +:+ msg)
        ∨ message invalid_protocol = "Downloaded PDF for " +:+ "t" +:+ " is empty."
        ∨ (∃ msg, message invalid_protocol
                  = "Error writing PDF file for " +:+ "t" +:+ ": " +:+ msg))).
Proof.
  apply (downloadPdf_error_forms (env0 []) "http://docs.redhat.com/guide.pdf" "t"
           (st0 0)).
  reflexivity.
Defined.

(** X8. Two titles that differ only in replaced characters name the same
    file: when both downloads succeed, the second returns the path of the
    first and the file then holds the body of the second response. *)
Theorem downloadPdf_same_name_overwrites {W} (env : Env W) (url1 url2 title1 title2 : string)
    (s : St W) (p1 p2 : string) :
  sanitizeTitle title1 = sanitizeTitle title2 →
  fst (downloadPdf env url1 title1 s) = inr p1 →
  fst (downloadPdf env url2 title2 (snd (downloadPdf env url1 title1 s))) = inr p2 →
  p2 = p1
  ∧ ∃ chunks w,
      https_get env url2 (world (snd (downloadPdf env url1 title1 s)))
      = (Response 200 chunks BodyEnd, w)
      ∧ files (snd (downloadPdf env url2 title2 (snd (downloadPdf env url1 title1 s))))
        !! p1 = Some (concat chunks).
Proof.
  intros Hsame H1 H2.
  destruct (downloadPdf_inr env url1 title1 s p1 H1) as [-> _].
  destruct (downloadPdf_inr env url2 title2 _ p2 H2) as (-> & _ & chunks & w & Hget & _ & Hfiles).
  rewrite Hsame. split; [reflexivity|]. exists chunks, w. split; [exact Hget|].
  rewrite Hfiles. apply lookup_insert_eq.
Qed.

Lemma downloadPdf_same_name_overwrites_witness :
  "downloads/A_B.pdf" = "downloads/A_B.pdf"
  ∧ ∃ chunks w,
      https_get (env0 []) "https://docs.redhat.com/2.pdf"
        (world (snd (downloadPdf (env0 []) "https://docs.redhat.com/1.pdf" "A/B" (st0 0))))
      = (Response 200 chunks BodyEnd, w)
      ∧ files (snd (downloadPdf (env0 []) "https://docs.redhat.com/2.pdf" "A:B"
                      (snd (downloadPdf (env0 []) "https://docs.redhat.com/1.pdf" "A/B"
                              (st0 0)))))
        !! "downloads/A_B.pdf" = Some (concat chunks).
Proof.
  apply (downloadPdf_same_name_overwrites (env0 []) "https://docs.redhat.com/1.pdf"
           "https://docs.redhat.com/2.pdf" "A/B" "A:B" (st0 0));
    reflexivity.
Defined.

(** ** The headless locator: which link it returns *)

Lemma plus_loop_complete (a : atom) (k : string -> option string) :
  ∀ xs rest,
    xs ≠ EmptyString → all_chars (atom_matches a) xs = true → k rest ≠ None →
    plus_loop a k (xs +:+ rest) ≠ None.
Proof.
  induction xs as [|x xs IH]; intros rest Hne Hall Hk; [done|].
  cbn [all_chars] in Hall. apply andb_true_iff in Hall as [Hx Hxs].
  change (String x xs +:+ rest) with (String x (xs +:+ rest)).
  cbn [plus_loop]. rewrite Hx.
  destruct xs as [|y xs].
  - change ("" +:+ rest) with rest.
    destruct (plus_loop a k rest); [discriminate|].
    destruct (k rest); [discriminate | done].
  - specialize (IH rest ltac:(discriminate) Hxs Hk).
    destruct (plus_loop a k (String y xs +:+ rest)); [discriminate | done].
Qed.

(** Where the items match a text, [match_here] finds a match at its start. *)
Lemma match_here_complete :
  ∀ its m rest, matches its m → match_here its (m +:+ rest) ≠ None.
Proof.
  induction its as [|[a|a] its IH]; intros m rest; cbn [matches match_here].
  - discriminate.
  - intros (x & m1 & -> & Hx & Hm1).
    change (String x m1 +:+ rest) with (String x (m1 +:+ rest)).
    cbn [match_here]. rewrite Hx.
    specialize (IH m1 rest Hm1). by destruct (match_here its (m1 +:+ rest)).
  - intros (xs & m1 & -> & Hne & Hall & Hm1). rewrite sapp_assoc.
    apply plus_loop_complete; [exact Hne | exact Hall | by apply IH].
Qed.

Lemma scons_app_inv (x y : ascii) (a b c : string) :
  String x a = String y b +:+ c → x = y ∧ a = b +:+ c.
Proof. change (String y b +:+ c) with (String y (b +:+ c)). by intros [= -> ->]. Qed.

(** The match [regex_search] returns is one found by [match_here], at the
    first place of the text where the items match anything. *)
Lemma regex_search_leftmost (its : list item) :
  ∀ s m,
    regex_search its s = Some m →
    ∃ a b, s = a +:+ (m +:+ b)
           ∧ match_here its (m +:+ b) = Some m
           ∧ ∀ a' u' b', s = a' +:+ u' +:+ b' → matches its u' →
                         String.length a ≤ String.length a'.
Proof.
  assert (Hfound : ∀ s m, match_here its s = Some m →
            ∃ a b, s = a +:+ (m +:+ b) ∧ match_here its (m +:+ b) = Some m
                   ∧ ∀ a' u' b', s = a' +:+ u' +:+ b' → matches its u' →
                                 String.length a ≤ String.length a').
  { intros s m H. destruct (match_here_sound its s m H) as [[r ->] _].
    exists "", r. split; [reflexivity|]. split; [exact H|]. intros; cbn; lia. }
  induction s as [|x s IH]; intros m; cbn [regex_search].
  - destruct (match_here its "") as [m1|] eqn:H; [|discriminate].
    intros [= <-]. by apply Hfound.
  - destruct (match_here its (String x s)) as [m1|] eqn:H.
    + intros [= <-]. by apply Hfound.
    + intros Hs. destruct (IH m Hs) as (a & b & -> & Hm & Hleft).
      exists (String x a), b. split; [reflexivity|]. split; [exact Hm|].
      intros [|y a'] u' b' Heq Hu'.
      * exfalso. change ("" +:+ u' +:+ b') with (u' +:+ b') in Heq.
        apply (match_here_complete its u' b' Hu'). by rewrite <- Heq.
      * change (String x a +:+ (m +:+ b)) with (String x (a +:+ (m +:+ b))) in Heq.
        apply scons_app_inv in Heq as [_ Heq].
        specialize (Hleft a' u' b' Heq Hu'). cbn. lia.
Qed.

Lemma matches_of_lits (p : string) (its : list item) :
  ∀ h m, ci_eqb p h = true → matches its m → matches (lits p ++ its) (h +:+ m).
Proof.
  induction p as [|c p IH]; intros [|x h] m Hh Hm; try discriminate; [exact Hm|].
  cbn [ci_eqb] in Hh. apply andb_true_iff in Hh as [Hx Hh].
  cbn [lits app matches atom_matches]. exists x, (h +:+ m).
  split; [reflexivity|]. split; [exact Hx | by apply IH].
Qed.

Lemma pdfLinkItems_matches (pn pv u : string) :
  pdf_link_shape pn pv u → matches (pdfLinkItems pn pv) u.
Proof.
  intros (h & mid & t & -> & Hh & Hne & Hall & Ht). unfold pdfLinkItems.
  apply matches_of_lits; [exact Hh|]. cbn [matches].
  exists mid, t. split; [reflexivity|]. split; [exact Hne|]. split.
  - rewrite <- Hall. apply all_chars_ext, atom_matches_not_dquote.
  - rewrite <- (sapp_nil_r t), <- (app_nil_r (lits ".pdf")).
    by apply matches_of_lits.
Qed.

Lemma ci_eqb_length (p h : string) :
  ci_eqb p h = true → String.length h = String.length p.
Proof.
  revert h. induction p as [|c p IH]; intros [|x h] H; try discriminate; [reflexivity|].
  cbn [ci_eqb] in H. apply andb_true_iff in H as [_ H]. cbn. by rewrite (IH h H).
Qed.

Lemma pdf_link_shape_nonempty (pn pv u : string) : pdf_link_shape pn pv u → u ≠ EmptyString.
Proof.
  intros (h & mid & t & -> & Hh & _). apply ci_eqb_length in Hh.
  destruct h as [|x h]; [discriminate Hh | discriminate].
Qed.

(** X9. For a product name and version in ASCII, the headless locator
    returns a link exactly when some part of the page markup has the shape
    of a link for that name and version; otherwise it throws. *)
Theorem locateHeadless_succeeds_iff_link_present {W} (env : Env W) (page : Page)
    (pn pv : string) (book : Book) (s : St W) (markup : string) (w : W) :
  ascii_text pn = true →
  ascii_text pv = true →
  page_content env page (world s) = (inr markup, w) →
  (∃ u, fst (locateHeadless env page pn pv book s) = inr u)
  ↔ contains_pdf_link pn pv markup.
Proof.
  intros _ _ Hcontent.
  rewrite (locateHeadless_matchPdfLink env page _ _ book s _ w Hcontent).
  unfold matchPdfLink. rewrite parse_regex_pdfLinkSource. split.
  - intros [u Hu].
    destruct (regex_search (pdfLinkItems pn pv) markup) as [[|c u']|] eqn:Hsearch;
      try discriminate.
    apply regex_search_sound in Hsearch as (a & b & -> & Hm).
    exists a, (String c u'), b. split; [reflexivity | by apply matches_pdfLinkItems].
  - intros (a & u & b & -> & Hshape).
    destruct (regex_search (pdfLinkItems pn pv) (a +:+ u +:+ b)) as [m|] eqn:Hsearch.
    + pose proof Hsearch as Hsound.
      apply regex_search_sound in Hsound as (a1 & b1 & _ & Hm).
      apply matches_pdfLinkItems, pdf_link_shape_nonempty in Hm.
      destruct m as [|c m]; [done|]. by exists (String c m).
    + exfalso.
      assert (Hnone : ∀ a0, regex_search (pdfLinkItems pn pv) (a0 +:+ u +:+ b) ≠ None).
      { induction a0 as [|x a0 IH].
        - change ("" +:+ u +:+ b) with (u +:+ b).
          pose proof (match_here_complete _ u b (pdfLinkItems_matches _ _ _ Hshape)) as Hc.
          destruct (u +:+ b); cbn [regex_search];
            destruct (match_here (pdfLinkItems pn pv) _); done.
        - change (String x a0 +:+ u +:+ b) with (String x (a0 +:+ u +:+ b)).
          cbn [regex_search].
          destruct (match_here (pdfLinkItems pn pv) (String x (a0 +:+ u +:+ b))); done. }
      by apply (Hnone a).
Qed.

Lemma locateHeadless_succeeds_iff_link_present_witness :
  (∃ u, fst (locateHeadless (env_with (link_markup guide_url) []) 1 "prod" "1.0"
               book_guide (st0 0)) = inr u)
  ↔ contains_pdf_link "prod" "1.0" (link_markup guide_url).
Proof.
  apply (locateHeadless_succeeds_iff_link_present
           (env_with (link_markup guide_url) []) 1 "prod" "1.0" book_guide (st0 0)
           (link_markup guide_url) 1); reflexivity.
Defined.

Lemma match_here_lits_length (t : string) :
  ∀ s r, match_here (lits t) s = Some r → String.length r = String.length t.
Proof.
  induction t as [|c t IH]; intros s r; cbn [lits match_here].
  - by intros [= <-].
  - destruct s as [|x s]; [discriminate|].
    destruct (atom_matches (Lit c) x); [|discriminate].
    destruct (match_here (lits t) s) as [r1|] eqn:Hrec; [|discriminate].
    cbn. intros [= <-]. cbn. by rewrite (IH s r1 Hrec).
Qed.

Lemma matches_lits_length (t : string) :
  ∀ m, matches (lits t) m → String.length m = String.length t.
Proof.
  induction t as [|c t IH]; intros m; cbn [lits matches].
  - by intros ->.
  - intros (x & m1 & -> & _ & Hm1). cbn. by rewrite (IH m1 Hm1).
Qed.

Section Greedy.
Context (a : atom) (k : string -> option string) (n : nat).
Hypothesis k_length : ∀ s r, k s = Some r → String.length r = n.

Lemma plus_loop_min_length :
  ∀ s m, plus_loop a k s = Some m → S n ≤ String.length m.
Proof.
  induction s as [|x s IH]; intros m; cbn [plus_loop]; [discriminate|].
  destruct (atom_matches a x); [|discriminate].
  destruct (plus_loop a k s) as [m1|] eqn:Hloop.
  - intros [= <-]. specialize (IH m1 eq_refl). cbn. lia.
  - destruct (k s) as [r|] eqn:Hk; [|discriminate].
    cbn. intros [= <-]. cbn. by rewrite (k_length s r Hk).
Qed.

(** The run taken under [+] is the longest after which the rest matches. *)
Lemma plus_loop_longest :
  ∀ s m, plus_loop a k s = Some m →
    ∀ xs rest, s = xs +:+ rest → xs ≠ EmptyString →
      all_chars (atom_matches a) xs = true → k rest ≠ None →
      String.length xs + n ≤ String.length m.
Proof.
  induction s as [|x s IH]; intros m; cbn [plus_loop]; [discriminate|].
  destruct (atom_matches a x); [|discriminate].
  intros Hm [|y xs] rest Heq Hne Hall Hk; [done|].
  apply scons_app_inv in Heq as [_ ->].
  cbn [all_chars] in Hall. apply andb_true_iff in Hall as [_ Hxs].
  destruct (plus_loop a k (xs +:+ rest)) as [m1|] eqn:Hloop.
  - injection Hm as <-. destruct xs as [|z xs].
    + pose proof (plus_loop_min_length _ _ Hloop). cbn. lia.
    + specialize (IH m1 eq_refl (String z xs) rest eq_refl ltac:(discriminate) Hxs Hk).
      cbn in *. lia.
  - destruct xs as [|z xs].
    + change ("" +:+ rest) with rest in *.
      destruct (k rest) as [r|] eqn:Hr; [|done].
      cbn in Hm. injection Hm as <-. cbn. by rewrite (k_length rest r Hr).
    + exfalso. by apply (plus_loop_complete a k (String z xs) rest).
Qed.

End Greedy.

(** For a pattern of literal characters, one atom under [+] and literal
    characters again, the match found at a place is the longest there. *)
Lemma match_here_longest (a : atom) (t : string) :
  ∀ p s m,
    match_here (lits p ++ Plus a :: lits t) s = Some m →
    ∀ u' b', s = u' +:+ b' → matches (lits p ++ Plus a :: lits t) u' →
             String.length u' ≤ String.length m.
Proof.
  induction p as [|c p IH]; intros s m; cbn [lits app match_here matches].
  - intros Hm u' b' -> (xs & m' & -> & Hne & Hall & Hm').
    rewrite sapp_assoc in Hm.
    pose proof (plus_loop_longest a (match_here (lits t)) (String.length t)
                  (match_here_lits_length t) _ m Hm xs (m' +:+ b') eq_refl Hne Hall
                  (match_here_complete (lits t) m' b' Hm')) as Hlong.
    rewrite slength_app, (matches_lits_length t m' Hm'). exact Hlong.
  - destruct s as [|x s]; [discriminate|].
    destruct (atom_matches (Lit c) x); [|discriminate].
    destruct (match_here (lits p ++ Plus a :: lits t) s) as [m1|] eqn:Hrec; [|discriminate].
    cbn. intros [= <-] u' b' Heq (y & u1 & -> & _ & Hu1).
    apply scons_app_inv in Heq as [_ ->].
    specialize (IH _ m1 Hrec u1 b' eq_refl Hu1). cbn. lia.
Qed.

(** ** The headless locator: the link of the claim *)

Lemma sapp_split (a b c d : string) :
  a +:+ b = c +:+ d → String.length a ≤ String.length c →
  ∃ y, c = a +:+ y ∧ b = y +:+ d.
Proof.
  revert c. induction a as [|x a IH]; intros c Heq Hlen.
  - exists c. by split.
  - destruct c as [|z c]; [cbn in Hlen; lia|].
    change (String x (a +:+ b) = String z (c +:+ d)) in Heq.
    injection Heq as -> Heq.
    destruct (IH c Heq ltac:(cbn in Hlen; lia)) as (y & -> & ->).
    by exists y.
Qed.

Lemma sapp_same_length (a b c d : string) :
  a +:+ b = c +:+ d → String.length a = String.length c → a = c ∧ b = d.
Proof.
  intros Heq Hlen.
  destruct (sapp_split a b c d Heq ltac:(lia)) as (y & -> & ->).
  rewrite slength_app in Hlen. destruct y as [|x y]; [|cbn in Hlen; lia].
  by rewrite sapp_nil_r.
Qed.

Lemma ci_startsWith_of_eqb (p h rest : string) :
  ci_eqb p h = true → ci_startsWith p (h +:+ rest) = true.
Proof.
  revert h. induction p as [|c p IH]; intros [|x h] H; try discriminate; [reflexivity|].
  cbn [ci_eqb] in H. apply andb_true_iff in H as [Hx H].
  change (String x h +:+ rest) with (String x (h +:+ rest)). cbn [ci_startsWith].
  by rewrite Hx, (IH h H).
Qed.

(** A text of link shape starts with the link prefix. *)
Lemma pdf_link_shape_prefix (pn pv u rest : string) :
  pdf_link_shape pn pv u → ci_startsWith (pdfLinkPrefix pn pv) (u +:+ rest) = true.
Proof.
  intros (h & mid & t & -> & Hh & _). rewrite sapp_assoc.
  by apply ci_startsWith_of_eqb.
Qed.

Lemma no_link_before_spec (p rest : string) :
  ∀ pre, no_link_before p pre rest = true →
    ∀ a' x, pre +:+ rest = a' +:+ x → String.length a' < String.length pre →
            ci_startsWith p x = false.
Proof.
  induction pre as [|c pre IH]; intros Hno a' x Heq Hlen; [cbn in Hlen; lia|].
  cbn [no_link_before] in Hno. apply andb_true_iff in Hno as [Hhere Hlater].
  destruct a' as [|z a'].
  - change ("" +:+ x) with x in Heq. subst x. by apply negb_true_iff in Hhere.
  - change (String c (pre +:+ rest) = String z (a' +:+ x)) in Heq. injection Heq as _ Heq.
    apply (IH Hlater a' x Heq). cbn in Hlen. lia.
Qed.

(** Where the link prefix starts nowhere before a place, no text of link
    shape starts before it. *)
Lemma no_link_before_first (pn pv pre rest : string) :
  no_link_before (pdfLinkPrefix pn pv) pre rest = true →
  ∀ a' u' b', pre +:+ rest = a' +:+ u' +:+ b' → pdf_link_shape pn pv u' →
              String.length pre ≤ String.length a'.
Proof.
  intros Hno a' u' b' Heq Hshape.
  destruct (Nat.le_gt_cases (String.length pre) (String.length a')) as [Hle|Hlt];
    [exact Hle|].
  pose proof (no_link_before_spec _ rest pre Hno a' (u' +:+ b') Heq Hlt) as Hstart.
  by rewrite (pdf_link_shape_prefix pn pv u' b' Hshape) in Hstart.
Qed.

Lemma ci_eqb_not_dquote (p t : string) :
  all_chars never_dquote p = true → ci_eqb p t = true → all_chars not_dquote t = true.
Proof.
  revert t. induction p as [|c p IH]; intros [|x t] Hp H; try discriminate; [reflexivity|].
  cbn [all_chars ci_eqb] in *.
  apply andb_true_iff in Hp as [Hc Hp]. apply andb_true_iff in H as [Hx H].
  rewrite (IH t Hp H), andb_true_r. unfold never_dquote in Hc. unfold not_dquote.
  destruct (Ascii.eqb_spec x dquote) as [->|]; [|reflexivity].
  by rewrite Hx in Hc.
Qed.

Lemma ci_eqb_pdf_not_dquote (t : string) :
  ci_eqb ".pdf" t = true → all_chars not_dquote t = true.
Proof. by apply ci_eqb_not_dquote. Qed.

(** A text of link shape does not run across a double quote that comes
    after the link prefix. *)
Lemma pdf_link_shape_stops_at_dquote (pn pv u post u' b' : string) :
  String.length (pdfLinkPrefix pn pv) ≤ String.length u →
  u +:+ String dquote post = u' +:+ b' →
  pdf_link_shape pn pv u' →
  String.length u' ≤ String.length u.
Proof.
  intros Hlen Heq (h & mid & t & -> & Hh & _ & Hmid & Ht).
  destruct (Nat.le_gt_cases (String.length (h +:+ mid +:+ t)) (String.length u))
    as [Hle|Hgt]; [exact Hle|]. exfalso.
  symmetry in Heq.
  destruct (sapp_split u (String dquote post) (h +:+ mid +:+ t) b')
    as (y & Hy & Hpost); [by symmetry | lia |].
  destruct y as [|q y].
  { rewrite sapp_nil_r in Hy. rewrite Hy in Hgt. lia. }
  change (String dquote post = String q (y +:+ b')) in Hpost. injection Hpost as <- _.
  apply ci_eqb_length in Hh. symmetry in Hy.
  destruct (sapp_split h (mid +:+ t) u (String dquote y) ltac:(by symmetry) ltac:(lia))
    as (z & _ & Hz).
  assert (Hall : all_chars not_dquote (mid +:+ t) = true)
    by (by rewrite all_chars_app, Hmid, (ci_eqb_pdf_not_dquote t Ht)).
  rewrite Hz, all_chars_app in Hall. apply andb_true_iff in Hall as [_ Hall].
  cbn [all_chars] in Hall. unfold not_dquote at 1 in Hall.
  by rewrite Ascii.eqb_refl in Hall.
Qed.

Lemma regex_search_finds (its : list item) (a u b : string) :
  matches its u → regex_search its (a +:+ u +:+ b) ≠ None.
Proof.
  intros Hu. induction a as [|x a IH].
  - change ("" +:+ u +:+ b) with (u +:+ b).
    pose proof (match_here_complete its u b Hu) as Hc.
    destruct (u +:+ b); cbn [regex_search]; destruct (match_here its _); done.
  - change (String x a +:+ u +:+ b) with (String x (a +:+ u +:+ b)).
    cbn [regex_search]. destruct (match_here its (String x (a +:+ u +:+ b))); done.
Qed.

(** The link of the headless locator when a part of the markup is the
    first and the longest of link shape. *)
Lemma matchPdfLink_first_longest (pn pv pre u post title : string) :
  pdf_link_shape pn pv u →
  (∀ a' u' b', pre +:+ u +:+ post = a' +:+ u' +:+ b' → pdf_link_shape pn pv u' →
               String.length pre ≤ String.length a') →
  (∀ u' b', u +:+ post = u' +:+ b' → pdf_link_shape pn pv u' →
            String.length u' ≤ String.length u) →
  matchPdfLink (pre +:+ u +:+ post) pn pv title = inr u.
Proof.
  intros Hshape Hfirst Hlongest. unfold matchPdfLink. rewrite parse_regex_pdfLinkSource.
  pose proof (pdfLinkItems_matches pn pv u Hshape) as Hu.
  destruct (regex_search (pdfLinkItems pn pv) (pre +:+ u +:+ post)) as [m|] eqn:Hsearch.
  - destruct (regex_search_leftmost _ _ _ Hsearch) as (a & b & Heq & Hhere & Hleft).
    pose proof (match_here_sound _ _ _ Hhere) as [_ Hm].
    apply matches_pdfLinkItems in Hm.
    assert (Ha : String.length a = String.length pre).
    { apply Nat.le_antisymm.
      - by apply (Hleft pre u post).
      - by apply (Hfirst a m b). }
    destruct (sapp_same_length pre (u +:+ post) a (m +:+ b) Heq (eq_sym Ha)) as [_ Hrest].
    assert (Hm_len : String.length m = String.length u).
    { apply Nat.le_antisymm.
      - by apply (Hlongest m b).
      - by apply (match_here_longest _ _ _ _ _ Hhere u post (eq_sym Hrest)). }
    destruct (sapp_same_length u post m b Hrest (eq_sym Hm_len)) as [<- _].
    destruct u as [|c u]; [|reflexivity].
    by destruct (pdf_link_shape_nonempty pn pv "" Hshape).
  - exfalso. by apply (regex_search_finds _ pre u post Hu).
Qed.

Lemma guide_url_shape : pdf_link_shape "prod" "1.0" guide_url.
Proof. exists (pdfLinkPrefix "prod" "1.0"), "guide", ".pdf". by repeat split. Qed.

(** C8, amended.  The host is fixed to [docs.redhat.com].  For [prod] and
    [1.0], when
    [https://docs.redhat.com/en/documentation/prod/1.0/pdf/guide.pdf] is the
    first part of the markup that has the shape of a link and no longer part
    of that shape starts at the same place, the headless locator returns
    exactly that link; this is so, in particular, when a double quote
    follows the link and the link prefix starts nowhere before it.  For
    every product name and version in ASCII: when no part of the markup has
    the shape of a link (the prefix with the name and version taken
    literally, up to the case of letters, then one or more characters other
    than a double quote, then [.pdf]), the locator throws the error of line
    161; what it returns is always such a part of the markup; and the
    expression it compiles is that shape, whatever characters the name and
    version contain. *)
Theorem locateHeadless_finds_first_link {W} (env : Env W) (page : Page) (book : Book)
    (s : St W) (markup : string) (w : W) :
  page_content env page (world s) = (inr markup, w) →
  (∀ pre post,
     markup = pre +:+ guide_url +:+ post →
     (∀ a' u' b', markup = a' +:+ u' +:+ b' → pdf_link_shape "prod" "1.0" u' →
                  String.length pre ≤ String.length a') →
     (∀ u' b', guide_url +:+ post = u' +:+ b' → pdf_link_shape "prod" "1.0" u' →
               String.length u' ≤ String.length guide_url) →
     fst (locateHeadless env page "prod" "1.0" book s) = inr guide_url)
  ∧ (∀ pre post,
       markup = pre +:+ guide_url +:+ String dquote post →
       no_link_before (pdfLinkPrefix "prod" "1.0") pre (guide_url +:+ String dquote post)
       = true →
       fst (locateHeadless env page "prod" "1.0" book s) = inr guide_url)
  ∧ (∀ pn pv,
       ascii_text pn = true → ascii_text pv = true →
       ¬ contains_pdf_link pn pv markup →
       fst (locateHeadless env page pn pv book s)
       = inl (Error ("Regex failed to find specific PDF link for " +:+ title book +:+ ".")))
  ∧ (∀ pn pv u,
       ascii_text pn = true → ascii_text pv = true →
       fst (locateHeadless env page pn pv book s) = inr u →
       ∃ a b, markup = a +:+ u +:+ b ∧ pdf_link_shape pn pv u)
  ∧ (∀ pn pv,
       ascii_text pn = true → ascii_text pv = true →
       parse_regex (pdfLinkSource (escapeRegExp pn) (escapeRegExp pv))
       = Some (pdfLinkItems pn pv)).
Proof.
  intros Hcontent. split; [|split; [|split; [|split]]].
  - intros pre post -> Hfirst Hlongest.
    rewrite (locateHeadless_matchPdfLink env page _ _ book s _ w Hcontent).
    by apply matchPdfLink_first_longest; [apply guide_url_shape | |].
  - intros pre post -> Hno.
    rewrite (locateHeadless_matchPdfLink env page _ _ book s _ w Hcontent).
    apply (matchPdfLink_first_longest "prod" "1.0" pre guide_url (String dquote post)).
    + apply guide_url_shape.
    + by apply no_link_before_first.
    + intros u' b'. apply pdf_link_shape_stops_at_dquote.
      change (String.length (pdfLinkPrefix "prod" "1.0")) with 54.
      change (String.length guide_url) with 63. lia.
  - intros pn pv _ _ Hnone.
    rewrite (locateHeadless_matchPdfLink env page _ _ book s _ w Hcontent).
    unfold matchPdfLink. rewrite parse_regex_pdfLinkSource.
    destruct (regex_search (pdfLinkItems pn pv) markup) as [[|c u]|] eqn:Hsearch;
      [reflexivity | | reflexivity].
    exfalso. apply Hnone.
    apply regex_search_sound in Hsearch as (a & b & -> & Hm).
    exists a, (String c u), b. split; [reflexivity | by apply matches_pdfLinkItems].
  - intros pn pv u _ _.
    rewrite (locateHeadless_matchPdfLink env page _ _ book s _ w Hcontent).
    unfold matchPdfLink. rewrite parse_regex_pdfLinkSource.
    destruct (regex_search (pdfLinkItems pn pv) markup) as [[|c u']|] eqn:Hsearch;
      [discriminate | | discriminate].
    intros [= <-].
    apply regex_search_sound in Hsearch as (a & b & -> & Hm).
    exists a, b. split; [reflexivity | by apply matches_pdfLinkItems].
  - intros pn pv _ _. apply parse_regex_pdfLinkSource.
Qed.

Lemma locateHeadless_finds_first_link_witness :
  fst (locateHeadless (env_with (single_quoted_markup guide_url) []) 1 "prod" "1.0"
         book_guide (st0 0))
  = inr guide_url.
Proof.
  destruct (locateHeadless_finds_first_link
              (env_with (single_quoted_markup guide_url) []) 1 book_guide (st0 0)
              (single_quoted_markup guide_url) 1 eq_refl) as [Hfound _].
  apply (Hfound "<a href='" ("' class=" +:+ quoted "pdf" +:+ ">PDF</a>")).
  - reflexivity.
  - intros a' u' b' Heq Hshape.
    apply (no_link_before_first "prod" "1.0" "<a href='"
             (guide_url +:+ "' class=" +:+ quoted "pdf" +:+ ">PDF</a>")
             eq_refl a' u' b' Heq Hshape).
  - intros u' b' Heq Hshape.
    apply (match_here_longest (NotChars [dquote]) ".pdf" (pdfLinkPrefix "prod" "1.0")
             (guide_url +:+ "' class=" +:+ quoted "pdf" +:+ ">PDF</a>") guide_url
             eq_refl u' b' Heq).
    by apply pdfLinkItems_matches.
Defined.

(** X10. For a product name and version in ASCII, the link the headless
    locator returns is a part of the markup with the shape of a link, the
    one that starts first in the markup and, among those starting there,
    the longest (the match is greedy: it runs to the last [.pdf] before the
    next double quote). *)
Theorem locateHeadless_returns_leftmost_longest {W} (env : Env W) (page : Page)
    (pn pv : string) (book : Book) (s : St W) (markup : string) (w : W) (u : string) :
  ascii_text pn = true →
  ascii_text pv = true →
  page_content env page (world s) = (inr markup, w) →
  fst (locateHeadless env page pn pv book s) = inr u →
  ∃ a b,
    markup = a +:+ u +:+ b
    ∧ pdf_link_shape pn pv u
    ∧ (∀ a' u' b', markup = a' +:+ u' +:+ b' → pdf_link_shape pn pv u' →
                   String.length a ≤ String.length a')
    ∧ (∀ u' b', u +:+ b = u' +:+ b' → pdf_link_shape pn pv u' →
                String.length u' ≤ String.length u).
Proof.
  intros _ _ Hcontent.
  rewrite (locateHeadless_matchPdfLink env page _ _ book s _ w Hcontent).
  unfold matchPdfLink. rewrite parse_regex_pdfLinkSource.
  destruct (regex_search (pdfLinkItems pn pv) markup) as [[|c u0]|] eqn:Hsearch;
    try discriminate.
  intros [= <-].
  destruct (regex_search_leftmost _ _ _ Hsearch) as (a & b & -> & Hhere & Hleft).
  exists a, b. split; [reflexivity|]. split; [|split].
  - apply matches_pdfLinkItems. by apply (match_here_sound _ _ _ Hhere).
  - intros a' u' b' Heq Hshape. apply (Hleft a' u' b' Heq).
    by apply pdfLinkItems_matches.
  - intros u' b' Heq Hshape.
    apply (match_here_longest _ _ _ _ _ Hhere u' b' Heq).
    by apply pdfLinkItems_matches.
Qed.

Lemma locateHeadless_returns_leftmost_longest_witness :
  ∃ a b,
    link_markup guide_url = a +:+ guide_url +:+ b
    ∧ pdf_link_shape "prod" "1.0" guide_url
    ∧ (∀ a' u' b', link_markup guide_url = a' +:+ u' +:+ b' →
                   pdf_link_shape "prod" "1.0" u' →
                   String.length a ≤ String.length a')
    ∧ (∀ u' b', guide_url +:+ b = u' +:+ b' → pdf_link_shape "prod" "1.0" u' →
                String.length u' ≤ String.length guide_url).
Proof.
  apply (locateHeadless_returns_leftmost_longest
           (env_with (link_markup guide_url) []) 1 "prod" "1.0" book_guide (st0 0)
           (link_markup guide_url) 1 guide_url); reflexivity.
Defined.

(** ** The classification of errors *)

Lemma startsWith_app_l (p s b : string) :
  startsWith p s = true → startsWith p (s +:+ b) = true.
Proof.
  revert s. induction p as [|c p IH]; intros [|x s] H; try discriminate; try reflexivity.
  cbn [startsWith] in H. apply andb_true_iff in H as [Hx H].
  change (String x s +:+ b) with (String x (s +:+ b)). cbn [startsWith].
  by rewrite Hx, (IH s H).
Qed.

Lemma includes_app_l (p s b : string) : includes p s = true → includes p (s +:+ b) = true.
Proof.
  induction s as [|x s IH].
  - cbn [includes]. rewrite orb_false_r. intros H.
    destruct p; [|discriminate]. by destruct b.
  - cbn [includes]. intros H. apply orb_true_iff in H as [H|H].
    + change (String x s +:+ b) with (String x (s +:+ b)). cbn [includes].
      change (String x (s +:+ b)) with (String x s +:+ b).
      by rewrite (startsWith_app_l p (String x s) b H).
    + change (String x s +:+ b) with (String x (s +:+ b)). cbn [includes].
      rewrite (IH H). apply orb_true_r.
Qed.

Lemma includes_app_r (p a s : string) : includes p s = true → includes p (a +:+ s) = true.
Proof.
  intros H. induction a as [|x a IH]; [exact H|].
  change (String x a +:+ s) with (String x (a +:+ s)). cbn [includes].
  rewrite IH. apply orb_true_r.
Qed.

(** A message that holds a critical message holds a critical pattern. *)
Lemma isCritical_wrapped (pre msg post : string) :
  isCritical msg = true → isCritical (pre +:+ msg +:+ post) = true.
Proof.
  unfold isCritical. rewrite !existsb_exists.
  intros (pattern & Hin & Hinc). exists pattern. split; [exact Hin|].
  by apply includes_app_r, includes_app_l.
Qed.

Lemma isCritical_app_r (pre msg : string) :
  isCritical msg = true → isCritical (pre +:+ msg) = true.
Proof.
  intros H. rewrite <- (sapp_nil_r msg). by apply isCritical_wrapped.
Qed.

Lemma isCritical_app_l (msg post : string) :
  isCritical msg = true → isCritical (msg +:+ post) = true.
Proof. intros H. by apply (isCritical_wrapped "" msg post). Qed.

(** X11. The classification survives every wrapping of a message, so the
    retry wrapper does not hide a critical failure: when every error the
    action throws is critical, the error of [withRetry] is critical. *)
Theorem withRetry_keeps_critical_errors {W A} (act : M W A) (label : string) (m : nat)
    (s : St W) (e : JsError) :
  (∀ err, thrown_by act err → isCritical (message err) = true) →
  fst (withRetry act label m s) = inl e →
  isCritical (message e) = true.
Proof.
  intros Hcrit He. unfold withRetry in He.
  apply withRetry_loop_inl in He as (err & Hthrown & ->); [|discriminate|lia].
  cbn [message Error]. do 5 apply isCritical_app_r. by apply Hcrit.
Qed.

Lemma withRetry_keeps_critical_errors_witness :
  isCritical (message (Error "All 2 attempts failed for navigation: page.goto: Target closed"))
  = true.
Proof.
  apply (withRetry_keeps_critical_errors
           (scripted (fun _ => inl (Error "page.goto: Target closed") : JsError + unit))
           "navigation" 1 (st0 0)).
  - intros err (s0 & s1 & Hact). injection Hact as <- _. reflexivity.
  - reflexivity.
Defined.

(** X12. The label is part of the message that is classified: when the
    label holds a critical pattern, as the labels built from the title of a
    book do when the title holds one, every failure of [withRetry] is
    classified critical, whatever the action threw. *)
Theorem withRetry_critical_label {W A} (act : M W A) (pre t post : string) (m : nat)
    (s : St W) (e : JsError) :
  isCritical t = true →
  fst (withRetry act (pre +:+ t +:+ post) m s) = inl e →
  isCritical (message e) = true.
Proof.
  intros Ht He. unfold withRetry in He.
  apply withRetry_loop_inl in He as (err & _ & ->); [|discriminate|lia].
  cbn [message Error]. do 3 apply isCritical_app_r.
  apply isCritical_app_l. by apply isCritical_wrapped.
Qed.

Lemma withRetry_critical_label_witness :
  isCritical (message (Error "All 2 attempts failed for navigation to Why Target closed errors occur HTML page: timeout"))
  = true.
Proof.
  apply (withRetry_critical_label
           (scripted (fun _ => inl (Error "timeout") : JsError + unit))
           "navigation to " "Why Target closed errors occur" " HTML page" 1 (st0 0));
    reflexivity.
Defined.

(** ** The session across the book loop *)

Section LoopSession.
Context {W : Type} (env : Env W).

Lemma flagged_null_failure (books : list Book) :
  List.filter flagged_critical (map null_failure books) = [].
Proof. induction books as [|b books IH]; [reflexivity | exact IH]. Qed.

Lemma run_books_flagged_once (rh : bool) (pn pv : string) :
  ∀ books sess (s : St W) sess' rs s' b,
    browser sess = Some b →
    run_books env rh pn pv books sess s = ((sess', rs), s') →
    length (List.filter flagged_critical rs) ≤ 1.
Proof.
  induction books as [|book books IH]; intros sess s sess' rs s' b Hb.
  - cbn. intros [= <- <- <-]. cbn. lia.
  - cbn [run_books].
    destruct (processBook env rh pn pv sess book s) as [[sess1 r1] s1] eqn:Hone.
    destruct (run_books env rh pn pv books sess1 s1) as [[sess2 rs2] s2] eqn:Hrest.
    intros [= <- <- <-]. cbn [List.filter]. unfold flagged_critical at 1.
    destruct (processBook_spec env _ _ _ _ _ _ _ _ _ Hone)
      as [_ [(Hs & -> & _)|(Hs & _ & _ & msg & _ & Hcrit & Hsess)]];
      rewrite Hs; cbn [negb andb].
    + by eapply IH.
    + rewrite Hcrit. rewrite Hb in Hsess. destruct (isCritical msg); subst sess1.
      * pose proof (run_books_dead env rh pn pv books s1) as Hdead.
        unfold dead in Hdead at 1. rewrite Hrest in Hdead. cbn [fst] in Hdead.
        injection Hdead as _ ->. by rewrite flagged_null_failure.
      * by eapply IH.
Qed.


End LoopSession.



(** ** The tally *)

Lemma fold_left_tally_step (rs : list BookResult) :
  ∀ t,
    successCount (fold_left tally_step rs t)
    = successCount t + length (List.filter success rs)
    ∧ failCount (fold_left tally_step rs t)
      = failCount t + length (List.filter (fun r => negb (success r)) rs)
    ∧ criticalErrorCount (fold_left tally_step rs t)
      = criticalErrorCount t + length (List.filter flagged_critical rs).
Proof.
  induction rs as [|r rs IH]; intros t; [cbn; lia|].
  cbn [fold_left List.filter]. destruct (IH (tally_step t r)) as (H1 & H2 & H3).
  rewrite H1, H2, H3. unfold tally_step, flagged_critical.
  destruct (success r); cbn [negb andb successCount failCount criticalErrorCount length].
  - lia.
  - destruct (criticalError r) as [[]|]; cbn [length]; lia.
Qed.

Lemma filter_flagged_le (rs : list BookResult) :
  length (List.filter flagged_critical rs)
  ≤ length (List.filter (fun r => negb (success r)) rs).
Proof.
  induction rs as [|r rs IH]; [reflexivity|].
  cbn [List.filter]. unfold flagged_critical at 1.
  destruct (success r); cbn [negb andb]; [exact IH|].
  destruct (criticalError r) as [[]|]; cbn [length]; lia.
Qed.

Lemma filter_split_length {X} (f : X -> bool) (l : list X) :
  length (List.filter f l) + length (List.filter (fun x => negb (f x)) l) = length l.
Proof.
  induction l as [|x l IH]; [reflexivity|].
  cbn [List.filter]. destruct (f x); cbn [negb length]; lia.
Qed.

(** X14. Whatever the ledger, the tally's successes and failures add up to
    the number of records, the critical errors are among the failures, and
    the counters are the numbers of records with [success] true, with
    [success] false, and with [success] false and [criticalError] true. *)
Theorem tally_counts (downloadResults : list BookResult) :
  successCount (tally downloadResults) + failCount (tally downloadResults)
  = length downloadResults
  ∧ criticalErrorCount (tally downloadResults) ≤ failCount (tally downloadResults)
  ∧ successCount (tally downloadResults) = length (List.filter success downloadResults)
  ∧ failCount (tally downloadResults)
    = length (List.filter (fun r => negb (success r)) downloadResults)
  ∧ criticalErrorCount (tally downloadResults)
    = length (List.filter flagged_critical downloadResults).
Proof.
  unfold tally.
  destruct (fold_left_tally_step downloadResults
              {| successCount := 0; failCount := 0; criticalErrorCount := 0 |})
    as (H1 & H2 & H3).
  cbn [successCount failCount criticalErrorCount Nat.add] in H1, H2, H3.
  rewrite H1, H2, H3.
  pose proof (filter_split_length success downloadResults).
  pose proof (filter_flagged_le downloadResults).
  repeat split; lia.
Qed.

(** X15. In every run that completes the loop the tally reports at most
    one critical error: after the first one the session variables are null
    and the failures that follow are not critical. *)
Theorem run_reports_at_most_one_critical {W} (env : Env W)
    (JSON_stringify : list BookResult -> list byte) (t pn pv : string) (rh : bool)
    (s : St W) (results : list BookResult) :
  fst (scrapeAndDownloadDocs env JSON_stringify t pn pv rh s) = Some results →
  criticalErrorCount (tally results) ≤ 1.
Proof.
  intros Hsome.
  destruct (scrape_Some env JSON_stringify _ _ _ _ _ _ Hsome)
    as (sess & books & s1 & sess' & s2 & Hsetup & Hrun & _).
  destruct (setup_inr env _ _ _ _ _ _ _ _ Hsetup) as [(b & c & ->) _].
  unfold tally.
  destruct (fold_left_tally_step results
              {| successCount := 0; failCount := 0; criticalErrorCount := 0 |})
    as (_ & _ & ->).
  cbn [criticalErrorCount Nat.add].
  by apply (run_books_flagged_once env rh pn pv books
              {| browser := Some b; context := Some c |} s1 sess' results s2 b
              eq_refl Hrun).
Qed.

Lemma run_reports_at_most_one_critical_witness :
  criticalErrorCount
    (tally [ {| entry := {| title := "Install: Guide";
                            url := "https://docs.redhat.com/b/closed" |};
                pdfUrl := None; downloadPath := None; success := false;
                error := Some "All 2 attempts failed for navigation to Install: Guide HTML page: page.goto: Target closed";
                criticalError := Some true |};
             null_failure {| title := "Admin"; url := "https://docs.redhat.com/b/admin" |} ])
  ≤ 1.
Proof.
  apply (run_reports_at_most_one_critical (env0 books0) (fun _ => [])
           "https://docs.redhat.com/en/documentation/prod/1.0" "prod" "1.0" true (st0 0)).
  vm_compute. reflexivity.
Defined.

(** X16. An iteration that finds the context null does nothing to the
    browser, the network or the files: it pushes the failure of reading
    [newPage] from [null], prints one line, which is what [console.error]
    makes of the format of line 227 (the title is a part of it) and of the
    message, and, in headed mode, waits one second; the session variables
    stay null.  For a title without a percent sign the line is the format,
    a space and the message. *)
Theorem processBook_on_null_context_is_inert {W} (env : Env W) (rh : bool)
    (pn pv : string) (book : Book) (s : St W) :
  fst (processBook env rh pn pv dead book s) = (dead, null_failure book)
  ∧ world (snd (processBook env rh pn pv dead book s)) = world s
  ∧ files (snd (processBook env rh pn pv dead book s)) = files s
  ∧ launches (snd (processBook env rh pn pv dead book s)) = launches s
  ∧ console (snd (processBook env rh pn pv dead book s))
    = console s
      ++ [util_format env ("Error processing " +:+ title book +:+ ":") null_newPage]
  ∧ (plain_format (title book) = true →
     console (snd (processBook env rh pn pv dead book s))
     = console s ++ ["Error processing " +:+ title book +:+ ": " +:+ null_newPage])
  ∧ slept (snd (processBook env rh pn pv dead book s))
    = slept s ++ (if rh then [] else [1000%Z]).
Proof.
  assert (Hrun : processBook env rh pn pv dead book s
                 = ((dead, null_failure book),
                    (if negb rh then sleep 1000 else id)
                      (console_error
                         (util_format env ("Error processing " +:+ title book +:+ ":")
                            null_newPage) s))).
  { unfold processBook. rewrite tryBlock_null_context by reflexivity.
    unfold catchBlock. cbn [message Error]. rewrite isCritical_null_newPage.
    by destruct rh. }
  rewrite Hrun. cbn [fst snd].
  split; [reflexivity|]. split; [by destruct rh|]. split; [by destruct rh|].
  split; [by destruct rh|]. split; [by destruct rh|]. split.
  - intros Hplain. rewrite util_format_plain.
    + destruct rh; cbn; by rewrite !sapp_assoc.
    + unfold plain_format in *. by rewrite !all_chars_app, Hplain.
  - destruct rh; cbn; by rewrite ?app_nil_r.
Qed.

(** ** The whole run: what is launched and what is written *)

Section RunFiles.
Context {W : Type} (env : Env W) (JSON_stringify : list BookResult -> list byte).

Lemma KeepsFiles_call {A} (o : op W A) : KeepsFiles (call o).
Proof. intros s. unfold call. destruct (o (world s)). by st_simpl. Qed.

Lemma KeepsFiles_withRetry_loop {A} (act : M W A) (label : string) (m : nat) :
  KeepsFiles act → ∀ remaining attempt lastError,
    KeepsFiles (withRetry_loop act label m remaining attempt lastError).
Proof.
  intros Hact. induction remaining as [|remaining IH]; intros attempt lastError s.
  - cbn. by destruct lastError.
  - cbn -[show_nat backoff_delay Nat.ltb]. specialize (Hact s).
    destruct (act s) as [[e|v] s1]; [|exact Hact].
    rewrite IH. cbn [snd] in Hact. by destruct (attempt <? m).
Qed.

Lemma KeepsFiles_withRetry {A} (act : M W A) (label : string) (m : nat) :
  KeepsFiles act → KeepsFiles (withRetry act label m).
Proof. intros H. by apply KeepsFiles_withRetry_loop. Qed.

Lemma KeepsFiles_stepS {A B} (sess : Session) (m : M W A)
    (k : A -> St W -> (Session * (JsError + B)) * St W) :
  KeepsFiles m → (∀ a, KeepsFiles (k a)) → KeepsFiles (stepS sess m k).
Proof.
  intros Hm Hk s. unfold stepS. specialize (Hm s).
  destruct (m s) as [[e|a] s1]; [exact Hm|]. cbn [snd] in Hm. by rewrite Hk.
Qed.

Lemma Pres_stepS {A B} (sess : Session) (m : M W A)
    (k : A -> St W -> (Session * (JsError + B)) * St W) :
  Pres m → (∀ a, Pres (k a)) → Pres (stepS sess m k).
Proof.
  intros Hm Hk s. unfold stepS. specialize (Hm s).
  destruct (m s) as [[e|a] s1]; [exact Hm|].
  eapply ext_trans; [exact Hm | apply Hk].
Qed.

Lemma setup_keeps_files (t pn pv : string) (rh : bool) : KeepsFiles (setup env t pn pv rh).
Proof.
  unfold setup. apply KeepsFiles_stepS.
  { intros s. unfold launch. destruct (chromium_launch env _ (world s)). by st_simpl. }
  intros b.
  repeat (apply KeepsFiles_stepS;
          [first [apply KeepsFiles_call | apply KeepsFiles_withRetry, KeepsFiles_call]
          | intros ?]).
  intros s. reflexivity.
Qed.

Lemma setup_launches (t pn pv : string) (rh : bool) (s : St W) :
  launches (snd (setup env t pn pv rh s)) = launches s ++ [launchOptions rh].
Proof.
  unfold setup, stepS at 1, launch.
  destruct (chromium_launch env (launchOptions rh) (world s)) as [[e|b] w]; [by st_simpl|].
  match goal with
  | |- launches (snd (?f ?s0)) = _ =>
      assert (H : Pres f); [|destruct (H s0) as [-> _]; by st_simpl]
  end.
  repeat (apply Pres_stepS;
          [first [apply Pres_call | apply Pres_withRetry, Pres_call] | intros ?]).
  intros s0. apply ext_refl.
Qed.

Lemma outerFinally_keeps (sess : Session) (s : St W) :
  files (outerFinally env sess s) = files s
  ∧ launches (outerFinally env sess s) = launches s
  ∧ ∀ line, line ∈ console s → line ∈ console (outerFinally env sess s).
Proof.
  unfold outerFinally. destruct (browser sess) as [b|]; [|done].
  unfold swallow, call, console_error.
  destruct (browser_close env b (world s)) as [[e|u] w]; st_simpl.
  - repeat split. intros line Hin. apply elem_of_app. by left.
  - done.
Qed.

Lemma settle_stays (s : St W) (at_end : Frozen W) :
  terminated s = Some at_end → settle s = s.
Proof. intros H. unfold settle. by rewrite H. Qed.

Lemma Stays_swallow_call (o : op W unit) (warning : string) :
  Stays (swallow (call o) (fun e => console_error (warning +:+ message e))).
Proof.
  intros s at_end H. unfold swallow, call.
  destruct (o (world s)) as [[e|u] w]; cbv beta iota;
    rewrite (settle_stays (with_world w s) at_end H); exact H.
Qed.

Lemma saveResults_stays (pn pv : string) (rs : list BookResult) :
  Stays (saveResults env JSON_stringify pn pv rs).
Proof.
  intros s at_end H. unfold saveResults, swallow, writeFile.
  destruct (fs_writeFile env _ _ (world s)) as [[e|u] w]; cbv beta iota.
  - rewrite (settle_stays (with_world w s) at_end H). exact H.
  - rewrite settle_stays with (at_end := at_end); exact H.
Qed.

Lemma outerFinally_stays (sess : Session) : Stays (outerFinally env sess).
Proof.
  unfold outerFinally. destruct (browser sess) as [b|]; [|by intros s at_end H].
  apply Stays_swallow_call.
Qed.

(** A process that runs when the script ends has completed the loop, when
    the setup has succeeded. *)
Lemma scrape_not_terminated (t pn pv : string) (rh : bool) (s s1 : St W) (sess : Session)
    (books : list Book) :
  setup env t pn pv rh s = ((sess, inr books), s1) →
  terminated (snd (scrapeAndDownloadDocs env JSON_stringify t pn pv rh s)) = None →
  ∃ results, fst (scrapeAndDownloadDocs env JSON_stringify t pn pv rh s) = Some results.
Proof.
  intros Hsetup.
  destruct (run_books env rh pn pv books sess s1) as [[sess' rs] s2] eqn:Hrun.
  rewrite (scrape_after_setup env JSON_stringify _ _ _ _ _ _ _ _ _ _ _ Hsetup Hrun).
  cbn [fst snd]. destruct (terminated s2) as [at_end|] eqn:Hterm; [|by exists rs].
  intros Hnone.
  rewrite (outerFinally_stays sess' _ at_end
             (saveResults_stays pn pv rs s2 at_end Hterm)) in Hnone.
  discriminate.
Qed.

End RunFiles.

(** X17. A process that runs to its end without a ledger is one whose
    setup failed (launch, context, cookies, or the scan of the listing
    page); then no file was written, neither a PDF nor the results file,
    and the failure was reported on the console.  The other way to end
    without a ledger is the end of the process itself, before the loop is
    over. *)
Theorem run_without_ledger_writes_nothing {W} (env : Env W)
    (JSON_stringify : list BookResult -> list byte) (t pn pv : string) (rh : bool)
    (s : St W) :
  fst (scrapeAndDownloadDocs env JSON_stringify t pn pv rh s) = None →
  terminated (snd (scrapeAndDownloadDocs env JSON_stringify t pn pv rh s)) = None →
  ∃ sess outerError s1,
    setup env t pn pv rh s = ((sess, inl outerError), s1)
    ∧ files (snd (scrapeAndDownloadDocs env JSON_stringify t pn pv rh s)) = files s
    ∧ ("A critical error occurred (e.g., browser launch failed): " +:+ message outerError)
        ∈ console (snd (scrapeAndDownloadDocs env JSON_stringify t pn pv rh s)).
Proof.
  intros Hnone Hruns.
  pose proof (setup_keeps_files env t pn pv rh s) as Hfiles.
  destruct (setup env t pn pv rh s) as [[sess [e|books]] s1] eqn:Hsetup.
  - exists sess, e, s1. split; [reflexivity|].
    unfold scrapeAndDownloadDocs. rewrite Hsetup. cbn [snd] in *.
    destruct (outerFinally_keeps env sess (outerCatch e s1)) as (Hf & _ & Hc).
    split; [by rewrite Hf|]. apply Hc. apply elem_of_app. right.
    apply list_elem_of_singleton. reflexivity.
  - destruct (scrape_not_terminated env JSON_stringify _ _ _ _ _ _ _ _ Hsetup Hruns)
      as [results Hsome].
    congruence.
Qed.

Lemma run_without_ledger_writes_nothing_witness :
  ∃ sess outerError s1,
    setup (env0 books0) "https://docs.redhat.com/closed" "prod" "1.0" true (st0 0)
    = ((sess, inl outerError), s1)
    ∧ files (snd (scrapeAndDownloadDocs (env0 books0) (fun _ => [])
                    "https://docs.redhat.com/closed" "prod" "1.0" true (st0 0)))
      = files (st0 0)
    ∧ ("A critical error occurred (e.g., browser launch failed): " +:+ message outerError)
        ∈ console (snd (scrapeAndDownloadDocs (env0 books0) (fun _ => [])
                          "https://docs.redhat.com/closed" "prod" "1.0" true (st0 0))).
Proof.
  apply (run_without_ledger_writes_nothing (env0 books0) (fun _ => [])
           "https://docs.redhat.com/closed" "prod" "1.0" true (st0 0));
    vm_compute; reflexivity.
Defined.

(** X18. When the loop was completed and the process runs to its end, the
    results file holds the whole ledger as [JSON.stringify] renders it, or
    else the failure to write it was reported on the console.  The name of
    the file is that of line 258 for a product name and version in ASCII. *)
Theorem run_saves_ledger_or_reports {W} (env : Env W)
    (JSON_stringify : list BookResult -> list byte) (t pn pv : string) (rh : bool)
    (s : St W) (results : list BookResult) :
  ascii_text pn = true →
  ascii_text pv = true →
  fst (scrapeAndDownloadDocs env JSON_stringify t pn pv rh s) = Some results →
  terminated (snd (scrapeAndDownloadDocs env JSON_stringify t pn pv rh s)) = None →
  files (snd (scrapeAndDownloadDocs env JSON_stringify t pn pv rh s))
    !! resultsFilename pn pv = Some (JSON_stringify results)
  ∨ ∃ msg, ("Error saving results file: " +:+ msg)
             ∈ console (snd (scrapeAndDownloadDocs env JSON_stringify t pn pv rh s)).
Proof.
  intros _ _ Hsome _.
  destruct (scrape_Some env JSON_stringify _ _ _ _ _ _ Hsome)
    as (sess & books & s1 & sess' & s2 & Hsetup & Hrun & _).
  rewrite (scrape_after_setup env JSON_stringify _ _ _ _ _ _ _ _ _ _ _ Hsetup Hrun).
  cbn [snd].
  destruct (outerFinally_keeps env sess' (saveResults env JSON_stringify pn pv results s2))
    as (Hf & _ & Hc).
  rewrite Hf. unfold saveResults, swallow, writeFile, console_error in *.
  destruct (fs_writeFile env _ _ (world s2)) as [[e|u] w].
  - right. exists (message e). apply Hc. st_simpl.
    apply elem_of_app. right. apply list_elem_of_singleton. reflexivity.
  - left. st_simpl. apply lookup_insert_eq.
Qed.

Lemma run_saves_ledger_or_reports_witness :
  files (snd (scrapeAndDownloadDocs (env0 (tail books0)) (fun rs => [x5b; x5d])
                "https://docs.redhat.com/en/documentation/prod/1.0" "prod" "1.0" true
                (st0 0)))
    !! resultsFilename "prod" "1.0" = Some [x5b; x5d]
  ∨ ∃ msg, ("Error saving results file: " +:+ msg)
             ∈ console (snd (scrapeAndDownloadDocs (env0 (tail books0))
                               (fun rs => [x5b; x5d])
                               "https://docs.redhat.com/en/documentation/prod/1.0"
                               "prod" "1.0" true (st0 0))).
Proof.
  apply (run_saves_ledger_or_reports (env0 (tail books0)) (fun rs => [x5b; x5d])
           "https://docs.redhat.com/en/documentation/prod/1.0" "prod" "1.0" true (st0 0)
           [admin_success]);
    vm_compute; reflexivity.
Defined.

Lemma replace_class_one_length (class : ascii -> bool) (f : ascii -> string) (a : string) :
  (∀ c, String.length (f c) = 1) →
  String.length (replace_class class f a) = String.length a.
Proof.
  intros Hf. induction a as [|x a IH]; [reflexivity|].
  cbn [replace_class]. rewrite slength_app, IH. cbn [String.length].
  destruct (class x); [by rewrite Hf | reflexivity].
Qed.

Lemma results_char_version (c : ascii) :
  negb (is_alnum c || Ascii.eqb c ".") = false → results_char c = true.
Proof.
  unfold results_char. intros H. apply negb_false_iff, orb_true_iff in H as [->|H];
    [reflexivity|].
  apply Ascii.eqb_eq in H. subst c. reflexivity.
Qed.

(** X19. For a product name and version in ASCII, the name of the results
    file is made of letters, digits, underscores, dots and hyphens only; it
    has one character per character of the name and of the version; it
    ends in [-download-results.json] and is never the path of a downloaded
    PDF. *)
Theorem resultsFilename_is_a_plain_name (pn pv : string) :
  ascii_text pn = true →
  ascii_text pv = true →
  all_chars results_char (resultsFilename pn pv) = true
  ∧ String.length (resultsFilename pn pv)
    = String.length pn + String.length pv + 23
  ∧ endsWith "-download-results.json" (resultsFilename pn pv) = true
  ∧ ∀ pn' pv' book, resultsFilename pn pv ≠ download_path pn' pv' book.
Proof.
  intros _ _. split; [|split; [|split]].
  - unfold resultsFilename. rewrite !all_chars_app.
    rewrite !all_chars_replace_class; [reflexivity | | done | | done].
    + apply results_char_version.
    + intros c Hc. unfold results_char. apply negb_false_iff in Hc. by rewrite Hc.
  - unfold resultsFilename. rewrite !slength_app, !replace_class_one_length by done.
    cbn [String.length]. lia.
  - unfold resultsFilename. rewrite <- !sapp_assoc. apply endsWith_app.
  - intros pn' pv' book Heq.
    pose proof (download_path_slash pn' pv' book) as Hslash.
    rewrite <- Heq, resultsFilename_no_slash in Hslash. discriminate.
Qed.

Lemma resultsFilename_is_a_plain_name_witness :
  all_chars results_char (resultsFilename "Red Hat OpenShift" "4.18 beta") = true
  ∧ String.length (resultsFilename "Red Hat OpenShift" "4.18 beta")
    = String.length "Red Hat OpenShift" + String.length "4.18 beta" + 23
  ∧ endsWith "-download-results.json" (resultsFilename "Red Hat OpenShift" "4.18 beta")
    = true
  ∧ ∀ pn' pv' book,
      resultsFilename "Red Hat OpenShift" "4.18 beta" ≠ download_path pn' pv' book.
Proof.
  apply (resultsFilename_is_a_plain_name "Red Hat OpenShift" "4.18 beta"); reflexivity.
Defined.

(** X20. Every run launches the browser exactly once, with
    [launchOptions], whether the setup fails, books fail or a critical
    failure tears the session down. *)
Theorem run_launches_browser_once {W} (env : Env W)
    (JSON_stringify : list BookResult -> list byte) (t pn pv : string) (rh : bool)
    (s : St W) :
  launches (snd (scrapeAndDownloadDocs env JSON_stringify t pn pv rh s))
  = launches s ++ [launchOptions rh].
Proof.
  unfold scrapeAndDownloadDocs.
  pose proof (setup_launches env t pn pv rh s) as Hsetup.
  destruct (setup env t pn pv rh s) as [[sess [e|books]] s1]; cbn [snd] in *.
  - destruct (outerFinally_keeps env sess (outerCatch e s1)) as (_ & -> & _). exact Hsetup.
  - rewrite processBooks_run_books.
    pose proof (Pres_run_books env rh pn pv books sess s1) as [Hl _].
    destruct (run_books env rh pn pv books sess s1) as [[sess' rs] s2]. cbn [snd] in *.
    destruct (outerFinally_keeps env sess' (saveResults env JSON_stringify pn pv rs s2))
      as (_ & -> & _).
    destruct (saveResults_ext env JSON_stringify pn pv rs s2) as [-> _].
    by rewrite Hl.
Qed.

(** ** The main block: the target URL *)

Lemma url_char_plain (c : ascii) :
  url_char c = true → lower c = c ∧ is_space c = false.
Proof.
  destruct c as [[] [] [] [] [] [] [] []]; vm_compute; intros H;
    first [discriminate H | split; reflexivity].
Qed.

Lemma toLowerCase_fixed (n : string) : all_chars url_char n = true → toLowerCase n = n.
Proof.
  induction n as [|c n IH]; [reflexivity|].
  cbn [all_chars toLowerCase]. intros H. apply andb_true_iff in H as [Hc Hn].
  destruct (url_char_plain c Hc) as [-> _]. by rewrite (IH Hn).
Qed.

Lemma collapse_spaces_fixed (n : string) :
  all_chars url_char n = true → collapse_spaces false n = n.
Proof.
  induction n as [|c n IH]; [reflexivity|].
  cbn [all_chars collapse_spaces]. intros H. apply andb_true_iff in H as [Hc Hn].
  destruct (url_char_plain c Hc) as [_ ->]. by rewrite (IH Hn).
Qed.

Lemma keep_url_chars_fixed (n : string) :
  all_chars url_char n = true →
  replace_class (fun c => negb (url_char c)) (fun _ => EmptyString) n = n.
Proof.
  induction n as [|c n IH]; [reflexivity|].
  cbn [all_chars replace_class]. intros H. apply andb_true_iff in H as [Hc Hn].
  rewrite Hc, (IH Hn). reflexivity.
Qed.

Lemma urlProductName_fixed (n : string) :
  all_chars url_char n = true → urlProductName n = n.
Proof.
  intros H. unfold urlProductName.
  by rewrite (toLowerCase_fixed n H), (collapse_spaces_fixed n H), (keep_url_chars_fixed n H).
Qed.

Lemma urlProductName_url_chars (n : string) : all_chars url_char (urlProductName n) = true.
Proof.
  unfold urlProductName. apply all_chars_replace_class.
  - intros c Hc. by apply negb_false_iff in Hc.
  - intros c. reflexivity.
Qed.

(** X21. For a product name in ASCII, the name in the target URL is made of
    lower-case letters, digits and underscores only; deriving it again from
    itself changes nothing, and a name is left as it is exactly when it is
    already of that form. *)
Theorem urlProductName_normal_form (productName : string) :
  ascii_text productName = true →
  all_chars url_char (urlProductName productName) = true
  ∧ urlProductName (urlProductName productName) = urlProductName productName
  ∧ (urlProductName productName = productName ↔ all_chars url_char productName = true).
Proof.
  intros _. split; [apply urlProductName_url_chars|].
  split; [apply urlProductName_fixed, urlProductName_url_chars|]. split.
  - intros <-. apply urlProductName_url_chars.
  - apply urlProductName_fixed.
Qed.

Lemma urlProductName_normal_form_witness :
  all_chars url_char (urlProductName "Red Hat  OpenShift (4.x)") = true
  ∧ urlProductName (urlProductName "Red Hat  OpenShift (4.x)")
    = urlProductName "Red Hat  OpenShift (4.x)"
  ∧ (urlProductName "Red Hat  OpenShift (4.x)" = "Red Hat  OpenShift (4.x)"
     ↔ all_chars url_char "Red Hat  OpenShift (4.x)" = true).
Proof.
  apply (urlProductName_normal_form "Red Hat  OpenShift (4.x)"). reflexivity.
Defined.

Lemma endsWith_slash_inv (base : string) :
  endsWith "/" base = true → ∃ b0, base = b0 +:+ "/".
Proof.
  induction base as [|c base IH]; [discriminate|].
  cbn [endsWith]. intros H. apply orb_true_iff in H as [H|H].
  - apply String.eqb_eq in H. rewrite H. by exists "".
  - destruct (IH H) as [b0 ->]. by exists (String c b0).
Qed.

Lemma startsWith_app (p b : string) : startsWith p (p +:+ b) = true.
Proof.
  induction p as [|c p IH]; [reflexivity|].
  change (String c p +:+ b) with (String c (p +:+ b)). cbn [startsWith].
  by rewrite Ascii.eqb_refl, IH.
Qed.

(** X22. For a product name in ASCII, the target URL starts with the base
    URL and ends with [/<name>/<version>], with exactly the separator the
    base lacks: a base given without its final slash yields the same URL as
    the base with it. *)
Theorem targetUrl_joins_with_one_slash (baseUrl productName productVersion : string) :
  ascii_text productName = true →
  startsWith baseUrl (targetUrl baseUrl productName productVersion) = true
  ∧ endsWith ("/" +:+ urlProductName productName +:+ "/" +:+ productVersion)
      (targetUrl baseUrl productName productVersion) = true
  ∧ (endsWith "/" baseUrl = false →
     targetUrl (baseUrl +:+ "/") productName productVersion
     = targetUrl baseUrl productName productVersion).
Proof.
  intros _. unfold targetUrl. split; [|split].
  - destruct (endsWith "/" baseUrl); [apply startsWith_app|].
    rewrite sapp_assoc. apply startsWith_app.
  - destruct (endsWith "/" baseUrl) eqn:Hend.
    + destruct (endsWith_slash_inv baseUrl Hend) as [b0 ->].
      rewrite sapp_assoc. apply endsWith_app.
    + rewrite sapp_assoc. apply endsWith_app.
  - intros Hend. by rewrite Hend, (endsWith_app "/" baseUrl).
Qed.

Lemma targetUrl_joins_with_one_slash_witness :
  startsWith "https://docs.redhat.com/en/documentation"
    (targetUrl "https://docs.redhat.com/en/documentation" "Red Hat OpenShift" "4.18")
  = true
  ∧ endsWith ("/" +:+ urlProductName "Red Hat OpenShift" +:+ "/" +:+ "4.18")
      (targetUrl "https://docs.redhat.com/en/documentation" "Red Hat OpenShift" "4.18")
    = true
  ∧ (endsWith "/" "https://docs.redhat.com/en/documentation" = false →
     targetUrl ("https://docs.redhat.com/en/documentation" +:+ "/") "Red Hat OpenShift"
       "4.18"
     = targetUrl "https://docs.redhat.com/en/documentation" "Red Hat OpenShift" "4.18").
Proof.
  apply (targetUrl_joins_with_one_slash "https://docs.redhat.com/en/documentation"
           "Red Hat OpenShift" "4.18").
  reflexivity.
Defined.

(** X23. With the default base URL and a product name already in URL form,
    the links the headless locator looks for are those under the listing
    page: their prefix is the target URL followed by [/pdf/]. *)
Theorem pdfLinkPrefix_is_under_targetUrl (argv : Argv) :
  arg_baseUrl argv = default_baseUrl →
  all_chars url_char (arg_productName argv) = true →
  pdfLinkPrefix (arg_productName argv) (arg_productVersion argv)
  = targetUrl (arg_baseUrl argv) (arg_productName argv) (arg_productVersion argv)
    +:+ "/pdf/".
Proof.
  intros -> Hname. unfold pdfLinkPrefix, targetUrl.
  rewrite (urlProductName_fixed _ Hname).
  change (endsWith "/" default_baseUrl) with true. cbn iota.
  unfold default_baseUrl. by rewrite !sapp_assoc.
Qed.

Lemma pdfLinkPrefix_is_under_targetUrl_witness :
  pdfLinkPrefix "openshift_container_platform" "4.18"
  = targetUrl default_baseUrl "openshift_container_platform" "4.18" +:+ "/pdf/".
Proof.
  apply (pdfLinkPrefix_is_under_targetUrl
           {| arg_productName := "openshift_container_platform";
              arg_productVersion := "4.18";
              arg_baseUrl := default_baseUrl;
              arg_headless := true |}); reflexivity.
Defined.

(** ** Runs that complete the loop *)

(** X24. In a run that reaches the book loop and completes it, the ledger
    has exactly one record per book, in the order of the listing, whatever
    happened to each book.  The loop is completed whenever the process
    runs to its end, and always in headless mode, where no promise is left
    without a handler. *)
Theorem completed_run_has_one_record_per_book {W} (env : Env W)
    (JSON_stringify : list BookResult -> list byte) (t pn pv : string) (rh : bool)
    (s s1 : St W) (sess : Session) (books : list Book) :
  setup env t pn pv rh s = ((sess, inr books), s1) →
  (∀ results,
     fst (scrapeAndDownloadDocs env JSON_stringify t pn pv rh s) = Some results →
     length results = length books ∧ map entry results = books)
  ∧ (terminated (snd (scrapeAndDownloadDocs env JSON_stringify t pn pv rh s)) = None →
     ∃ results, fst (scrapeAndDownloadDocs env JSON_stringify t pn pv rh s) = Some results)
  ∧ (rh = true → quiet s →
     ∃ results, fst (scrapeAndDownloadDocs env JSON_stringify t pn pv rh s) = Some results).
Proof.
  intros Hsetup. split; [|split].
  - intros results Hsome.
    destruct (scrape_Some env JSON_stringify _ _ _ _ _ _ Hsome)
      as (sess0 & books0' & s0 & sess' & s2 & Hsetup' & Hrun & _).
    rewrite Hsetup in Hsetup'. injection Hsetup' as <- <- <-.
    pose proof (run_books_entries env rh pn pv books sess s1 sess' results s2 Hrun)
      as Hentries.
    split; [|exact Hentries]. rewrite <- Hentries. by rewrite length_map.
  - by apply (scrape_not_terminated env JSON_stringify _ _ _ _ _ _ _ _ Hsetup).
  - intros -> Hq. by apply (scrape_headless_completes env JSON_stringify _ _ _ _ _ _ _ Hq Hsetup).
Qed.

Lemma completed_run_has_one_record_per_book_witness :
  (∀ results,
     fst (scrapeAndDownloadDocs (env0 books0) (fun _ => []) target0 "prod" "1.0" true
            (st0 0)) = Some results →
     length results = length books0 ∧ map entry results = books0)
  ∧ (terminated (snd (scrapeAndDownloadDocs (env0 books0) (fun _ => []) target0 "prod"
                        "1.0" true (st0 0))) = None →
     ∃ results,
       fst (scrapeAndDownloadDocs (env0 books0) (fun _ => []) target0 "prod" "1.0" true
              (st0 0)) = Some results)
  ∧ (true = true → quiet (st0 0) →
     ∃ results,
       fst (scrapeAndDownloadDocs (env0 books0) (fun _ => []) target0 "prod" "1.0" true
              (st0 0)) = Some results).
Proof.
  eapply (completed_run_has_one_record_per_book (env0 books0) (fun _ => []) target0
            "prod" "1.0" true (st0 0)).
  vm_compute. reflexivity.
Defined.

(** X25. In a run that completes the book loop, once a record is flagged
    critical every later book gets the record of a failure to open a page
    on the null context ([success] false, the error of reading [newPage]
    from [null]); the ledger is complete, and the whole run launches a
    browser exactly once, so none is launched after the critical failure. *)
Theorem completed_run_fails_all_books_after_critical {W} (env : Env W)
    (JSON_stringify : list BookResult -> list byte) (t pn pv : string) (rh : bool)
    (s s1 : St W) (sess : Session) (books : list Book) (results : list BookResult) :
  setup env t pn pv rh s = ((sess, inr books), s1) →
  fst (scrapeAndDownloadDocs env JSON_stringify t pn pv rh s) = Some results →
  length results = length books
  ∧ launches (snd (scrapeAndDownloadDocs env JSON_stringify t pn pv rh s))
    = launches s ++ [launchOptions rh]
  ∧ ∀ i r, results !! i = Some r → criticalError r = Some true →
      ∀ j, i < j → results !! j = null_failure <$> (books !! j).
Proof.
  intros Hsetup Hsome.
  destruct (scrape_Some env JSON_stringify _ _ _ _ _ _ Hsome)
    as (sess0 & books0' & s0 & sess' & s2 & Hsetup' & Hrun & Hterm).
  rewrite Hsetup in Hsetup'. injection Hsetup' as <- <- <-.
  rewrite (scrape_after_setup env JSON_stringify _ _ _ _ _ _ _ _ _ _ _ Hsetup Hrun).
  cbn [fst snd].
  destruct (setup_inr env _ _ _ _ _ _ _ _ Hsetup) as [(b & c & ->) Hlaunch].
  split; [|split].
  - pose proof (run_books_entries env rh pn pv books _ s1 sess' results s2 Hrun)
      as Hentries.
    rewrite <- Hentries. by rewrite length_map.
  - destruct (PresS_outerFinally env sess'
                (saveResults env JSON_stringify pn pv results s2)) as [-> _].
    destruct (saveResults_ext env JSON_stringify pn pv results s2) as [-> _].
    pose proof (Pres_run_books env rh pn pv books
                  {| browser := Some b; context := Some c |} s1) as [Hl _].
    rewrite Hrun in Hl. cbn [snd] in Hl. by rewrite Hl.
  - intros i r Hi Hcrit j Hj.
    by apply (run_books_after_critical env rh pn pv books
                {| browser := Some b; context := Some c |} s1 sess' results s2 b
                eq_refl Hrun i r Hi Hcrit).
Qed.

Lemma completed_run_fails_all_books_after_critical_witness :
  length ledger0 = length books0
  ∧ launches (snd (scrapeAndDownloadDocs (env0 books0) (fun _ => []) target0 "prod" "1.0"
                     true (st0 0)))
    = launches (st0 0) ++ [launchOptions true]
  ∧ ∀ i r, ledger0 !! i = Some r → criticalError r = Some true →
      ∀ j, i < j → ledger0 !! j = null_failure <$> (books0 !! j).
Proof.
  eapply (completed_run_fails_all_books_after_critical (env0 books0) (fun _ => []) target0
            "prod" "1.0" true (st0 0)); vm_compute; reflexivity.
Defined.


